(** * webtail: the Docker watcher (container discovery and proxy lifecycle)

    A shallow embedding of the Docker watcher of webtail: the label
    resolution done by [handleContainer], the helpers [parseBoolLabel] and
    [getLowestExposedPort], the proxy registry [dw.proxies] with
    [stopProxy], [GetProxies] and [Stop], the client options of
    [NewDockerWatcher], and the goroutines of the watcher ([Start] with
    its scan of the running containers, the event loop it starts, the
    per-container goroutine of [handleContainer] that ends in
    [watchContainerStop], the stop goroutines of [Stop]) as a labelled
    step function over a pool of live goroutines.

    Go strings are byte strings: [string].  Go maps are [gmap]s; a map
    read [m[k]] of an absent key yields the zero value.  Pointers to
    proxies are [option nat] ([None] is [nil]).  A panic (a slice past the
    end of a string, a negative wait-group counter) ends the process: the
    functions that can panic return an [option], the steps a [Crash].
    Blocking calls into the Docker client and into a proxy are the points
    where the environment chooses: their results are carried by the labels
    of the steps. *)

From Stdlib Require Import ZArith Ascii String List Lia.
From stdpp Require Import base option list strings gmap pretty sorting.

(** ** Strings, the way the Go standard library treats them *)

Module GoStrings.

Definition is_upper (c : ascii) : bool :=
  (65 <=? nat_of_ascii c)%nat && (nat_of_ascii c <=? 90)%nat.

Definition lower (c : ascii) : ascii :=
  if is_upper c then ascii_of_nat (nat_of_ascii c + 32) else c.

(** [strings.ToLower].  On ASCII bytes this is Go's function.  A string
    with bytes above 127 is lower-cased by Go rune by rune; no rune
    outside ASCII has a lower case among the letters t, r, u, e, and the
    bytes of a multi-byte rune stay above 127, so the test
    [ToLower s = "true"] has the same answer here and in Go. *)
Fixpoint ToLower (s : string) : string :=
  match s with
  | EmptyString => EmptyString
  | String c s' => String (lower c) (ToLower s')
  end.

Fixpoint cutPrefix (s prefix : string) {struct prefix} : option string :=
  match prefix, s with
  | EmptyString, _ => Some s
  | String p prefix', String c s' =>
      if Ascii.eqb p c then cutPrefix s' prefix' else None
  | String _ _, EmptyString => None
  end.

(** [strings.TrimPrefix]: [s] without the leading [prefix], or [s]. *)
Definition TrimPrefix (s prefix : string) : string :=
  match cutPrefix s prefix with
  | Some rest => rest
  | None => s
  end.

(** [s[:n]]: a slice expression past the end of the string panics. *)
Definition slice_to (n : nat) (s : string) : option string :=
  if (n <=? String.length s)%nat then Some (substring 0 n s) else None.

(** [strconv.ParseBool]; [None] is the syntax error. *)
Definition ParseBool (str : string) : option bool :=
  if bool_decide (str ∈ ["1"; "t"; "T"; "true"; "TRUE"; "True"]) then Some true
  else if bool_decide (str ∈ ["0"; "f"; "F"; "false"; "FALSE"; "False"]) then Some false
  else None.

(** [strconv.Itoa] on Go's [int]. *)
Definition Itoa (n : Z) : string := pretty n.

Definition digit (c : ascii) : option N :=
  let n := N_of_ascii c in
  if ((48 <=? n) && (n <=? 57))%N then Some (n - 48)%N else None.

Fixpoint digits (acc : N) (s : string) : option N :=
  match s with
  | EmptyString => Some acc
  | String c s' =>
      match digit c with
      | Some d => digits (acc * 10 + d)%N s'
      | None => None
      end
  end.

(** [strconv.ParseUint s 10 16]; [None] is a syntax or range error. *)
Definition ParseUint16 (s : string) : option N :=
  match s with
  | EmptyString => None
  | _ =>
      match digits 0 s with
      | Some n => if (n <=? 65535)%N then Some n else None
      | None => None
      end
  end.

(** The part of [s] before the first [sep]. *)
Fixpoint before (sep : ascii) (s : string) : string :=
  match s with
  | EmptyString => EmptyString
  | String c s' => if Ascii.eqb c sep then EmptyString else String c (before sep s')
  end.

End GoStrings.
Import GoStrings.

(** ** Exposed ports ([nat.Port], [nat.PortSet] of docker/go-connections) *)

(** A [nat.Port] is a string such as ["8080/tcp"]. *)
Abbreviation Port := string (only parsing).

(** [nat.Port.Int]: the number before the slash, parsed as a 16-bit
    unsigned decimal; [0] when there is none or it does not parse (the
    library drops the error of [ParsePort]). *)
Definition Port_Int (p : Port) : Z :=
  match ParseUint16 (before "/" p) with
  | Some n => Z.of_N n
  | None => 0
  end.

(** ** Labels *)

Definition labelEnabled : string := "webtail.enabled".
Definition labelProtocol : string := "webtail.protocol".
Definition labelPort : string := "webtail.port".
Definition labelNodeName : string := "webtail.node_name".
Definition labelPassHostHeader : string := "webtail.pass_host_header".
Definition labelTrustForwardHeader : string := "webtail.trust_forward_header".
Definition defaultProtocol : string := "http".

(** [labels[k]] in its one-value form: the empty string when [k] is absent. *)
Definition index (labels : gmap string string) (k : string) : string :=
  default "" (labels !! k).

(** [parseBoolLabel] *)
Definition parseBoolLabel (value : string) (defaultVal : bool) : bool :=
  if String.eqb value "" then defaultVal
  else match ParseBool value with
       | None => defaultVal
       | Some b => b
       end.

(** [sort.Ints] *)
Definition sortInts (ports : list Z) : list Z := merge_sort Z.le ports.

(** [getLowestExposedPort].  The argument lists the keys of the port set
    in the order in which the [range] loop visits them (any order). *)
Definition getLowestExposedPort (exposedPorts : list Port) : string :=
  if (length exposedPorts =? 0)%nat then ""
  else
    let ports := filter (fun portNum => 0 < portNum)%Z (Port_Int <$> exposedPorts) in
    if (length ports =? 0)%nat then ""
    else match sortInts ports with
         | lowest :: _ => Itoa lowest
         | [] => "" (* not reached: sorting keeps the length *)
         end.

(** ** Data of the watcher *)

(** What [handleContainer] reads of the result of [ContainerInspect]:
    [inspect.Name], [inspect.Config.Labels], [inspect.Config.ExposedPorts]
    ([inspect.Config] is there for every container the daemon reports).
    The exposed ports are the keys of the port set, in the order in which
    a [range] loop visits them. *)
Record Inspect := {
  Name : string;
  Labels : gmap string string;
  ExposedPorts : list Port;
}.

(** [ServiceConfig], the fields set by [handleContainer]; the two flags
    are pointers to [bool] ([None] is [nil]). *)
Record ServiceConfig := {
  Target : string;
  NodeName : string;
  PassHostHeader : option bool;
  TrustForwardHeader : option bool;
}.

(** [*Proxy]: [None] is [nil], [Some h] points to the [h]-th proxy made. *)
Abbreviation ProxyPtr := (option nat) (only parsing).

(** One constructor per [log.Printf] / [log.Println] of the watcher, with
    the arguments of the format. *)
Inductive LogMsg :=
| LogScanFailed (err : string)
| LogWatcherStarted
| LogWatcherStopping
| LogEventsError (err : string)
| LogExistingError (id12 err : string)
| LogHandleError (id12 err : string)
| LogNoPort (id12 : string)
| LogAutoPort (id12 port : string)
| LogNodeName (id12 nodeName : string)
| LogExists (id12 nodeName : string)
| LogEnabled (id12 nodeName target : string)
| LogStartFailed (id12 nodeName err : string)
| LogStarted (id12 nodeName : string)
| LogWatchError (id12 err : string)
| LogStopped (id12 nodeName : string)
| LogStopError (id12 err : string)
| LogStopAllError (err : string).

(** What the watcher does to the outside, in order. *)
Inductive Effect :=
| Log (m : LogMsg)
| ProxyStart (p : ProxyPtr) (err : option string)  (* p.Start() returned err *)
| ProxyStop (p : ProxyPtr) (err : option string)   (* p.Stop() returned err *)
| Cancel                                           (* dw.cancel() *)
| ClientClose.                                     (* dw.client.Close() *)

(** [DockerWatcher], together with the proxies made so far ([made], in
    order of creation) and the effects so far ([trace]). *)
Record DockerWatcher := {
  client : bool;                   (* dw.client != nil *)
  dockerNetwork : string;
  proxies : gmap string ProxyPtr;  (* containerID -> Proxy *)
  ctxDone : bool;                  (* dw.ctx is cancelled *)
  wg : nat;                        (* counter of dw.wg *)
  made : list ServiceConfig;
  trace : list Effect;
}.

Definition emit (es : list Effect) (dw : DockerWatcher) : DockerWatcher :=
  {| client := client dw; dockerNetwork := dockerNetwork dw; proxies := proxies dw;
     ctxDone := ctxDone dw; wg := wg dw; made := made dw; trace := trace dw ++ es |}.

Definition set_proxies (m : gmap string ProxyPtr) (dw : DockerWatcher) : DockerWatcher :=
  {| client := client dw; dockerNetwork := dockerNetwork dw; proxies := m;
     ctxDone := ctxDone dw; wg := wg dw; made := made dw; trace := trace dw |}.

Definition set_wg (n : nat) (dw : DockerWatcher) : DockerWatcher :=
  {| client := client dw; dockerNetwork := dockerNetwork dw; proxies := proxies dw;
     ctxDone := ctxDone dw; wg := n; made := made dw; trace := trace dw |}.

Definition set_ctxDone (dw : DockerWatcher) : DockerWatcher :=
  {| client := client dw; dockerNetwork := dockerNetwork dw; proxies := proxies dw;
     ctxDone := true; wg := wg dw; made := made dw; trace := trace dw |}.

(** Modelled from the spec: [NewProxy] (proxy.go is not among the
    sources) is a pure construction of a new handle from a routing
    configuration; it returns a pointer to a proxy that did not exist. *)
Definition NewProxy (cfg : ServiceConfig) (dw : DockerWatcher) : ProxyPtr * DockerWatcher :=
  (Some (length (made dw)),
   {| client := client dw; dockerNetwork := dockerNetwork dw; proxies := proxies dw;
      ctxDone := ctxDone dw; wg := wg dw; made := made dw ++ [cfg]; trace := trace dw |}).

(** ** Label resolution: [handleContainer], from the read of the labels to
    the target *)

(** The local variables of [handleContainer] once the target is built. *)
Record Resolved := {
  r_containerName : string;
  r_port : string;
  r_nodeName : string;
  r_protocol : string;
  r_passHostHeader : bool;
  r_trustForwardHeader : bool;
  r_target : string;
}.

Inductive Resolution :=
| NotEnabled                               (* return nil at the enabled test *)
| NoPort (logs : list LogMsg)              (* return nil after the no-port log *)
| Eligible (r : Resolved) (logs : list LogMsg).

(** [handleContainer] from [labels := inspect.Config.Labels] to the
    construction of [target].  [None] is the panic of [containerID[:12]] on
    an identity shorter than twelve bytes; the slice is taken only where a
    log line is printed. *)
Definition resolveLabels (network containerID : string) (inspect : Inspect)
  : option Resolution :=
  let labels := Labels inspect in
  match labels !! labelEnabled with
  | None => Some NotEnabled
  | Some enabledStr =>
    if negb (String.eqb (ToLower enabledStr) "true") then Some NotEnabled
    else
      let containerName := TrimPrefix (Name inspect) "/" in
      let port := index labels labelPort in
      portStep ←
        (if String.eqb port "" then
           let detectedPort := getLowestExposedPort (ExposedPorts inspect) in
           if String.eqb detectedPort "" then
             id12 ← slice_to 12 containerID; Some (inl [LogNoPort id12])
           else
             id12 ← slice_to 12 containerID;
             Some (inr (detectedPort, [LogAutoPort id12 detectedPort]))
         else Some (inr (port, [])));
      match portStep with
      | inl logs => Some (NoPort logs)
      | inr (port, logs1) =>
        let nodeName := index labels labelNodeName in
        nameStep ←
          (if String.eqb nodeName "" then
             id12 ← slice_to 12 containerID;
             Some (containerName, [LogNodeName id12 containerName])
           else Some (nodeName, []));
        let '(nodeName, logs2) := nameStep in
        let protocol := index labels labelProtocol in
        let protocol := if String.eqb protocol "" then defaultProtocol else protocol in
        let passHostHeader := parseBoolLabel (index labels labelPassHostHeader) false in
        let trustForwardHeader := parseBoolLabel (index labels labelTrustForwardHeader) false in
        let target := protocol +:+ "://" +:+ containerName +:+ "." +:+ network +:+ ":" +:+ port in
        Some (Eligible
                {| r_containerName := containerName; r_port := port; r_nodeName := nodeName;
                   r_protocol := protocol; r_passHostHeader := passHostHeader;
                   r_trustForwardHeader := trustForwardHeader; r_target := target |}
                (logs1 ++ logs2))
      end
  end.

(** ** The watcher's functions *)

(** [dw.wg.Done()]; [None] is the panic on a negative counter. *)
Definition wgDone (dw : DockerWatcher) : option DockerWatcher :=
  match wg dw with
  | O => None
  | S n => Some (set_wg n dw)
  end.

(** The goroutine started by [handleContainer]. *)
Inductive TaskPC :=
| TaskStart   (* in proxy.Start() *)
| TaskWatch.  (* registered; in the select of watchContainerStop *)

Record Task := {
  t_containerID : string;
  t_nodeName : string;
  t_proxy : ProxyPtr;
  t_pc : TaskPC;
}.

(** What a call of [handleContainer] leaves: the watcher, the returned
    error, the goroutine it started. *)
Record Handled := {
  h_dw : DockerWatcher;
  h_err : option string;
  h_go : option Task;
}.

(** [handleContainer], given what [ContainerInspect] returned ([inr] is its
    error).  [None] is a panic. *)
Definition handleContainer (dw : DockerWatcher) (containerID : string)
    (inspected : Inspect + string) : option Handled :=
  match inspected with
  | inr err =>
      Some {| h_dw := dw; h_err := Some ("failed to inspect container: " +:+ err);
              h_go := None |}
  | inl inspect =>
      res ← resolveLabels (dockerNetwork dw) containerID inspect;
      match res with
      | NotEnabled => Some {| h_dw := dw; h_err := None; h_go := None |}
      | NoPort logs =>
          Some {| h_dw := emit (Log <$> logs) dw; h_err := None; h_go := None |}
      | Eligible r logs =>
          let dw := emit (Log <$> logs) dw in
          match proxies dw !! containerID with
          | Some _ =>
              id12 ← slice_to 12 containerID;
              Some {| h_dw := emit [Log (LogExists id12 (r_nodeName r))] dw;
                      h_err := None; h_go := None |}
          | None =>
              let serviceConfig :=
                {| Target := r_target r; NodeName := r_nodeName r;
                   PassHostHeader := Some (r_passHostHeader r);
                   TrustForwardHeader := Some (r_trustForwardHeader r) |} in
              id12 ← slice_to 12 containerID;
              let dw := emit [Log (LogEnabled id12 (r_nodeName r) (r_target r))] dw in
              let '(proxy, dw) := NewProxy serviceConfig dw in
              let dw := set_wg (S (wg dw)) dw in
              Some {| h_dw := dw; h_err := None;
                      h_go := Some {| t_containerID := containerID;
                                      t_nodeName := r_nodeName r;
                                      t_proxy := proxy; t_pc := TaskStart |} |}
          end
      end
  end.

(** [stopProxy]; [stopErr] is what [proxy.Stop()] returns if it is called. *)
Definition stopProxy (dw : DockerWatcher) (containerID : string)
    (stopErr : option string) : option DockerWatcher :=
  let found := proxies dw !! containerID in
  let dw := match found with
            | Some _ => set_proxies (delete containerID (proxies dw)) dw
            | None => dw
            end in
  match found with
  | Some (Some h) =>
      let dw := emit [ProxyStop (Some h) stopErr] dw in
      match stopErr with
      | Some err => id12 ← slice_to 12 containerID; Some (emit [Log (LogStopError id12 err)] dw)
      | None => Some dw
      end
  | _ => Some dw
  end.

(** An event of the Docker stream: [Type], [Action], [Actor.ID]. *)
Record Message := {
  Type_ : string;
  Action : string;
  ActorID : string;
}.

(** The case a [select] takes. *)
Inductive Select :=
| CtxDone                        (* <-dw.ctx.Done() *)
| ErrRecv (err : option string)  (* err := <-errChan *)
| EventRecv (event : Message).   (* event := <-eventsChan *)

Inductive Outcome (A : Type) :=
| Next (a : A)
| Crash       (* a panic: the process dies *)
| Disabled.   (* the step cannot be taken now *)
Arguments Next {A} a.
Arguments Crash {A}.
Arguments Disabled {A}.

Definition orCrash {A} (o : option A) : Outcome A :=
  match o with Some a => Next a | None => Crash end.

(** The goroutine of [handleContainer] when [proxy.Start()] returns [err]:
    the watcher, and the goroutine if it lives on. *)
Definition proxyStarted (dw : DockerWatcher) (t : Task) (err : option string)
  : option (DockerWatcher * option Task) :=
  let dw := emit [ProxyStart (t_proxy t) err] dw in
  match err with
  | Some e =>
      id12 ← slice_to 12 (t_containerID t);
      dw ← wgDone (emit [Log (LogStartFailed id12 (t_nodeName t) e)] dw);
      Some (dw, None)
  | None =>
      let dw := set_proxies (<[t_containerID t := t_proxy t]> (proxies dw)) dw in
      id12 ← slice_to 12 (t_containerID t);
      Some (emit [Log (LogStarted id12 (t_nodeName t))] dw,
            Some {| t_containerID := t_containerID t; t_nodeName := t_nodeName t;
                    t_proxy := t_proxy t; t_pc := TaskWatch |})
  end.

(** One turn of the loop of [watchContainerStop], then the deferred
    [dw.wg.Done()] of the goroutine when the function returns. *)
Definition watchContainerStop (dw : DockerWatcher) (t : Task) (sel : Select)
    (stopErr : option string) : Outcome (DockerWatcher * option Task) :=
  match sel with
  | CtxDone =>
      if ctxDone dw then orCrash (dw ← wgDone dw; Some (dw, None)) else Disabled
  | ErrRecv err =>
      orCrash
        (dw ← match err with
              | Some e =>
                  if negb (ctxDone dw) then
                    id12 ← slice_to 12 (t_containerID t);
                    Some (emit [Log (LogWatchError id12 e)] dw)
                  else Some dw
              | None => Some dw
              end;
         dw ← wgDone dw; Some (dw, None))
  | EventRecv event =>
      if String.eqb (Action event) "stop" || String.eqb (Action event) "die"
         || String.eqb (Action event) "kill" then
        orCrash
          (id12 ← slice_to 12 (t_containerID t);
           dw ← stopProxy (emit [Log (LogStopped id12 (t_nodeName t))] dw)
                          (t_containerID t) stopErr;
           dw ← wgDone dw; Some (dw, None))
      else Next (dw, Some t)
  end.

(** [handleEvent], up to its call of [handleContainer]: the identity it
    calls it for, if any. *)
Definition handleEvent (event : Message) : option string :=
  if negb (String.eqb (Type_ event) "container") then None
  else if String.eqb (Action event) "start" then Some (ActorID event)
  else None.

(** [Stop], piece by piece: [dw.cancel()]; the drain under the lock, which
    gives the list [proxiesToStop] (the values of the map, in the order of
    the [range] loop: any order); what one stop goroutine does; the close
    of the client. *)
Definition Stop_cancel (dw : DockerWatcher) : DockerWatcher :=
  emit [Cancel] (set_ctxDone dw).

Definition Stop_drain (dw : DockerWatcher) : list ProxyPtr * DockerWatcher :=
  ((map_to_list (proxies dw)).*2, set_proxies ∅ dw).

Definition Stop_goroutine (dw : DockerWatcher) (p : ProxyPtr) (err : option string)
  : DockerWatcher :=
  let dw := emit [ProxyStop p err] dw in
  match err with
  | Some e => emit [Log (LogStopAllError e)] dw
  | None => dw
  end.

Definition Stop_close (dw : DockerWatcher) : DockerWatcher :=
  if client dw then emit [ClientClose] dw else dw.

(** ** The goroutines *)

(** The goroutine started by [Start]. *)
Inductive LoopPC :=
| LoopStart                     (* before its first log line *)
| LoopSelect                    (* in the select *)
| LoopInspect (event : Message). (* in handleEvent, in handleContainer, in ContainerInspect *)

(** The goroutine that owns the watcher: it calls [Start], then [Stop]. *)
Inductive MainPC :=
| Created                       (* NewDockerWatcher returned *)
| Listing                       (* Start: in ContainerList *)
| Scanning (ids : list string)  (* Start: these containers are still to handle *)
| Running                       (* Start returned *)
| StopCancelled                 (* Stop: dw.cancel() done *)
| StopDrained                   (* Stop: registry drained, in stopWg.Wait() *)
| StopClosed                    (* Stop: in dw.wg.Wait() *)
| Stopped.                      (* Stop returned *)

(** The watcher and its live goroutines.  A goroutine that returns leaves
    its pool. *)
Record Config := {
  dw : DockerWatcher;
  main : MainPC;
  loop : option LoopPC;
  tasks : list Task;          (* goroutines of handleContainer *)
  stoppers : list ProxyPtr;   (* goroutines of Stop, each about to call p.Stop() *)
}.

(** A step: which goroutine moves, and what the environment answers. *)
Inductive Label :=
| StartCalled
| StartListed (r : list string + string)   (* ContainerList returned *)
| StartInspected (r : Inspect + string)    (* ContainerInspect returned, in the scan *)
| StartSubscribed                          (* Events subscribed, loop started, Start returns *)
| StopCancel
| StopDrain
| StopClose
| StopWaited
| LoopBegin
| LoopSelects (sel : Select)
| LoopInspected (r : Inspect + string)     (* ContainerInspect returned, in the loop *)
| TaskStarted (i : nat) (err : option string)
| TaskSelects (i : nat) (sel : Select) (stopErr : option string)
| StopperRuns (i : nat) (err : option string).

Definition spawned (h : Handled) : list Task :=
  match h_go h with Some t => [t] | None => [] end.

(** The caller's [if err := dw.handleContainer(id); err != nil { log }]. *)
Definition logHandled (mk : string -> string -> LogMsg) (containerID : string)
    (h : Handled) : option DockerWatcher :=
  match h_err h with
  | Some e => id12 ← slice_to 12 containerID; Some (emit [Log (mk id12 e)] (h_dw h))
  | None => Some (h_dw h)
  end.

Definition step (l : Label) (c : Config) : Outcome Config :=
  match l with
  | StartCalled =>
      match main c with
      | Created => Next {| dw := dw c; main := Listing; loop := loop c;
                           tasks := tasks c; stoppers := stoppers c |}
      | _ => Disabled
      end
  | StartListed r =>
      match main c with
      | Listing =>
          match r with
          | inl ids => Next {| dw := dw c; main := Scanning ids; loop := loop c;
                               tasks := tasks c; stoppers := stoppers c |}
          | inr err =>
              Next {| dw := emit [Log (LogScanFailed ("failed to list containers: " +:+ err))] (dw c);
                      main := Scanning []; loop := loop c;
                      tasks := tasks c; stoppers := stoppers c |}
          end
      | _ => Disabled
      end
  | StartInspected r =>
      match main c with
      | Scanning (containerID :: ids) =>
          orCrash
            (h ← handleContainer (dw c) containerID r;
             dw' ← logHandled LogExistingError containerID h;
             Some {| dw := dw'; main := Scanning ids; loop := loop c;
                     tasks := tasks c ++ spawned h; stoppers := stoppers c |})
      | _ => Disabled
      end
  | StartSubscribed =>
      match main c with
      | Scanning [] =>
          Next {| dw := set_wg (S (wg (dw c))) (dw c); main := Running;
                  loop := Some LoopStart; tasks := tasks c; stoppers := stoppers c |}
      | _ => Disabled
      end
  | StopCancel =>
      match main c with
      | Created | Running =>
          Next {| dw := Stop_cancel (dw c); main := StopCancelled;
                  loop := loop c; tasks := tasks c; stoppers := stoppers c |}
      | _ => Disabled
      end
  | StopDrain =>
      match main c with
      | StopCancelled =>
          let '(proxiesToStop, dw') := Stop_drain (dw c) in
          Next {| dw := dw'; main := StopDrained; loop := loop c;
                  tasks := tasks c; stoppers := proxiesToStop |}
      | _ => Disabled
      end
  | StopperRuns i err =>
      match stoppers c !! i with
      | Some p =>
          Next {| dw := Stop_goroutine (dw c) p err; main := main c; loop := loop c;
                  tasks := tasks c; stoppers := delete i (stoppers c) |}
      | None => Disabled
      end
  | StopClose =>
      match main c, stoppers c with
      | StopDrained, [] =>
          Next {| dw := Stop_close (dw c); main := StopClosed; loop := loop c;
                  tasks := tasks c; stoppers := stoppers c |}
      | _, _ => Disabled
      end
  | StopWaited =>
      match main c, wg (dw c) with
      | StopClosed, O =>
          Next {| dw := dw c; main := Stopped; loop := loop c; tasks := tasks c;
                  stoppers := stoppers c |}
      | _, _ => Disabled
      end
  | LoopBegin =>
      match loop c with
      | Some LoopStart =>
          Next {| dw := emit [Log LogWatcherStarted] (dw c); main := main c;
                  loop := Some LoopSelect; tasks := tasks c; stoppers := stoppers c |}
      | _ => Disabled
      end
  | LoopSelects sel =>
      match loop c with
      | Some LoopSelect =>
          match sel with
          | CtxDone =>
              if ctxDone (dw c) then
                orCrash
                  (dw' ← wgDone (emit [Log LogWatcherStopping] (dw c));
                   Some {| dw := dw'; main := main c; loop := None; tasks := tasks c;
                           stoppers := stoppers c |})
              else Disabled
          | ErrRecv err =>
              let dw' := match err with
                         | Some e => if negb (ctxDone (dw c))
                                     then emit [Log (LogEventsError e)] (dw c) else dw c
                         | None => dw c
                         end in
              orCrash
                (dw' ← wgDone dw';
                 Some {| dw := dw'; main := main c; loop := None; tasks := tasks c;
                         stoppers := stoppers c |})
          | EventRecv event =>
              match handleEvent event with
              | Some _ =>
                  Next {| dw := dw c; main := main c; loop := Some (LoopInspect event);
                          tasks := tasks c; stoppers := stoppers c |}
              | None => Next c
              end
          end
      | _ => Disabled
      end
  | LoopInspected r =>
      match loop c with
      | Some (LoopInspect event) =>
          orCrash
            (h ← handleContainer (dw c) (ActorID event) r;
             dw' ← logHandled LogHandleError (ActorID event) h;
             Some {| dw := dw'; main := main c; loop := Some LoopSelect;
                     tasks := tasks c ++ spawned h; stoppers := stoppers c |})
      | _ => Disabled
      end
  | TaskStarted i err =>
      match tasks c !! i with
      | Some t =>
          match t_pc t with
          | TaskStart =>
              orCrash
                (r ← proxyStarted (dw c) t err;
                 Some {| dw := r.1; main := main c; loop := loop c;
                         tasks := match r.2 with
                                  | Some t' => <[i := t']> (tasks c)
                                  | None => delete i (tasks c)
                                  end;
                         stoppers := stoppers c |})
          | TaskWatch => Disabled
          end
      | None => Disabled
      end
  | TaskSelects i sel stopErr =>
      match tasks c !! i with
      | Some t =>
          match t_pc t with
          | TaskWatch =>
              match watchContainerStop (dw c) t sel stopErr with
              | Next r =>
                  Next {| dw := r.1; main := main c; loop := loop c;
                          tasks := match r.2 with
                                   | Some t' => <[i := t']> (tasks c)
                                   | None => delete i (tasks c)
                                   end;
                          stoppers := stoppers c |}
              | Crash => Crash
              | Disabled => Disabled
              end
          | TaskStart => Disabled
          end
      | None => Disabled
      end
  end.

(** A schedule, run from a configuration. *)
Fixpoint run (ls : list Label) (c : Config) : Outcome Config :=
  match ls with
  | [] => Next c
  | l :: ls' =>
      match step l c with
      | Next c' => run ls' c'
      | Crash => Crash
      | Disabled => Disabled
      end
  end.

(** [NewDockerWatcher] returned this watcher. *)
Definition init (network : string) : Config :=
  {| dw := {| client := true; dockerNetwork := network; proxies := ∅; ctxDone := false;
              wg := 0; made := []; trace := [] |};
     main := Created; loop := None; tasks := []; stoppers := [] |}.

Definition reachable (c : Config) : Prop :=
  ∃ network ls, run ls (init network) = Next c.

(** ** Words of the specification *)

(** Two bytes that are the same ASCII letter up to case, or equal. *)
Definition foldEq (a b : ascii) : bool :=
  Ascii.eqb a b
  || (is_upper a && Ascii.eqb (ascii_of_nat (nat_of_ascii a + 32)) b)
  || (is_upper b && Ascii.eqb (ascii_of_nat (nat_of_ascii b + 32)) a).

(** "Case-insensitively equal". *)
Fixpoint EqualFold (s t : string) : bool :=
  match s, t with
  | EmptyString, EmptyString => true
  | String a s', String b t' => foldEq a b && EqualFold s' t'
  | _, _ => false
  end.

(** The enablement label is there and says true, whatever the case. *)
Definition enabled (inspect : Inspect) : Prop :=
  ∃ v, Labels inspect !! labelEnabled = Some v ∧ EqualFold v "true" = true.

(** [m] is the numerically lowest port number among the exposed ports,
    those without a number (zero) left out. *)
Definition lowest_port (m : Z) (exposedPorts : list Port) : Prop :=
  (0 < m)%Z ∧ m ∈ Port_Int <$> exposedPorts ∧
  ∀ n, n ∈ Port_Int <$> exposedPorts → (0 < n)%Z → (m ≤ n)%Z.

(** The same container with other labels. *)
Definition with_labels (labels : gmap string string) (inspect : Inspect) : Inspect :=
  {| Name := Name inspect; Labels := labels; ExposedPorts := ExposedPorts inspect |}.

(** The calls of [p.Start()] so far. *)
Definition starts (tr : list Effect) : list (ProxyPtr * option string) :=
  omap (λ e, match e with ProxyStart p err => Some (p, err) | _ => None end) tr.

(** The calls of [p.Stop()] so far. *)
Definition stops (tr : list Effect) : list (ProxyPtr * option string) :=
  omap (λ e, match e with ProxyStop p err => Some (p, err) | _ => None end) tr.

Arguments starts : simpl never.
Arguments stops : simpl never.

(** ** The invariant of the watcher *)

Definition loop_live (c : Config) : nat :=
  match loop c with Some _ => 1 | None => 0 end.

Definition starting (t : Task) : Prop := t_pc t = TaskStart.

Global Instance starting_dec t : Decision (starting t).
Proof. unfold starting. destruct (t_pc t); [left|right]; done. Defined.

(** The proxies whose [Start] is being called. *)
Definition pending (ts : list Task) : list ProxyPtr := t_proxy <$> filter starting ts.

(** - the counter of [dw.wg] is the number of live goroutines it counts;
    - the identity of every goroutine can be sliced for the log;
    - no proxy is started twice: those being started and those started
      are all different, and all were made by [NewProxy];
    - a registered identity can be sliced, and the [Start] of its proxy
      returned [nil]. *)
Record Inv' (wgv live : nat) (ts : list Task) (reg : gmap string ProxyPtr)
    (nmade : nat) (st : list (ProxyPtr * option string)) : Prop := {
  inv_wg : wgv = live + length ts;
  inv_ids : Forall (λ t, 12 ≤ String.length (t_containerID t)) ts;
  inv_distinct : NoDup (pending ts ++ st.*1);
  inv_made : Forall (λ p, ∃ h, p = Some h ∧ h < nmade) (pending ts ++ st.*1);
  inv_registry : map_Forall (λ containerID p,
                   12 ≤ String.length containerID ∧ (p, None) ∈ st) reg;
}.

(** [Start] has not returned yet. *)
Definition pre_start (m : MainPC) : Prop :=
  match m with Created | Listing | Scanning _ => True | _ => False end.

Record Inv (c : Config) : Prop := {
  inv_state : Inv' (wg (dw c)) (loop_live c) (tasks c) (proxies (dw c))
                   (length (made (dw c))) (starts (trace (dw c)));
  inv_client : client (dw c) = true;
  inv_loop : pre_start (main c) → loop c = None;
  inv_stopped : main c = Stopped → wg (dw c) = 0;
}.

(** ** Teardown *)

(** What one step does to the registry, to the stop goroutines of [Stop]
    and to the calls of [Start] and [Stop]: nothing; a failed start; a
    successful start, which registers; a teardown by [stopProxy]; the drain
    of [Stop]; the run of one stop goroutine. *)
Inductive Change (c c' : Config) : Prop :=
| Quiet :
    proxies (dw c') = proxies (dw c) →
    starts (trace (dw c')) = starts (trace (dw c)) →
    stoppers c' = stoppers c →
    stops (trace (dw c')) = stops (trace (dw c)) →
    Change c c'
| StartFailed p e :
    p ∈ pending (tasks c) →
    proxies (dw c') = proxies (dw c) →
    starts (trace (dw c')) = starts (trace (dw c)) ++ [(p, Some e)] →
    stoppers c' = stoppers c →
    stops (trace (dw c')) = stops (trace (dw c)) →
    Change c c'
| Registered containerID p :
    p ∈ pending (tasks c) →
    proxies (dw c') = <[containerID := p]> (proxies (dw c)) →
    starts (trace (dw c')) = starts (trace (dw c)) ++ [(p, None)] →
    stoppers c' = stoppers c →
    stops (trace (dw c')) = stops (trace (dw c)) →
    Change c c'
| TornDown containerID p e :
    proxies (dw c) !! containerID = Some p →
    proxies (dw c') = delete containerID (proxies (dw c)) →
    starts (trace (dw c')) = starts (trace (dw c)) →
    stoppers c' = stoppers c →
    stops (trace (dw c')) = stops (trace (dw c)) ++ [(p, e)] →
    Change c c'
| Drained :
    main c = StopCancelled →
    proxies (dw c') = ∅ →
    starts (trace (dw c')) = starts (trace (dw c)) →
    stoppers c' = (map_to_list (proxies (dw c))).*2 →
    stops (trace (dw c')) = stops (trace (dw c)) →
    Change c c'
| StopperDone i p e :
    stoppers c !! i = Some p →
    proxies (dw c') = proxies (dw c) →
    starts (trace (dw c')) = starts (trace (dw c)) →
    stoppers c' = delete i (stoppers c) →
    stops (trace (dw c')) = stops (trace (dw c)) ++ [(p, e)] →
    Change c c'.

(** The proxies that are registered, about to be stopped by [Stop], or
    stopped. *)
Definition owed (reg : gmap string ProxyPtr) (sp : list ProxyPtr)
    (sl : list (ProxyPtr * option string)) : list ProxyPtr :=
  (map_to_list reg).*2 ++ sp ++ sl.*1.

(** Each of them was started with success, and none occurs twice: a
    registered proxy has not been stopped, and no proxy is stopped twice. *)
Record Once (reg : gmap string ProxyPtr) (st : list (ProxyPtr * option string))
    (sp : list ProxyPtr) (sl : list (ProxyPtr * option string)) : Prop := {
  once_started : Forall (λ p, (p, None) ∈ st) (owed reg sp sl);
  once_nodup : NoDup (owed reg sp sl);
}.

(** [Stop] has drained the registry. *)
Definition after_drain (m : MainPC) : Prop :=
  match m with StopDrained | StopClosed | Stopped => True | _ => False end.

Record Teardown (c : Config) : Prop := {
  td_once : Once (proxies (dw c)) (starts (trace (dw c))) (stoppers c)
                 (stops (trace (dw c)));
  td_closed : main c = StopClosed ∨ main c = Stopped → stoppers c = [];
}.

(** ** A sample run *)

(** The configuration a schedule leads to from a new watcher on the
    network "net" (the new watcher itself if the schedule cannot run). *)
Definition after (ls : list Label) : Config :=
  match run ls (init "net") with
  | Next c => c
  | _ => init "net"
  end.

Definition sample_id : string := "0123456789abcdef".

Definition sample_inspect : Inspect :=
  {| Name := "/app"; Labels := {[ labelEnabled := "true" ]};
     ExposedPorts := ["8080/tcp"; "80/tcp"] |}.

Definition sample_event (action : string) : Message :=
  {| Type_ := "container"; Action := action; ActorID := sample_id |}.

(** [Start] on a host without containers, then one start event, handled
    up to the registration of the proxy. *)
Definition sample_listening : list Label :=
  [StartCalled; StartListed (inl []); StartSubscribed; LoopBegin].

Definition sample_watching : list Label :=
  sample_listening ++
  [LoopSelects (EventRecv (sample_event "start")); LoopInspected (inl sample_inspect);
   TaskStarted 0 None].


(** ** [GetProxies], [NewDockerWatcher], and schedules of [Start] and [Stop] *)

(** [GetProxies]: the proxies of the registry, read under the lock, in
    the order of the [range] loop (any order). *)
Definition GetProxies (dw : DockerWatcher) : list ProxyPtr :=
  (map_to_list (proxies dw)).*2.

(** [Stop] has been called. *)
Definition stop_called (m : MainPC) : Prop :=
  match m with StopCancelled | StopDrained | StopClosed | Stopped => True | _ => False end.

(** The identity that the step [l] hands to [handleContainer], with what
    [ContainerInspect] returned for it: the next container of the scan, or
    the actor of the event the loop is handling. *)
Definition handles (l : Label) (c : Config) : option (string * (Inspect + string)) :=
  match l with
  | StartInspected r =>
      match main c with
      | Scanning (containerID :: _) => Some (containerID, r)
      | _ => None
      end
  | LoopInspected r =>
      match loop c with
      | Some (LoopInspect event) => Some (ActorID event, r)
      | _ => None
      end
  | _ => None
  end.

(** The inspection succeeded and [handleContainer] gets as far as the
    registry check. *)
Definition eligible (network containerID : string) (r : Inspect + string) : bool :=
  match r with
  | inl inspect =>
      match resolveLabels network containerID inspect with
      | Some (Eligible _ _) => true
      | _ => false
      end
  | inr _ => false
  end.

(** [Start] on a host whose running containers are [ids], when
    [ContainerInspect] answers [rs] for them, one after the other. *)
Definition scan (ids : list string) (rs : list (Inspect + string)) : list Label :=
  [StartCalled; StartListed (inl ids)] ++ (StartInspected <$> rs) ++ [StartSubscribed].

(** What [ContainerInspect] returns for a container without labels. *)
Definition no_labels : Inspect := {| Name := "/idle"; Labels := ∅; ExposedPorts := [] |}.

(** The loop runs on to its return, the context being cancelled; an
    inspection that is pending returns a container without labels. *)
Definition finish_loop (lp : option LoopPC) : list Label :=
  match lp with
  | None => []
  | Some LoopStart => [LoopBegin; LoopSelects CtxDone]
  | Some LoopSelect => [LoopSelects CtxDone]
  | Some (LoopInspect _) => [LoopInspected (inl no_labels); LoopSelects CtxDone]
  end.

(** The first goroutine of [handleContainer] runs on to its return, the
    context being cancelled: [proxy.Start()], if it is pending, returns
    [startErr]. *)
Definition finish_task (startErr : option string) (t : Task) : list Label :=
  match t_pc t, startErr with
  | TaskStart, Some e => [TaskStarted 0 (Some e)]
  | TaskStart, None => [TaskStarted 0 None; TaskSelects 0 CtxDone None]
  | TaskWatch, _ => [TaskSelects 0 CtxDone None]
  end.

(** [Stop], called in the configuration [c], with every goroutine running
    on to its return: every [proxy.Stop()] returns [stopErr], every pending
    [proxy.Start()] returns [startErr]. *)
Definition shutdown (c : Config) (startErr stopErr : option string) : list Label :=
  [StopCancel; StopDrain] ++
  ((StopperRuns 0 <$> replicate (size (proxies (dw c))) stopErr) ++ [StopClose]) ++
  finish_loop (loop c) ++ (tasks c ≫= finish_task startErr) ++ [StopWaited].

(** [DockerConfig], the fields that [NewDockerWatcher] reads; [TLSVerify]
    is a pointer to [bool]. *)
Record DockerConfig := {
  Host : string;
  APIVersion : string;
  CertPath : string;
  TLSVerify : option bool;
  Network : string;
}.

(** The options of the Docker client that [NewDockerWatcher] uses. *)
Inductive Opt :=
| WithHost (host : string)
| WithVersion (version : string)
| WithTLSClientConfig (cacertPath certPath keyPath : string)
| FromEnv
| WithAPIVersionNegotiation.

(** [NewDockerWatcher], up to its call of [client.NewClientWithOpts]: the
    options it passes, in order.  [boolValue] is the helper of config.go
    that reads the pointer [TLSVerify] with a default; config.go is not
    among the sources, so it is an argument here. *)
Definition clientOpts (boolValue : option bool → bool → bool)
    (dockerConfig : DockerConfig) : list Opt :=
  let opts := [] in
  let opts := if negb (String.eqb (Host dockerConfig) "")
              then opts ++ [WithHost (Host dockerConfig)] else opts in
  let opts := if negb (String.eqb (APIVersion dockerConfig) "")
              then opts ++ [WithVersion (APIVersion dockerConfig)] else opts in
  let opts := if negb (String.eqb (CertPath dockerConfig) "")
              then
                let tlsVerify := boolValue (TLSVerify dockerConfig) false in
                if tlsVerify
                then opts ++ [WithTLSClientConfig (CertPath dockerConfig +:+ "/ca.pem")
                                                  (CertPath dockerConfig +:+ "/cert.pem")
                                                  (CertPath dockerConfig +:+ "/key.pem")]
                else opts
              else opts in
  opts ++ [FromEnv; WithAPIVersionNegotiation].

(** [NewDockerWatcher], from the return of [client.NewClientWithOpts]
    ([Some err] is its error): the error, or the new watcher. *)
Definition NewDockerWatcher (dockerConfig : DockerConfig) (created : option string)
  : Config + string :=
  match created with
  | Some err => inr ("failed to create Docker client: " +:+ err)
  | None => inl (init (Network dockerConfig))
  end.

(** The same configuration with another certificate path. *)
Definition with_CertPath (certPath : string) (dockerConfig : DockerConfig) : DockerConfig :=
  {| Host := Host dockerConfig; APIVersion := APIVersion dockerConfig;
     CertPath := certPath; TLSVerify := TLSVerify dockerConfig;
     Network := Network dockerConfig |}.

(** * Properties *)

(** ** Strings *)

Section strings.

Lemma lower_fold_t c : foldEq c "t" = Ascii.eqb (lower c) "t".
Proof. by destruct c as [[] [] [] [] [] [] [] []]. Qed.
Lemma lower_fold_r c : foldEq c "r" = Ascii.eqb (lower c) "r".
Proof. by destruct c as [[] [] [] [] [] [] [] []]. Qed.
Lemma lower_fold_u c : foldEq c "u" = Ascii.eqb (lower c) "u".
Proof. by destruct c as [[] [] [] [] [] [] [] []]. Qed.
Lemma lower_fold_e c : foldEq c "e" = Ascii.eqb (lower c) "e".
Proof. by destruct c as [[] [] [] [] [] [] [] []]. Qed.

(** The test of [handleContainer] is case-insensitive equality. *)
Lemma ToLower_true s : String.eqb (ToLower s) "true" = EqualFold s "true".
Proof.
  destruct s as [|a [|b [|c [|d [|e s]]]]]; simpl;
    rewrite ?lower_fold_t, ?lower_fold_r, ?lower_fold_u, ?lower_fold_e;
    repeat (match goal with |- context [Ascii.eqb ?x ?y] => destruct (Ascii.eqb x y) end;
            simpl; try done); done.
Qed.

Lemma TrimPrefix_slash rest : TrimPrefix ("/" +:+ rest) "/" = rest.
Proof. reflexivity. Qed.

Lemma TrimPrefix_no_slash s : cutPrefix s "/" = None → TrimPrefix s "/" = s.
Proof. unfold TrimPrefix. by intros ->. Qed.

Lemma slice_to_Some (n : nat) (s : string) : (n ≤ String.length s)%nat → slice_to n s = Some (substring 0 n s).
Proof. unfold slice_to. intros H. by rewrite (proj2 (Nat.leb_le _ _) H). Qed.

Lemma pretty_N_go_nonempty x s : s ≠ "" → pretty_N_go x s ≠ "".
Proof.
  revert s. induction (N.lt_wf_0 x) as [x _ IH]; intros s Hs.
  destruct (decide (x = 0)%N) as [->|Hx]; [by rewrite pretty_N_go_0|].
  rewrite pretty_N_go_step by lia. apply IH; [apply N.div_lt; lia|done].
Qed.

Lemma pretty_N_nonempty (x : N) : pretty x ≠ "".
Proof.
  unfold pretty, pretty_N. case_decide; [done|].
  rewrite pretty_N_go_step by lia. by apply pretty_N_go_nonempty.
Qed.

(** [strconv.Itoa] never returns the empty string. *)
Lemma Itoa_nonempty n : Itoa n ≠ "".
Proof.
  unfold Itoa, pretty, pretty_Z. destruct n as [|p|p]; [done| |done].
  apply (pretty_N_nonempty (Npos p)).
Qed.

End strings.

(** ** Ports *)

Section ports.

Lemma sortInts_head ports lowest rest :
  sortInts ports = lowest :: rest →
  lowest ∈ ports ∧ ∀ n, n ∈ ports → (lowest ≤ n)%Z.
Proof.
  intros Hs.
  pose proof (StronglySorted_merge_sort Z.le ports) as Hsorted.
  pose proof (merge_sort_Permutation Z.le ports) as Hperm.
  unfold sortInts in Hs. rewrite Hs in Hsorted, Hperm.
  split.
  - rewrite <-Hperm. left.
  - intros n Hn. rewrite <-Hperm in Hn.
    apply StronglySorted_inv in Hsorted as [_ Hall].
    apply elem_of_cons in Hn as [->|Hn]; [lia|].
    by eapply Forall_forall in Hall.
Qed.

Lemma sortInts_nil ports : sortInts ports = [] → ports = [].
Proof.
  intros Hs. pose proof (merge_sort_Permutation Z.le ports) as Hperm.
  unfold sortInts in Hs. rewrite Hs in Hperm. by apply Permutation_nil_l in Hperm.
Qed.

(** [getLowestExposedPort] prints the lowest positive port number. *)
Lemma getLowestExposedPort_lowest m exposedPorts :
  lowest_port m exposedPorts → getLowestExposedPort exposedPorts = Itoa m.
Proof.
  intros (Hpos & Hin & Hlow). unfold getLowestExposedPort.
  destruct exposedPorts as [|p ps]; [by apply elem_of_nil in Hin|].
  cbn [length Nat.eqb].
  set (ports := filter _ _).
  assert (m ∈ ports) as Hm by (by apply list_elem_of_filter).
  destruct ports as [|q qs] eqn:Hports; [by apply elem_of_nil in Hm|].
  cbn [length Nat.eqb]. rewrite <-Hports.
  destruct (sortInts ports) as [|lowest rest] eqn:Hs.
  { apply sortInts_nil in Hs. congruence. }
  apply sortInts_head in Hs as [Hl Hle]. f_equal.
  rewrite Hports in Hle. specialize (Hle m Hm).
  subst ports. rewrite Hports in Hl. rewrite <-Hports in Hl.
  apply list_elem_of_filter in Hl as [Hl0 Hl]. specialize (Hlow _ Hl Hl0). lia.
Qed.

(** Without a positive port number there is nothing to detect. *)
Lemma getLowestExposedPort_none exposedPorts :
  (∀ n, n ∈ Port_Int <$> exposedPorts → (n ≤ 0)%Z) →
  getLowestExposedPort exposedPorts = "".
Proof.
  intros Hnone. unfold getLowestExposedPort.
  destruct (length exposedPorts =? 0)%nat; [done|].
  destruct (filter _ _) as [|q qs] eqn:Hports; [done|].
  assert (q ∈ filter (λ portNum, 0 < portNum)%Z (Port_Int <$> exposedPorts)) as Hq
    by (rewrite Hports; left).
  apply list_elem_of_filter in Hq as [Hq0 Hq]. specialize (Hnone _ Hq). lia.
Qed.

(** The order in which the port set is visited does not matter. *)
Lemma getLowestExposedPort_Permutation ps qs :
  ps ≡ₚ qs → getLowestExposedPort ps = getLowestExposedPort qs.
Proof.
  intros Hperm. unfold getLowestExposedPort.
  rewrite (Permutation_length Hperm).
  destruct (length qs =? 0)%nat; [done|].
  assert (filter (λ portNum, 0 < portNum)%Z (Port_Int <$> ps)
          ≡ₚ filter (λ portNum, 0 < portNum)%Z (Port_Int <$> qs)) as Hf
    by (by rewrite Hperm).
  rewrite (Permutation_length Hf).
  destruct (length _ =? 0)%nat; [done|].
  assert (sortInts (filter (λ portNum, 0 < portNum)%Z (Port_Int <$> ps))
          = sortInts (filter (λ portNum, 0 < portNum)%Z (Port_Int <$> qs))) as ->; [|done].
  unfold sortInts.
  apply (Sorted_unique Z.le); try apply Sorted_merge_sort; try apply _.
  by rewrite !merge_sort_Permutation.
Qed.

Example getLowestExposedPort_80_8080 :
  getLowestExposedPort ["8080/tcp"; "80/tcp"] = "80".
Proof. vm_compute. reflexivity. Qed.

Example Port_Int_examples :
  Port_Int "8080/tcp" = 8080%Z ∧ Port_Int "53/udp" = 53%Z ∧ Port_Int "443" = 443%Z ∧
  Port_Int "8000-8010/tcp" = 0%Z ∧ Port_Int "/tcp" = 0%Z ∧ Port_Int "70000/tcp" = 0%Z.
Proof. vm_compute. done. Qed.

End ports.

(** ** Label resolution *)

Section resolution.

Variables (network containerID : string) (inspect : Inspect).

Lemma resolveLabels_not_enabled :
  ¬ enabled inspect → resolveLabels network containerID inspect = Some NotEnabled.
Proof.
  intros Hne. unfold resolveLabels.
  destruct (Labels inspect !! labelEnabled) as [v|] eqn:Hv; [|done].
  rewrite ToLower_true.
  destruct (EqualFold v "true") eqn:Hf; [|done].
  destruct Hne. by exists v.
Qed.

(** What [handleContainer] computes for an enabled container, once the
    port is known. *)
Lemma resolveLabels_eligible port :
  enabled inspect →
  (12 ≤ String.length containerID)%nat →
  port ≠ "" →
  port = (if String.eqb (index (Labels inspect) labelPort) ""
          then getLowestExposedPort (ExposedPorts inspect)
          else index (Labels inspect) labelPort) →
  ∃ logs,
    resolveLabels network containerID inspect =
    Some (Eligible
      {| r_containerName := TrimPrefix (Name inspect) "/";
         r_port := port;
         r_nodeName := if String.eqb (index (Labels inspect) labelNodeName) ""
                       then TrimPrefix (Name inspect) "/"
                       else index (Labels inspect) labelNodeName;
         r_protocol := if String.eqb (index (Labels inspect) labelProtocol) ""
                       then defaultProtocol
                       else index (Labels inspect) labelProtocol;
         r_passHostHeader :=
           parseBoolLabel (index (Labels inspect) labelPassHostHeader) false;
         r_trustForwardHeader :=
           parseBoolLabel (index (Labels inspect) labelTrustForwardHeader) false;
         r_target :=
           (if String.eqb (index (Labels inspect) labelProtocol) ""
            then defaultProtocol else index (Labels inspect) labelProtocol)
           +:+ "://" +:+ TrimPrefix (Name inspect) "/" +:+ "." +:+ network
           +:+ ":" +:+ port |} logs).
Proof.
  intros (v & Hv & Hf) Hlen Hport Hdef. unfold resolveLabels.
  rewrite Hv, ToLower_true, Hf. cbn [negb].
  rewrite (slice_to_Some 12 containerID Hlen).
  destruct (String.eqb (index (Labels inspect) labelPort) "") eqn:Hp.
  - rewrite <-Hdef.
    destruct (String.eqb_spec port ""); [done|]. cbn.
    destruct (String.eqb (index (Labels inspect) labelNodeName) ""); cbn; by eexists.
  - rewrite <-Hdef. cbn.
    destruct (String.eqb (index (Labels inspect) labelNodeName) ""); cbn; by eexists.
Qed.

(** An enabled container without a port: the no-port outcome. *)
Lemma resolveLabels_no_port :
  enabled inspect →
  (12 ≤ String.length containerID)%nat →
  index (Labels inspect) labelPort = "" →
  getLowestExposedPort (ExposedPorts inspect) = "" →
  resolveLabels network containerID inspect =
  Some (NoPort [LogNoPort (substring 0 12 containerID)]).
Proof.
  intros (v & Hv & Hf) Hlen Hp Hnone. unfold resolveLabels.
  rewrite Hv, ToLower_true, Hf, Hp, Hnone. cbn [negb].
  by rewrite (slice_to_Some 12 containerID Hlen).
Qed.

(** The fields of an eligible resolution, read back from the code. *)
Lemma resolveLabels_inv r logs :
  resolveLabels network containerID inspect = Some (Eligible r logs) →
  enabled inspect ∧
  r_containerName r = TrimPrefix (Name inspect) "/" ∧
  r_port r = (if String.eqb (index (Labels inspect) labelPort) ""
              then getLowestExposedPort (ExposedPorts inspect)
              else index (Labels inspect) labelPort) ∧
  r_port r ≠ "" ∧
  r_nodeName r = (if String.eqb (index (Labels inspect) labelNodeName) ""
                  then TrimPrefix (Name inspect) "/"
                  else index (Labels inspect) labelNodeName) ∧
  r_protocol r = (if String.eqb (index (Labels inspect) labelProtocol) ""
                  then defaultProtocol
                  else index (Labels inspect) labelProtocol) ∧
  r_passHostHeader r = parseBoolLabel (index (Labels inspect) labelPassHostHeader) false ∧
  r_trustForwardHeader r
    = parseBoolLabel (index (Labels inspect) labelTrustForwardHeader) false ∧
  r_target r = r_protocol r +:+ "://" +:+ r_containerName r +:+ "." +:+ network
               +:+ ":" +:+ r_port r.
Proof.
  unfold resolveLabels.
  destruct (Labels inspect !! labelEnabled) as [v|] eqn:Hv; [|done].
  rewrite ToLower_true.
  destruct (EqualFold v "true") eqn:Hf; [|done]. cbn [negb].
  intros Hres. split; [by exists v|].
  destruct (String.eqb_spec (index (Labels inspect) labelPort) "") as [Hp|Hp].
  - destruct (String.eqb_spec (getLowestExposedPort (ExposedPorts inspect)) "") as [Hd|Hd];
      destruct (slice_to 12 containerID); try done; cbn in Hres.
    destruct (String.eqb (index (Labels inspect) labelNodeName) "");
      cbn in Hres; by simplify_eq.
  - cbn in Hres.
    destruct (String.eqb (index (Labels inspect) labelNodeName) "");
      [destruct (slice_to 12 containerID); [|done]|]; cbn in Hres; by simplify_eq.
Qed.

End resolution.

Section resolution_labels.

(** The resolution reads the labels through the presence test of the
    enablement label and through one-value reads only. *)
Lemma resolveLabels_ext network containerID inspect labels1 labels2 :
  labels1 !! labelEnabled = labels2 !! labelEnabled →
  (∀ k, index labels1 k = index labels2 k) →
  resolveLabels network containerID (with_labels labels1 inspect)
  = resolveLabels network containerID (with_labels labels2 inspect).
Proof.
  intros He Hi. unfold resolveLabels. cbn [Labels Name ExposedPorts with_labels].
  rewrite He. by rewrite !Hi.
Qed.

Lemma index_insert_empty (labels : gmap string string) k k' :
  index (<[k := ""]> labels) k' = index (delete k labels) k'.
Proof.
  unfold index. destruct (decide (k = k')) as [->|Hne].
  - by rewrite lookup_insert_eq, lookup_delete_eq.
  - by rewrite lookup_insert_ne, lookup_delete_ne.
Qed.

Lemma resolveLabels_empty_label network containerID inspect k :
  k ≠ labelEnabled →
  resolveLabels network containerID (with_labels (<[k := ""]> (Labels inspect)) inspect)
  = resolveLabels network containerID (with_labels (delete k (Labels inspect)) inspect).
Proof.
  intros Hk. apply resolveLabels_ext.
  - by rewrite lookup_insert_ne, lookup_delete_ne.
  - intros k'. apply index_insert_empty.
Qed.

Lemma handleContainer_not_enabled w containerID inspect :
  ¬ enabled inspect →
  handleContainer w containerID (inl inspect)
  = Some {| h_dw := w; h_err := None; h_go := None |}.
Proof.
  intros Hne. unfold handleContainer.
  by rewrite (resolveLabels_not_enabled _ _ _ Hne).
Qed.

Lemma parseBoolLabel_false v :
  v ∉ ["1"; "t"; "T"; "true"; "TRUE"; "True"] → parseBoolLabel v false = false.
Proof.
  intros Hv. unfold parseBoolLabel, ParseBool.
  destruct (String.eqb v ""); [done|].
  case_bool_decide; [done|].
  by case_bool_decide.
Qed.

End resolution_labels.

(** ** The claims on label resolution *)

(** C3. A container whose [webtail.enabled] label is absent, or has a
    value that is not case-insensitively equal to "true", is not eligible,
    whatever its other labels, its name, its ports and its identity: the
    resolution stops at the enablement test (no log line, no slice of the
    identity, no port or name evaluated), and [handleContainer] returns
    [nil] and leaves the watcher as it was, starting no goroutine. *)
Theorem C3_not_enabled_not_eligible network containerID inspect w :
  (Labels inspect !! labelEnabled = None ∨
   ∃ v, Labels inspect !! labelEnabled = Some v ∧ EqualFold v "true" = false) →
  resolveLabels network containerID inspect = Some NotEnabled ∧
  handleContainer w containerID (inl inspect)
  = Some {| h_dw := w; h_err := None; h_go := None |}.
Proof.
  intros Hoff.
  assert (¬ enabled inspect) as Hne.
  { intros (v & Hv & Hf). destruct Hoff as [Hnone|(v' & Hv' & Hf')]; congruence. }
  split; [by apply resolveLabels_not_enabled|by apply handleContainer_not_enabled].
Qed.

Lemma C3_not_enabled_witness :
  let inspect := {| Name := "/app";
                    Labels := {[ labelEnabled := "yes"; labelPort := "80";
                                 labelNodeName := "app" ]};
                    ExposedPorts := ["80/tcp"] |} in
  resolveLabels "net" "short" inspect = Some NotEnabled ∧
  handleContainer (dw (init "net")) "short" (inl inspect)
  = Some {| h_dw := dw (init "net"); h_err := None; h_go := None |}.
Proof.
  intros inspect. apply (C3_not_enabled_not_eligible "net" "short" inspect).
  right. exists "yes". split; reflexivity.
Defined.

(** C4. For an enabled container: a non-empty [webtail.port] label is the
    port; without the label the port is the numerically lowest positive
    port number among the exposed ports, in whatever order the port set is
    visited (80 for the ports 80 and 8080); without the label and without
    exposed ports the outcome is the no-port one, told apart from "not
    enabled" by its log line, and [handleContainer] returns [nil], not an
    error, and starts nothing. *)
Theorem C4_port_resolution network containerID inspect :
  enabled inspect →
  (12 ≤ String.length containerID)%nat →
  (∀ p, Labels inspect !! labelPort = Some p → p ≠ "" →
     ∃ r logs, resolveLabels network containerID inspect = Some (Eligible r logs)
               ∧ r_port r = p) ∧
  (Labels inspect !! labelPort = None →
     ∀ m, lowest_port m (ExposedPorts inspect) →
     ∃ r logs, resolveLabels network containerID inspect = Some (Eligible r logs)
               ∧ r_port r = Itoa m) ∧
  (Labels inspect !! labelPort = None →
     ExposedPorts inspect ≡ₚ ["80/tcp"; "8080/tcp"] →
     ∃ r logs, resolveLabels network containerID inspect = Some (Eligible r logs)
               ∧ r_port r = "80") ∧
  (Labels inspect !! labelPort = None →
     ExposedPorts inspect = [] →
     resolveLabels network containerID inspect
     = Some (NoPort [LogNoPort (substring 0 12 containerID)]) ∧
     ∀ w, dockerNetwork w = network →
          handleContainer w containerID (inl inspect)
          = Some {| h_dw := emit [Log (LogNoPort (substring 0 12 containerID))] w;
                    h_err := None; h_go := None |}).
Proof.
  intros Hen Hlen.
  assert (∀ port, port ≠ "" →
            port = (if String.eqb (index (Labels inspect) labelPort) ""
                    then getLowestExposedPort (ExposedPorts inspect)
                    else index (Labels inspect) labelPort) →
            ∃ r logs, resolveLabels network containerID inspect = Some (Eligible r logs)
                      ∧ r_port r = port) as Hgo.
  { intros port Hne Hdef.
    destruct (resolveLabels_eligible network containerID inspect port Hen Hlen Hne Hdef)
      as [logs ->].
    by eexists _, _. }
  split; [|split; [|split]].
  - intros p Hp Hne. apply Hgo; [done|]. unfold index. rewrite Hp. cbn.
    by destruct (String.eqb_spec p "").
  - intros Hp m Hm. apply Hgo; [apply Itoa_nonempty|].
    unfold index. rewrite Hp. cbn. by rewrite (getLowestExposedPort_lowest m).
  - intros Hp Hperm. apply Hgo; [done|].
    unfold index. rewrite Hp. cbn.
    by rewrite (getLowestExposedPort_Permutation _ _ Hperm).
  - intros Hp Hnil.
    assert (index (Labels inspect) labelPort = "") as Hi by (unfold index; by rewrite Hp).
    assert (getLowestExposedPort (ExposedPorts inspect) = "") as Hd by (by rewrite Hnil).
    split; [by apply resolveLabels_no_port|].
    intros w <-. unfold handleContainer.
    by rewrite (resolveLabels_no_port (dockerNetwork w) containerID inspect Hen Hlen Hi Hd).
Qed.

Lemma C4_port_resolution_witness :
  let inspect := {| Name := "/web"; Labels := {[ labelEnabled := "true" ]};
                    ExposedPorts := ["8080/tcp"; "80/tcp"] |} in
  ∃ r logs, resolveLabels "net" "0123456789abcdef" inspect = Some (Eligible r logs)
            ∧ r_port r = Itoa 80.
Proof.
  intros inspect.
  assert (enabled inspect) as Hen by (exists "true"; split; reflexivity).
  assert (12 ≤ String.length "0123456789abcdef")%nat as Hlen by (cbn; lia).
  apply (proj1 (proj2 (C4_port_resolution "net" "0123456789abcdef" inspect Hen Hlen))).
  - reflexivity.
  - split; [lia|]. split.
    + right. left.
    + intros n Hn Hpos.
      apply elem_of_cons in Hn as [->|Hn]; [vm_compute; discriminate|].
      apply list_elem_of_singleton in Hn as ->. vm_compute; discriminate.
Defined.

(** The configuration that [handleContainer] hands to [NewProxy] is the
    resolved one. *)
Lemma handleContainer_eligible w containerID inspect r logs :
  resolveLabels (dockerNetwork w) containerID inspect = Some (Eligible r logs) →
  (12 ≤ String.length containerID)%nat →
  proxies w !! containerID = None →
  handleContainer w containerID (inl inspect)
  = Some {| h_dw :=
              set_wg (S (wg w))
                (NewProxy {| Target := r_target r; NodeName := r_nodeName r;
                             PassHostHeader := Some (r_passHostHeader r);
                             TrustForwardHeader := Some (r_trustForwardHeader r) |}
                   (emit [Log (LogEnabled (substring 0 12 containerID)
                                 (r_nodeName r) (r_target r))]
                      (emit (Log <$> logs) w))).2;
            h_err := None;
            h_go := Some {| t_containerID := containerID; t_nodeName := r_nodeName r;
                            t_proxy := Some (length (made w)); t_pc := TaskStart |} |}.
Proof.
  intros Hres Hlen Hfree. unfold handleContainer. rewrite Hres. cbn.
  rewrite Hfree. by rewrite (slice_to_Some 12 containerID Hlen).
Qed.

(** C5. When a container resolves as eligible, the target is
    scheme://containerName.network:port, the container name is the
    inspected name without its leading slash (a name without one is kept),
    and the node name, when the label gives none, is that container name;
    this is the configuration the proxy is made from.  For the metadata
    enabled "true", no protocol, no port label, exposed port 8080, name
    "app", network "net": target http://app.net:8080, node name app, both
    forwarding flags false. *)
Theorem C5_routing_derivation network containerID inspect r logs :
  resolveLabels network containerID inspect = Some (Eligible r logs) →
  (12 ≤ String.length containerID)%nat →
  r_target r = r_protocol r +:+ "://" +:+ r_containerName r +:+ "." +:+ network
               +:+ ":" +:+ r_port r ∧
  r_containerName r = TrimPrefix (Name inspect) "/" ∧
  (∀ rest, Name inspect = "/" +:+ rest → r_containerName r = rest) ∧
  (cutPrefix (Name inspect) "/" = None → r_containerName r = Name inspect) ∧
  (index (Labels inspect) labelNodeName = "" → r_nodeName r = r_containerName r) ∧
  (∀ w, dockerNetwork w = network → proxies w !! containerID = None →
     ∃ h, handleContainer w containerID (inl inspect) = Some h ∧
          made (h_dw h) = made w ++ [{| Target := r_target r; NodeName := r_nodeName r;
                                        PassHostHeader := Some (r_passHostHeader r);
                                        TrustForwardHeader := Some (r_trustForwardHeader r) |}]) ∧
  (Name inspect = "app" → Labels inspect = {[ labelEnabled := "true" ]} →
   ExposedPorts inspect = ["8080/tcp"] → network = "net" →
   r_target r = "http://app.net:8080" ∧ r_nodeName r = "app" ∧
   r_passHostHeader r = false ∧ r_trustForwardHeader r = false).
Proof.
  intros Hres Hlen.
  destruct (resolveLabels_inv _ _ _ _ _ Hres)
    as (Hen & Hname & Hport & Hport' & Hnode & Hproto & Hpass & Htrust & Htarget).
  split; [done|]. split; [done|]. split; [|split; [|split; [|split]]].
  - intros rest Hrest. by rewrite Hname, Hrest.
  - intros Hno. rewrite Hname. by apply TrimPrefix_no_slash.
  - intros Hnone. by rewrite Hnode, Hnone, Hname.
  - intros w <- Hfree. eexists. split.
    + by apply handleContainer_eligible.
    + done.
  - intros HN HL HE ->.
    rewrite Htarget, Hproto, Hname, Hport, Hnode, Hpass, Htrust, HN, HL, HE.
    by vm_compute.
Qed.

Lemma C5_routing_derivation_witness :
  ∃ r logs,
    resolveLabels "net" "0123456789abcdef"
      {| Name := "app"; Labels := {[ labelEnabled := "true" ]};
         ExposedPorts := ["8080/tcp"] |} = Some (Eligible r logs) ∧
    r_target r = "http://app.net:8080" ∧ r_nodeName r = "app" ∧
    r_passHostHeader r = false ∧ r_trustForwardHeader r = false.
Proof.
  eexists _, _. split; [reflexivity|].
  refine (proj2 (proj2 (proj2 (proj2 (proj2 (proj2
    (C5_routing_derivation "net" "0123456789abcdef"
       {| Name := "app"; Labels := {[ labelEnabled := "true" ]};
          ExposedPorts := ["8080/tcp"] |} _ _ eq_refl _))))))
    eq_refl eq_refl eq_refl eq_refl).
  cbn. lia.
Defined.

Example resolve_my_app :
  ∃ r logs,
    resolveLabels "net" "0123456789abcdef"
      {| Name := "/my-app"; Labels := {[ labelEnabled := "True"; labelPort := "9000" ]};
         ExposedPorts := [] |} = Some (Eligible r logs) ∧
    r_nodeName r = "my-app" ∧ r_target r = "http://my-app.net:9000".
Proof. eexists _, _. split; [reflexivity|]. split; reflexivity. Qed.

(** C6, as the code has it.  A forwarding flag is false for every label
    value that [strconv.ParseBool] does not read as true, that is every
    value outside "1", "t", "T", "true", "TRUE", "True": the empty string,
    an absent label and every unparsable value give false, for
    [webtail.pass_host_header] and for [webtail.trust_forward_header]. *)
Theorem C6_flags_default_false network containerID inspect r logs :
  resolveLabels network containerID inspect = Some (Eligible r logs) →
  (∀ v, v ∉ ["1"; "t"; "T"; "true"; "TRUE"; "True"] → parseBoolLabel v false = false) ∧
  (index (Labels inspect) labelPassHostHeader ∉ ["1"; "t"; "T"; "true"; "TRUE"; "True"] →
   r_passHostHeader r = false) ∧
  (index (Labels inspect) labelTrustForwardHeader ∉ ["1"; "t"; "T"; "true"; "TRUE"; "True"] →
   r_trustForwardHeader r = false) ∧
  (Labels inspect !! labelPassHostHeader = None → r_passHostHeader r = false) ∧
  (Labels inspect !! labelTrustForwardHeader = None → r_trustForwardHeader r = false).
Proof.
  intros Hres.
  destruct (resolveLabels_inv _ _ _ _ _ Hres)
    as (_ & _ & _ & _ & _ & _ & Hpass & Htrust & _).
  split; [apply parseBoolLabel_false|].
  split; [|split; [|split]].
  - intros Hv. rewrite Hpass. by apply parseBoolLabel_false.
  - intros Hv. rewrite Htrust. by apply parseBoolLabel_false.
  - intros Hv. rewrite Hpass. unfold index. by rewrite Hv.
  - intros Hv. rewrite Htrust. unfold index. by rewrite Hv.
Qed.

Lemma C6_flags_default_false_witness :
  ∃ r logs,
    resolveLabels "net" "0123456789abcdef"
      {| Name := "/app";
         Labels := {[ labelEnabled := "true"; labelPort := "80";
                      labelPassHostHeader := "yes" ]};
         ExposedPorts := [] |} = Some (Eligible r logs) ∧
    r_passHostHeader r = false ∧ r_trustForwardHeader r = false.
Proof.
  eexists _, _. split; [reflexivity|]. split.
  - refine (proj1 (proj2 (C6_flags_default_false "net" "0123456789abcdef"
      {| Name := "/app";
         Labels := {[ labelEnabled := "true"; labelPort := "80";
                      labelPassHostHeader := "yes" ]};
         ExposedPorts := [] |} _ _ eq_refl)) _).
    intros Hin. repeat (apply elem_of_cons in Hin as [Hin|Hin]; [discriminate Hin|]).
    by apply elem_of_nil in Hin.
  - refine (proj2 (proj2 (proj2 (proj2
      (C6_flags_default_false "net" "0123456789abcdef"
         {| Name := "/app";
         Labels := {[ labelEnabled := "true"; labelPort := "80";
                      labelPassHostHeader := "yes" ]};
         ExposedPorts := [] |} _ _ eq_refl)))) _).
    reflexivity.
Defined.

(** C6, as the claim has it, fails: the value "1" is neither "true" nor
    "false", and the flag it sets is true. *)
Lemma C6_flag_one_counterexample :
  ¬ (∀ v, v ∉ ["true"; "false"] → parseBoolLabel v false = false) ∧
  ∃ r logs,
    resolveLabels "net" "0123456789abcdef"
      {| Name := "/app";
         Labels := {[ labelEnabled := "true"; labelPort := "80";
                      labelTrustForwardHeader := "1" ]};
         ExposedPorts := [] |} = Some (Eligible r logs) ∧
    r_trustForwardHeader r = true.
Proof.
  split.
  - intros Hall. specialize (Hall "1"). cbv in Hall.
    discriminate Hall. intros Hin.
    repeat (apply elem_of_cons in Hin as [Hin|Hin]; [discriminate Hin|]).
    by apply elem_of_nil in Hin.
  - eexists _, _. split; reflexivity.
Qed.

(** An enabled container has a port when its port label is set and not
    empty, or when one of its exposed ports has a number above zero. *)
Lemma resolved_port_nonempty inspect :
  (∃ p, Labels inspect !! labelPort = Some p ∧ p ≠ "") ∨
  (∃ m, lowest_port m (ExposedPorts inspect)) →
  (if String.eqb (index (Labels inspect) labelPort) ""
   then getLowestExposedPort (ExposedPorts inspect)
   else index (Labels inspect) labelPort) ≠ "".
Proof.
  intros Hport.
  destruct (String.eqb_spec (index (Labels inspect) labelPort) "") as [He|He]; [|done].
  destruct Hport as [(p & Hp & Hne)|[m Hm]].
  - unfold index in He. rewrite Hp in He. done.
  - rewrite (getLowestExposedPort_lowest m _ Hm). apply Itoa_nonempty.
Qed.

(** C10. A label with the empty string as value resolves, and is handled,
    like the same labels without it, for every label but the enablement
    label, so for [webtail.port], [webtail.node_name] and
    [webtail.protocol]: an empty port label gives the port detected from
    the exposed ports, an empty node-name label gives the container name,
    an empty protocol label gives http.  The enablement label is the one
    read with a presence test, and its empty value is not eligible.  The
    fallbacks are what the code produces: an enabled container with an
    empty port label and a lowest exposed port is eligible, with that
    port; an enabled container that has a port and an empty node-name
    label is eligible, with its container name as node name; with an
    empty protocol label it is eligible, with the protocol http and a
    target that starts with it.  [handleContainer] then makes the proxy
    with these values and starts its goroutine. *)
Theorem C10_empty_label_as_absent network containerID inspect :
  (∀ k, k ∈ [labelPort; labelNodeName; labelProtocol] ∨ k ≠ labelEnabled →
     resolveLabels network containerID (with_labels (<[k := ""]> (Labels inspect)) inspect)
     = resolveLabels network containerID (with_labels (delete k (Labels inspect)) inspect)
     ∧ ∀ w, handleContainer w containerID
              (inl (with_labels (<[k := ""]> (Labels inspect)) inspect))
            = handleContainer w containerID
                (inl (with_labels (delete k (Labels inspect)) inspect))) ∧
  (∀ r logs, resolveLabels network containerID inspect = Some (Eligible r logs) →
     (Labels inspect !! labelPort = Some "" →
      r_port r = getLowestExposedPort (ExposedPorts inspect)) ∧
     (Labels inspect !! labelNodeName = Some "" →
      r_nodeName r = TrimPrefix (Name inspect) "/") ∧
     (Labels inspect !! labelProtocol = Some "" → r_protocol r = "http")) ∧
  (Labels inspect !! labelEnabled = Some "" →
   resolveLabels network containerID inspect = Some NotEnabled) ∧
  (enabled inspect → (12 ≤ String.length containerID)%nat →
   (Labels inspect !! labelPort = Some "" →
    ∀ m, lowest_port m (ExposedPorts inspect) →
    ∃ r logs, resolveLabels network containerID inspect = Some (Eligible r logs) ∧
              r_port r = Itoa m) ∧
   (Labels inspect !! labelNodeName = Some "" →
    (∃ p, Labels inspect !! labelPort = Some p ∧ p ≠ "") ∨
    (∃ m, lowest_port m (ExposedPorts inspect)) →
    ∃ r logs, resolveLabels network containerID inspect = Some (Eligible r logs) ∧
              r_nodeName r = TrimPrefix (Name inspect) "/") ∧
   (Labels inspect !! labelProtocol = Some "" →
    (∃ p, Labels inspect !! labelPort = Some p ∧ p ≠ "") ∨
    (∃ m, lowest_port m (ExposedPorts inspect)) →
    ∃ r logs, resolveLabels network containerID inspect = Some (Eligible r logs) ∧
              r_protocol r = "http" ∧
              r_target r = "http://" +:+ TrimPrefix (Name inspect) "/" +:+ "."
                           +:+ network +:+ ":" +:+ r_port r)) ∧
  (enabled inspect → (12 ≤ String.length containerID)%nat →
   (∃ p, Labels inspect !! labelPort = Some p ∧ p ≠ "") ∨
   (∃ m, lowest_port m (ExposedPorts inspect)) →
   ∀ w, dockerNetwork w = network → proxies w !! containerID = None →
   ∃ r logs h,
     resolveLabels network containerID inspect = Some (Eligible r logs) ∧
     handleContainer w containerID (inl inspect) = Some h ∧
     h_err h = None ∧
     h_go h = Some {| t_containerID := containerID; t_nodeName := r_nodeName r;
                      t_proxy := Some (length (made w)); t_pc := TaskStart |} ∧
     made (h_dw h)
     = made w ++ [{| Target := r_target r; NodeName := r_nodeName r;
                     PassHostHeader := Some (r_passHostHeader r);
                     TrustForwardHeader := Some (r_trustForwardHeader r) |}] ∧
     (Labels inspect !! labelPort = Some "" →
      r_port r = getLowestExposedPort (ExposedPorts inspect)) ∧
     (Labels inspect !! labelNodeName = Some "" →
      r_nodeName r = TrimPrefix (Name inspect) "/") ∧
     (Labels inspect !! labelProtocol = Some "" → r_protocol r = "http")).
Proof.
  assert (∀ r logs, resolveLabels network containerID inspect = Some (Eligible r logs) →
     (Labels inspect !! labelPort = Some "" →
      r_port r = getLowestExposedPort (ExposedPorts inspect)) ∧
     (Labels inspect !! labelNodeName = Some "" →
      r_nodeName r = TrimPrefix (Name inspect) "/") ∧
     (Labels inspect !! labelProtocol = Some "" → r_protocol r = "http")) as Hfields.
  { intros r logs Hres.
    destruct (resolveLabels_inv _ _ _ _ _ Hres)
      as (_ & _ & Hport & _ & Hnode & Hproto & _).
    unfold index in Hport, Hnode, Hproto.
    split; [|split]; intros Hk; rewrite Hk in *; done. }
  split; [|split; [|split; [|split]]].
  - intros k Hk.
    assert (k ≠ labelEnabled) as Hne.
    { destruct Hk as [Hk|Hk]; [|done].
      intros ->. repeat (apply elem_of_cons in Hk as [Hk|Hk]; [discriminate Hk|]).
      by apply elem_of_nil in Hk. }
    split; [by apply resolveLabels_empty_label|].
    intros w. unfold handleContainer. by rewrite resolveLabels_empty_label.
  - done.
  - intros Hk. apply resolveLabels_not_enabled. intros (v & Hv & Hf).
    rewrite Hk in Hv. by simplify_eq.
  - intros Hen Hlen.
    assert (∀ port, port ≠ "" →
              port = (if String.eqb (index (Labels inspect) labelPort) ""
                      then getLowestExposedPort (ExposedPorts inspect)
                      else index (Labels inspect) labelPort) →
              ∃ r logs, resolveLabels network containerID inspect = Some (Eligible r logs) ∧
                r_port r = port ∧
                r_nodeName r = (if String.eqb (index (Labels inspect) labelNodeName) ""
                                then TrimPrefix (Name inspect) "/"
                                else index (Labels inspect) labelNodeName) ∧
                r_protocol r = (if String.eqb (index (Labels inspect) labelProtocol) ""
                                then defaultProtocol
                                else index (Labels inspect) labelProtocol) ∧
                r_target r = r_protocol r +:+ "://" +:+ TrimPrefix (Name inspect) "/"
                             +:+ "." +:+ network +:+ ":" +:+ r_port r) as Hgo.
    { intros port Hne Hdef.
      destruct (resolveLabels_eligible network containerID inspect port Hen Hlen Hne Hdef)
        as [logs Hres].
      eexists _, logs. split; [exact Hres|]. by cbn. }
    split; [|split].
    + intros Hk m Hm.
      destruct (Hgo (Itoa m)) as (r & logs & Hres & Hport & _).
      { apply Itoa_nonempty. }
      { unfold index. rewrite Hk. cbn. by rewrite (getLowestExposedPort_lowest m). }
      by exists r, logs.
    + intros Hk Hport.
      destruct (Hgo _ (resolved_port_nonempty inspect Hport) eq_refl)
        as (r & logs & Hres & _ & Hnode & _).
      exists r, logs. split; [done|]. rewrite Hnode. unfold index. by rewrite Hk.
    + intros Hk Hport.
      destruct (Hgo _ (resolved_port_nonempty inspect Hport) eq_refl)
        as (r & logs & Hres & _ & _ & Hproto & Htarget).
      assert (r_protocol r = "http") as Hhttp.
      { rewrite Hproto. unfold index. by rewrite Hk. }
      exists r, logs. split; [done|]. split; [done|]. by rewrite Htarget, Hhttp.
  - intros Hen Hlen Hport w Hnet Hfree. subst network.
    destruct (resolveLabels_eligible (dockerNetwork w) containerID inspect _ Hen Hlen
                (resolved_port_nonempty inspect Hport) eq_refl) as [logs Hres].
    pose proof (handleContainer_eligible w containerID inspect _ logs Hres Hlen Hfree) as Hh.
    eexists; exists logs; eexists. split; [exact Hres|]. split; [exact Hh|].
    split; [done|]. split; [done|]. split; [reflexivity|]. by apply (Hfields _ logs).
Qed.

Lemma C10_empty_label_as_absent_witness :
  let inspect := {| Name := "/app";
                    Labels := {[ labelEnabled := "true"; labelPort := "";
                                 labelNodeName := ""; labelProtocol := "" ]};
                    ExposedPorts := ["8080/tcp"] |} in
  resolveLabels "net" "0123456789abcdef"
    (with_labels (<[labelPort := ""]> (Labels inspect)) inspect)
  = resolveLabels "net" "0123456789abcdef"
      (with_labels (delete labelPort (Labels inspect)) inspect)
  ∧ (∀ r logs, resolveLabels "net" "0123456789abcdef" inspect = Some (Eligible r logs) →
       r_port r = "8080")
  ∧ (∃ r logs, resolveLabels "net" "0123456789abcdef" inspect = Some (Eligible r logs) ∧
               r_port r = "8080")
  ∧ (∃ r logs, resolveLabels "net" "0123456789abcdef" inspect = Some (Eligible r logs) ∧
               r_nodeName r = "app")
  ∧ (∃ r logs, resolveLabels "net" "0123456789abcdef" inspect = Some (Eligible r logs) ∧
               r_protocol r = "http" ∧ r_target r = "http://app.net:" +:+ r_port r)
  ∧ (∃ h, handleContainer (dw (init "net")) "0123456789abcdef" (inl inspect) = Some h ∧
          made (h_dw h) = [{| Target := "http://app.net:8080"; NodeName := "app";
                              PassHostHeader := Some false;
                              TrustForwardHeader := Some false |}]).
Proof.
  intros inspect.
  pose proof (C10_empty_label_as_absent "net" "0123456789abcdef" inspect)
    as (Hsame & Hempty & _ & Hfallback & Hhandled).
  assert (enabled inspect) as Hen by (exists "true"; split; reflexivity).
  assert (12 ≤ String.length "0123456789abcdef")%nat as Hlen by (cbn; lia).
  assert (lowest_port 8080 (ExposedPorts inspect)) as Hlow.
  { split; [lia|]. split; [left|].
    intros n Hn _. apply list_elem_of_singleton in Hn as ->. vm_compute. discriminate. }
  destruct (Hfallback Hen Hlen) as (Hport & Hnode & Hproto).
  split; [apply (Hsame labelPort); left; left|].
  split; [intros r logs Hres; apply (proj1 (Hempty r logs Hres)); reflexivity|].
  split; [exact (Hport eq_refl 8080%Z Hlow)|].
  split; [exact (Hnode eq_refl (or_intror (ex_intro _ 8080%Z Hlow)))|].
  split; [exact (Hproto eq_refl (or_intror (ex_intro _ 8080%Z Hlow)))|].
  destruct (Hhandled Hen Hlen (or_intror (ex_intro _ 8080%Z Hlow)) (dw (init "net"))
              eq_refl eq_refl) as (r & logs & h & Hres & Hh & _ & _ & Hmade & _).
  exists h. split; [exact Hh|]. rewrite Hmade.
  assert (Some (Eligible r logs)
          = Some (Eligible {| r_containerName := "app"; r_port := "8080";
                              r_nodeName := "app"; r_protocol := "http";
                              r_passHostHeader := false; r_trustForwardHeader := false;
                              r_target := "http://app.net:8080" |}
                           [LogAutoPort "0123456789ab" "8080";
                            LogNodeName "0123456789ab" "app"])) as Heq.
  { rewrite <-Hres. vm_compute. reflexivity. }
  injection Heq as -> _. reflexivity.
Defined.

(** ** The invariant *)

Section invariant.

Implicit Types (ts : list Task) (reg : gmap string ProxyPtr)
  (st : list (ProxyPtr * option string)) (t : Task).

Lemma pending_app ts1 ts2 : pending (ts1 ++ ts2) = pending ts1 ++ pending ts2.
Proof. unfold pending. by rewrite filter_app, fmap_app. Qed.

Lemma pending_delete_starting ts i t :
  ts !! i = Some t → starting t → pending ts ≡ₚ t_proxy t :: pending (delete i ts).
Proof.
  intros Hi Ht. unfold pending.
  rewrite (delete_Permutation ts i t Hi) at 1.
  by rewrite filter_cons_True.
Qed.

Lemma pending_delete_watching ts i t :
  ts !! i = Some t → ¬ starting t → pending (delete i ts) ≡ₚ pending ts.
Proof.
  intros Hi Ht. unfold pending.
  rewrite (delete_Permutation ts i t Hi) at 2.
  by rewrite filter_cons_False.
Qed.

Lemma insert_Permutation ts i t t' :
  ts !! i = Some t → <[i := t']> ts ≡ₚ t' :: delete i ts.
Proof.
  intros Hi. rewrite insert_take_drop by (by eapply lookup_lt_Some).
  rewrite delete_take_drop. by rewrite Permutation_middle.
Qed.

Lemma pending_insert_watching ts i t t' :
  ts !! i = Some t → ¬ starting t' → pending (<[i := t']> ts) ≡ₚ pending (delete i ts).
Proof.
  intros Hi Ht. unfold pending.
  rewrite (insert_Permutation ts i t t' Hi). by rewrite filter_cons_False.
Qed.

Lemma Inv'_init : Inv' 0 0 [] ∅ 0 [].
Proof.
  split; cbn; try done; first [constructor|apply map_Forall_empty].
Qed.

(** [handleContainer] started a goroutine for a new proxy. *)
Lemma Inv'_spawn wgv live ts reg nmade st containerID nodeName :
  12 ≤ String.length containerID →
  Inv' wgv live ts reg nmade st →
  Inv' (S wgv) live
    (ts ++ [{| t_containerID := containerID; t_nodeName := nodeName;
               t_proxy := Some nmade; t_pc := TaskStart |}])
    reg (S nmade) st.
Proof.
  intros Hlen [Hwg Hids Hdist Hmade Hreg]. split.
  - rewrite length_app. cbn. lia.
  - apply Forall_app. split; [done|]. by constructor.
  - rewrite pending_app. cbn.
    rewrite <-(assoc_L (++)). rewrite (comm (++) [Some nmade]), (assoc_L (++)).
    apply NoDup_app. split; [done|]. split; [|apply NoDup_singleton].
    intros p Hp Hnew. apply list_elem_of_singleton in Hnew as ->.
    eapply Forall_forall in Hmade as (h & Heq & Hh); [|done]. simplify_eq. lia.
  - rewrite pending_app. cbn.
    rewrite <-(assoc_L (++)). rewrite (comm (++) [Some nmade]), (assoc_L (++)).
    apply Forall_app. split.
    + eapply Forall_impl; [done|]. intros p (h & -> & Hh). exists h. split; [done|lia].
    + constructor; [|done]. exists nmade. split; [done|lia].
  - done.
Qed.

(** [Start] started the loop. *)
Lemma Inv'_loop_on wgv ts reg nmade st :
  Inv' wgv 0 ts reg nmade st → Inv' (S wgv) 1 ts reg nmade st.
Proof. intros [Hwg ? ? ? ?]. split; try done. lia. Qed.

(** The loop returned. *)
Lemma Inv'_loop_off wgv ts reg nmade st :
  Inv' (S wgv) 1 ts reg nmade st → Inv' wgv 0 ts reg nmade st.
Proof. intros [Hwg ? ? ? ?]. split; try done. lia. Qed.

(** Entries left the registry. *)
Lemma Inv'_registry_subseteq wgv live ts reg reg' nmade st :
  reg' ⊆ reg → Inv' wgv live ts reg nmade st → Inv' wgv live ts reg' nmade st.
Proof.
  intros Hsub [? ? ? ? Hreg]. split; try done.
  intros containerID p Hp. apply (Hreg containerID p).
  by eapply lookup_weaken.
Qed.

(** [proxy.Start()] failed: the goroutine returned. *)
Lemma Inv'_start_failed wgv live ts reg nmade st i t e :
  ts !! i = Some t → starting t →
  Inv' (S wgv) live ts reg nmade st →
  Inv' wgv live (delete i ts) reg nmade (st ++ [(t_proxy t, Some e)]).
Proof.
  intros Hi Ht [Hwg Hids Hdist Hmade Hreg].
  assert (pending (delete i ts) ++ (st ++ [(t_proxy t, Some e)]).*1
          ≡ₚ pending ts ++ st.*1) as Hperm.
  { rewrite (pending_delete_starting ts i t Hi Ht), fmap_app. cbn.
    rewrite (comm (++) st.*1). cbn. by rewrite <-Permutation_middle. }
  split.
  - rewrite length_delete by eauto. apply lookup_lt_Some in Hi. lia.
  - by apply Forall_delete.
  - by rewrite Hperm.
  - by rewrite Hperm.
  - eapply map_Forall_impl; [done|]. intros containerID p [? ?]. split; [done|].
    apply elem_of_app. by left.
Qed.

(** [proxy.Start()] succeeded: the proxy is registered and watched. *)
Lemma Inv'_start_ok wgv live ts reg nmade st i t t' :
  ts !! i = Some t → starting t → ¬ starting t' →
  t_containerID t' = t_containerID t →
  Inv' wgv live ts reg nmade st →
  Inv' wgv live (<[i := t']> ts) (<[t_containerID t := t_proxy t]> reg) nmade
    (st ++ [(t_proxy t, None)]).
Proof.
  intros Hi Ht Ht' Hid [Hwg Hids Hdist Hmade Hreg].
  assert (12 ≤ String.length (t_containerID t)) as Hlen.
  { eapply Forall_forall in Hids; [done|]. by eapply list_elem_of_lookup_2. }
  assert (pending (<[i := t']> ts) ++ (st ++ [(t_proxy t, None)]).*1
          ≡ₚ pending ts ++ st.*1) as Hperm.
  { rewrite (pending_insert_watching ts i t t' Hi Ht').
    rewrite (pending_delete_starting ts i t Hi Ht), fmap_app. cbn.
    rewrite (comm (++) st.*1). cbn. by rewrite <-Permutation_middle. }
  split.
  - by rewrite length_insert.
  - apply Forall_insert; [done|]. by rewrite Hid.
  - by rewrite Hperm.
  - by rewrite Hperm.
  - apply map_Forall_insert_2.
    + split; [done|]. apply elem_of_app. right. left.
    + eapply map_Forall_impl; [done|]. intros containerID p [? ?]. split; [done|].
      apply elem_of_app. by left.
Qed.

(** A watching goroutine returned. *)
Lemma Inv'_watch_exit wgv live ts reg nmade st i t :
  ts !! i = Some t → ¬ starting t →
  Inv' (S wgv) live ts reg nmade st →
  Inv' wgv live (delete i ts) reg nmade st.
Proof.
  intros Hi Ht [Hwg Hids Hdist Hmade Hreg]. split.
  - rewrite length_delete by eauto. apply lookup_lt_Some in Hi. lia.
  - by apply Forall_delete.
  - by rewrite (pending_delete_watching ts i t Hi Ht).
  - by rewrite (pending_delete_watching ts i t Hi Ht).
  - done.
Qed.

Lemma starts_app tr es : starts (tr ++ es) = starts tr ++ starts es.
Proof. apply omap_app. Qed.

Lemma starts_logs logs : starts (Log <$> logs) = [].
Proof. by induction logs. Qed.

Lemma stops_app tr es : stops (tr ++ es) = stops tr ++ stops es.
Proof. apply omap_app. Qed.

Lemma stops_logs logs : stops (Log <$> logs) = [].
Proof. by induction logs. Qed.

Lemma emit_nil w : emit [] w = w.
Proof. destruct w. unfold emit. cbn. by rewrite app_nil_r. Qed.

Lemma emit_emit es1 es2 w : emit es2 (emit es1 w) = emit (es1 ++ es2) w.
Proof. unfold emit. cbn. by rewrite (assoc_L (++)). Qed.

Lemma slice_to_inv n s s' : slice_to n s = Some s' → n ≤ String.length s.
Proof. unfold slice_to. destruct (Nat.leb_spec n (String.length s)); [done|discriminate]. Qed.

Lemma wgDone_inv w w' : wgDone w = Some w' → ∃ n, wg w = S n ∧ w' = set_wg n w.
Proof. unfold wgDone. destruct (wg w) as [|n]; [done|]. intros [= <-]. by exists n. Qed.

(** What a call of [handleContainer] can do: print, or print, make a
    proxy and start its goroutine. *)
Lemma handleContainer_cases w containerID r h :
  handleContainer w containerID r = Some h →
  (h_go h = None ∧ ∃ logs, h_dw h = emit (Log <$> logs) w) ∨
  (12 ≤ String.length containerID ∧ proxies w !! containerID = None ∧ h_err h = None ∧
   ∃ cfg nodeName logs,
     h_go h = Some {| t_containerID := containerID; t_nodeName := nodeName;
                      t_proxy := Some (length (made w)); t_pc := TaskStart |} ∧
     h_dw h = set_wg (S (wg w)) (NewProxy cfg (emit (Log <$> logs) w)).2).
Proof.
  unfold handleContainer. destruct r as [inspect|err].
  - destruct (resolveLabels _ _ _) as [[|logs|r logs]|]; cbn; [| | |done].
    + intros [= <-]. left. split; [done|]. exists []. by rewrite emit_nil.
    + intros [= <-]. left. split; [done|]. by exists logs.
    + destruct (proxies w !! containerID) as [p|] eqn:Hp;
        destruct (slice_to 12 containerID) as [id12|] eqn:Hs; cbn; try done.
      * intros [= <-]. left. split; [done|].
        exists (logs ++ [LogExists id12 (r_nodeName r)]).
        by rewrite emit_emit, fmap_app.
      * intros [= <-]. right. apply slice_to_inv in Hs.
        split; [done|]. split; [done|]. split; [done|].
        eexists _, _, (logs ++ [LogEnabled id12 (r_nodeName r) (r_target r)]).
        split; [done|]. cbn. by rewrite fmap_app, (assoc_L (++)).
  - intros [= <-]. left. split; [done|]. exists []. by rewrite emit_nil.
Qed.

Lemma logHandled_cases mk containerID h w :
  logHandled mk containerID h = Some w → ∃ logs, w = emit (Log <$> logs) (h_dw h).
Proof.
  unfold logHandled. destruct (h_err h) as [e|].
  - destruct (slice_to 12 containerID) as [id12|]; [|done]. cbn.
    intros [= <-]. by exists [mk id12 e].
  - intros [= <-]. exists []. by rewrite emit_nil.
Qed.

(** The caller of [handleContainer], scan or loop: the invariant goes
    through. *)
Lemma Inv'_handled w containerID r h w' live ts mk :
  handleContainer w containerID r = Some h →
  logHandled mk containerID h = Some w' →
  Inv' (wg w) live ts (proxies w) (length (made w)) (starts (trace w)) →
  Inv' (wg w') live (ts ++ spawned h) (proxies w') (length (made w'))
       (starts (trace w')) ∧ client w' = client w ∧ ctxDone w' = ctxDone w.
Proof.
  intros Hh Hlog HI.
  apply logHandled_cases in Hlog as [logs2 ->].
  apply handleContainer_cases in Hh
    as [[Hgo [logs ->]]|(Hlen & _ & _ & cfg & nodeName & logs & Hgo & ->)];
    unfold spawned; rewrite Hgo; cbn;
    rewrite !starts_app, !starts_logs, !app_nil_r.
  - done.
  - split; [|done]. rewrite length_app. cbn. rewrite Nat.add_1_r.
    by apply Inv'_spawn.
Qed.

(** [stopProxy] removes the identity and touches nothing else but the
    trace. *)
Lemma stopProxy_cases w containerID stopErr w' :
  stopProxy w containerID stopErr = Some w' →
  proxies w' = delete containerID (proxies w) ∧ wg w' = wg w ∧ made w' = made w ∧
  client w' = client w ∧ ctxDone w' = ctxDone w ∧
  starts (trace w') = starts (trace w).
Proof.
  unfold stopProxy. destruct (proxies w !! containerID) as [[h|]|] eqn:Hp.
  - destruct stopErr as [e|].
    + destruct (slice_to 12 containerID); [|done]. cbn. intros [= <-]. cbn.
      by rewrite !starts_app, !app_nil_r.
    + intros [= <-]. cbn. by rewrite !starts_app, !app_nil_r.
  - by intros [= <-].
  - intros [= <-]. by rewrite delete_id.
Qed.

(** A turn of [watchContainerStop]: the goroutine stays in the select
    and nothing changes, or it returns, having at most removed entries
    and stopped a proxy. *)
Lemma watchContainerStop_cases w t sel stopErr w' ot :
  watchContainerStop w t sel stopErr = Next (w', ot) →
  (ot = Some t ∧ w' = w) ∨
  (ot = None ∧ wg w = S (wg w') ∧ proxies w' ⊆ proxies w ∧ made w' = made w ∧
   client w' = client w ∧ starts (trace w') = starts (trace w)).
Proof.
  unfold watchContainerStop. destruct sel as [|err|event].
  - destruct (ctxDone w); [|done].
    destruct (wgDone w) as [w1|] eqn:Hdone; [|done]. cbn. intros [= <- <-].
    apply wgDone_inv in Hdone as (n & Hn & ->). right. by rewrite Hn.
  - destruct (match err with Some _ => _ | None => _ end) as [w1|] eqn:Hlog; [|done].
    cbn. destruct (wgDone w1) as [w2|] eqn:Hdone; [|done]. cbn. intros [= <- <-].
    apply wgDone_inv in Hdone as (n & Hn & ->). right.
    cbn [wg proxies made client trace set_wg].
    assert (wg w1 = wg w ∧ proxies w1 = proxies w ∧ made w1 = made w ∧
            client w1 = client w ∧ starts (trace w1) = starts (trace w))
      as (Hwg & -> & -> & -> & ->).
    { destruct err as [e|]; [|by simplify_eq].
      destruct (negb (ctxDone w)); [|by simplify_eq].
      destruct (slice_to 12 (t_containerID t)); [|done]. cbn in Hlog. simplify_eq.
      cbn. by rewrite starts_app, app_nil_r. }
    rewrite <-Hwg, Hn. done.
  - destruct (_ || _); [|intros [= <- <-]; by left].
    destruct (slice_to 12 (t_containerID t)) as [id12|]; [|done]. cbn.
    destruct (stopProxy _ _ _) as [w1|] eqn:Hstop; [|done]. cbn.
    destruct (wgDone w1) as [w2|] eqn:Hdone; [|done]. cbn. intros [= <- <-].
    apply wgDone_inv in Hdone as (n & Hn & ->).
    apply stopProxy_cases in Hstop as (Hreg & Hwg & Hmade & Hcl & _ & Hst).
    cbn [wg proxies made client trace set_wg emit] in *. right.
    rewrite Hreg, Hmade, Hcl, Hst, <-Hwg, Hn.
    rewrite starts_app, app_nil_r.
    split; [done|]. split; [done|]. split; [apply delete_subseteq|done].
Qed.

Lemma Inv_init network : Inv (init network).
Proof. split; [apply Inv'_init|done|done|done]. Qed.

(** Once [Stop] has returned, no goroutine is left. *)
Lemma Inv_stopped_quiet c :
  Inv c → main c = Stopped → loop c = None ∧ tasks c = [].
Proof.
  intros [[Hwg _ _ _ _] _ _ Hst] Hm. specialize (Hst Hm). rewrite Hst in Hwg.
  unfold loop_live in Hwg. destruct (loop c), (tasks c); cbn in Hwg; done || lia.
Qed.

Lemma step_Inv l c c' : Inv c → step l c = Next c' → Inv c'.
Proof.
  intros HInv Hstep. pose proof HInv as [HI Hcl Hlp Hst].
  pose proof (Inv_stopped_quiet c HInv) as Hquiet.
  destruct l; cbn in Hstep.
  - (* StartCalled *)
    destruct (main c); simplify_eq. by split.
  - (* StartListed *)
    destruct (main c); simplify_eq. destruct r; simplify_eq; split; cbn; try done.
    by rewrite starts_app, app_nil_r.
  - (* StartInspected *)
    destruct (main c) as [| |[|containerID ids]| | | | |]; simplify_eq.
    destruct (handleContainer _ _ _) as [h|] eqn:Hh; [|done]. cbn in Hstep.
    destruct (logHandled _ _ _) as [w'|] eqn:Hlog; [|done]. cbn in Hstep. simplify_eq.
    destruct (Inv'_handled _ _ _ _ _ _ _ _ Hh Hlog HI) as (HI' & Hcl' & _).
    split; cbn; [done|congruence|done|done].
  - (* StartSubscribed *)
    destruct (main c) as [| |[|containerID ids]| | | | |] eqn:Hmain; simplify_eq.
    split; cbn; [|done|done|done].
    apply Inv'_loop_on. unfold loop_live in HI. by rewrite Hlp in HI.
  - (* StopCancel *)
    destruct (main c) eqn:Hmain; simplify_eq; split; cbn; try done;
      by rewrite starts_app, app_nil_r.
  - (* StopDrain *)
    destruct (main c) eqn:Hmain; simplify_eq. split; cbn; try done.
    eapply Inv'_registry_subseteq; [|done]. apply map_empty_subseteq.
  - (* StopClose *)
    destruct (main c) eqn:Hmain; simplify_eq.
    destruct (stoppers c); simplify_eq. unfold Stop_close. rewrite Hcl.
    split; cbn; try done.
    by rewrite starts_app, app_nil_r.
  - (* StopWaited *)
    destruct (main c) eqn:Hmain; simplify_eq.
    destruct (wg (dw c)) eqn:Hwg; simplify_eq.
    split; cbn; try done. by rewrite Hwg.
  - (* LoopBegin *)
    destruct (loop c) as [[| |event]|] eqn:Hloop; simplify_eq.
    assert (main c ≠ Stopped) as Hrun by (intros Hm; by destruct (Hquiet Hm)).
    assert (¬ pre_start (main c)) as Hnp by (intros Hp; by specialize (Hlp Hp)).
    unfold loop_live in HI. rewrite Hloop in HI.
    split; cbn; [|done|done|done].
    by rewrite starts_app, app_nil_r.
  - (* LoopSelects *)
    destruct (loop c) as [[| |event]|] eqn:Hloop; simplify_eq.
    assert (main c ≠ Stopped) as Hrun by (intros Hm; by destruct (Hquiet Hm)).
    assert (¬ pre_start (main c)) as Hnp by (intros Hp; by specialize (Hlp Hp)).
    unfold loop_live in HI. rewrite Hloop in HI.
    destruct sel as [|err|event].
    + destruct (ctxDone (dw c)); simplify_eq.
      destruct (wgDone _) as [w'|] eqn:Hdone; [|done]. cbn in Hstep. simplify_eq.
      apply wgDone_inv in Hdone as (n & Hn & ->). cbn in Hn.
      split; cbn; [|done|done|done].
      rewrite starts_app, app_nil_r. apply Inv'_loop_off. by rewrite <-Hn.
    + destruct (wgDone _) as [w'|] eqn:Hdone; [|done]. cbn in Hstep. simplify_eq.
      apply wgDone_inv in Hdone as (n & Hn & ->).
      assert (wg (dw c) = S n) as Hn'.
      { destruct err as [e|]; [destruct (ctxDone (dw c))|]; done. }
      split; cbn; [| |done|done].
      * destruct err as [e|]; [destruct (ctxDone (dw c))|]; cbn;
          rewrite ?starts_app, ?app_nil_r; apply Inv'_loop_off; by rewrite <-Hn'.
      * destruct err as [e|]; [destruct (ctxDone (dw c))|]; done.
    + destruct (handleEvent event); simplify_eq; [|done].
      split; cbn; [|done|done|done]. done.
  - (* LoopInspected *)
    destruct (loop c) as [[| |event]|] eqn:Hloop; simplify_eq.
    assert (main c ≠ Stopped) as Hrun by (intros Hm; by destruct (Hquiet Hm)).
    assert (¬ pre_start (main c)) as Hnp by (intros Hp; by specialize (Hlp Hp)).
    destruct (handleContainer _ _ _) as [h|] eqn:Hh; [|done]. cbn in Hstep.
    destruct (logHandled _ _ _) as [w'|] eqn:Hlog; [|done]. cbn in Hstep. simplify_eq.
    destruct (Inv'_handled _ _ _ _ _ _ _ _ Hh Hlog HI) as (HI' & Hcl' & _).
    unfold loop_live in HI'. rewrite Hloop in HI'.
    split; cbn; [done|congruence|done|done].
  - (* TaskStarted *)
    destruct (tasks c !! i) as [t|] eqn:Hi; simplify_eq.
    assert (main c ≠ Stopped) as Hrun.
    { intros Hm. destruct (Hquiet Hm) as [_ Hts]. by rewrite Hts in Hi. }
    destruct (t_pc t) eqn:Hpc; simplify_eq.
    assert (12 ≤ String.length (t_containerID t)) as Hlen.
    { destruct HI as [_ Hids _ _ _]. eapply Forall_forall in Hids; [done|].
      by eapply list_elem_of_lookup_2. }
    unfold proxyStarted in Hstep. rewrite (slice_to_Some 12 _ Hlen) in Hstep.
    destruct err as [e|]; cbn in Hstep.
    + destruct (wgDone _) as [w'|] eqn:Hdone; [|done]. cbn in Hstep. simplify_eq.
      apply wgDone_inv in Hdone as (n & Hn & ->). cbn in Hn.
      split; cbn; [|done|done|done].
      rewrite !starts_app. cbn. rewrite app_nil_r.
      apply Inv'_start_failed; [done|done|]. by rewrite <-Hn.
    + simplify_eq. split; cbn; [|done|done|done].
      rewrite !starts_app. cbn. rewrite app_nil_r.
      by eapply Inv'_start_ok.
  - (* TaskSelects *)
    destruct (tasks c !! i) as [t|] eqn:Hi; simplify_eq.
    assert (main c ≠ Stopped) as Hrun.
    { intros Hm. destruct (Hquiet Hm) as [_ Hts]. by rewrite Hts in Hi. }
    destruct (t_pc t) eqn:Hpc; simplify_eq.
    assert (¬ starting t) as Hw by (unfold starting; congruence).
    destruct (watchContainerStop _ _ _ _) as [[w' t']| |] eqn:Hwatch; simplify_eq.
    apply watchContainerStop_cases in Hwatch
      as [[-> ->]|(-> & Hwg & Hsub & Hmade & Hcl' & Hstarts)]; cbn.
    + rewrite list_insert_id by done. by destruct c.
    + split; cbn; [|congruence|done|done].
      rewrite Hmade, Hstarts. eapply Inv'_registry_subseteq; [done|].
      eapply Inv'_watch_exit; [done|done|]. by rewrite <-Hwg.
  - (* StopperRuns *)
    destruct (stoppers c !! i) as [p|]; simplify_eq.
    split; cbn; try done; destruct err; cbn; try done;
      by rewrite !starts_app, ?app_nil_r.
Qed.

End invariant.

(** ** Reachable configurations *)

Section reachable.

Lemma run_app ls1 ls2 c :
  run (ls1 ++ ls2) c = match run ls1 c with
                       | Next c' => run ls2 c'
                       | Crash => Crash
                       | Disabled => Disabled
                       end.
Proof.
  revert c. induction ls1 as [|l ls1 IH]; intros c; cbn; [done|].
  by destruct (step l c).
Qed.

Lemma run_cons l ls c :
  run (l :: ls) c = match step l c with
                    | Next c' => run ls c'
                    | Crash => Crash
                    | Disabled => Disabled
                    end.
Proof. done. Qed.

Lemma run_Inv ls c c' : Inv c → run ls c = Next c' → Inv c'.
Proof.
  revert c. induction ls as [|l ls IH]; intros c HI; cbn.
  - by intros [= <-].
  - destruct (step l c) as [c1| |] eqn:Hstep; [|done|done].
    apply IH. by eapply step_Inv.
Qed.

Lemma reachable_Inv c : reachable c → Inv c.
Proof. intros (network & ls & Hrun). eapply run_Inv; [apply Inv_init|done]. Qed.

Lemma reachable_init network : reachable (init network).
Proof. by exists network, []. Qed.

Lemma reachable_run ls c c' : reachable c → run ls c = Next c' → reachable c'.
Proof.
  intros (network & ls0 & Hrun) Hrun'. exists network, (ls0 ++ ls).
  by rewrite run_app, Hrun.
Qed.

Lemma reachable_step l c c' : reachable c → step l c = Next c' → reachable c'.
Proof. intros Hc Hstep. apply (reachable_run [l] c c' Hc). cbn. by rewrite Hstep. Qed.

Lemma reachable_after ls : reachable (after ls).
Proof.
  unfold after. destruct (run ls (init "net")) as [c| |] eqn:Hrun;
    [by exists "net", ls|apply reachable_init..].
Qed.

(** In a reachable configuration a goroutine of [handleContainer] can
    slice its identity and can call [dw.wg.Done()]. *)
Lemma reachable_task c i t :
  reachable c → tasks c !! i = Some t →
  12 ≤ String.length (t_containerID t) ∧ ∃ n, wg (dw c) = S n.
Proof.
  intros Hc Hi. apply reachable_Inv in Hc as [[Hwg Hids _ _ _] _ _ _]. split.
  - eapply Forall_forall in Hids; [done|]. by eapply list_elem_of_lookup_2.
  - apply lookup_lt_Some in Hi. exists (loop_live c + length (tasks c) - 1). lia.
Qed.

Lemma NoDup_fst_functional {A B} (l : list (A * B)) x y1 y2 :
  NoDup l.*1 → (x, y1) ∈ l → (x, y2) ∈ l → y1 = y2.
Proof.
  induction l as [|[a b] l IH]; cbn; intros Hnd H1 H2; [by apply elem_of_nil in H1|].
  apply NoDup_cons in Hnd as [Ha Hnd].
  apply elem_of_cons in H1 as [H1|H1], H2 as [H2|H2]; simplify_eq; try done.
  - destruct Ha. apply list_elem_of_fmap. by exists (a, y2).
  - destruct Ha. apply list_elem_of_fmap. by exists (a, y1).
  - by apply IH.
Qed.

(** A registered proxy was made by [NewProxy], its [Start] was called
    once, and that call returned [nil]. *)
Lemma reachable_registered c containerID p :
  reachable c → proxies (dw c) !! containerID = Some p →
  12 ≤ String.length containerID ∧
  (∃ h, p = Some h ∧ h < length (made (dw c))) ∧
  (p, None) ∈ starts (trace (dw c)) ∧
  ∀ err, (p, err) ∈ starts (trace (dw c)) → err = None.
Proof.
  intros Hc Hp. apply reachable_Inv in Hc as [[_ _ Hdist Hmade Hreg] _ _ _].
  destruct (Hreg _ _ Hp) as [Hlen Hin].
  apply NoDup_app in Hdist as (_ & _ & Hdist).
  apply Forall_app in Hmade as [_ Hmade].
  split; [done|]. split; [|split; [done|]].
  - eapply Forall_forall in Hmade; [done|].
    apply list_elem_of_fmap. by exists (p, None).
  - intros err Herr. by eapply NoDup_fst_functional.
Qed.

End reachable.

(** ** What a step changes *)

Section change.

Lemma pending_elem (ts : list Task) i t :
  ts !! i = Some t → starting t → t_proxy t ∈ pending ts.
Proof.
  intros Hi Ht. unfold pending. apply list_elem_of_fmap. exists t. split; [done|].
  apply list_elem_of_filter. split; [done|]. by eapply list_elem_of_lookup_2.
Qed.

(** The caller of [handleContainer]: no entry, no start, no stop. *)
Lemma handled_quiet w containerID r h mk w' :
  handleContainer w containerID r = Some h →
  logHandled mk containerID h = Some w' →
  proxies w' = proxies w ∧ starts (trace w') = starts (trace w) ∧
  stops (trace w') = stops (trace w).
Proof.
  intros Hh Hlog. apply logHandled_cases in Hlog as [logs2 ->].
  apply handleContainer_cases in Hh
    as [[_ [logs ->]]|(_ & _ & _ & cfg & nodeName & logs & _ & ->)]; cbn;
    by rewrite !starts_app, !stops_app, !starts_logs, !stops_logs, !app_nil_r.
Qed.

Lemma stopProxy_change w containerID stopErr w' :
  stopProxy w containerID stopErr = Some w' →
  starts (trace w') = starts (trace w) ∧
  ((proxies w !! containerID = None ∧ proxies w' = proxies w ∧
    stops (trace w') = stops (trace w)) ∨
   (proxies w !! containerID = Some None ∧
    proxies w' = delete containerID (proxies w) ∧
    stops (trace w') = stops (trace w)) ∨
   (∃ h, proxies w !! containerID = Some (Some h) ∧
         proxies w' = delete containerID (proxies w) ∧
         stops (trace w') = stops (trace w) ++ [(Some h, stopErr)])).
Proof.
  unfold stopProxy. destruct (proxies w !! containerID) as [[h|]|] eqn:Hp.
  - assert (∀ w1, w1 = emit [ProxyStop (Some h) stopErr]
                          (set_proxies (delete containerID (proxies w)) w) →
                  starts (trace w1) = starts (trace w) ∧
                  proxies w1 = delete containerID (proxies w) ∧
                  stops (trace w1) = stops (trace w) ++ [(Some h, stopErr)]) as Hgo.
    { intros w1 ->. cbn. by rewrite starts_app, stops_app, app_nil_r. }
    destruct stopErr as [e|].
    + destruct (slice_to 12 containerID); [|done]. cbn. intros [= <-].
      destruct (Hgo _ eq_refl) as (Hst & Hreg & Hsl). cbn.
      rewrite starts_app, stops_app, !app_nil_r. split; [done|].
      right. right. by exists h.
    + intros [= <-]. destruct (Hgo _ eq_refl) as (Hst & Hreg & Hsl).
      split; [done|]. right. right. by exists h.
  - intros [= <-]. split; [done|]. right. by left.
  - intros [= <-]. split; [done|]. by left.
Qed.

Lemma watchContainerStop_change w t sel stopErr w' ot :
  watchContainerStop w t sel stopErr = Next (w', ot) →
  starts (trace w') = starts (trace w) ∧
  ((proxies w' = proxies w ∧ stops (trace w') = stops (trace w)) ∨
   (proxies w !! t_containerID t = Some None ∧
    proxies w' = delete (t_containerID t) (proxies w) ∧
    stops (trace w') = stops (trace w)) ∨
   (∃ h, proxies w !! t_containerID t = Some (Some h) ∧
         proxies w' = delete (t_containerID t) (proxies w) ∧
         stops (trace w') = stops (trace w) ++ [(Some h, stopErr)])).
Proof.
  unfold watchContainerStop. destruct sel as [|err|event].
  - destruct (ctxDone w); [|done].
    destruct (wgDone w) as [w1|] eqn:Hdone; [|done]. cbn. intros [= <- <-].
    apply wgDone_inv in Hdone as (n & Hn & ->). split; [done|]. by left.
  - destruct (match err with Some _ => _ | None => _ end) as [w1|] eqn:Hlog; [|done].
    cbn. destruct (wgDone w1) as [w2|] eqn:Hdone; [|done]. cbn. intros [= <- <-].
    apply wgDone_inv in Hdone as (n & Hn & ->).
    cbn [wg proxies made client trace set_wg].
    assert (proxies w1 = proxies w ∧ starts (trace w1) = starts (trace w) ∧
            stops (trace w1) = stops (trace w)) as (-> & -> & ->).
    { destruct err as [e|]; [|by simplify_eq].
      destruct (negb (ctxDone w)); [|by simplify_eq].
      destruct (slice_to 12 (t_containerID t)); [|done]. cbn in Hlog. simplify_eq.
      cbn. by rewrite starts_app, stops_app, !app_nil_r. }
    split; [done|]. by left.
  - destruct (_ || _); [|intros [= <- <-]; split; [done|by left]].
    destruct (slice_to 12 (t_containerID t)) as [id12|]; [|done]. cbn.
    destruct (stopProxy _ _ _) as [w1|] eqn:Hstop; [|done]. cbn.
    destruct (wgDone w1) as [w2|] eqn:Hdone; [|done]. cbn. intros [= <- <-].
    apply wgDone_inv in Hdone as (n & Hn & ->).
    apply stopProxy_change in Hstop as (Hst & Hcases).
    cbn [wg proxies made client trace set_wg emit] in *.
    rewrite starts_app, stops_app, !app_nil_r in *. split; [done|].
    destruct Hcases as [(_ & ? & ?)|[?|?]]; [by left|by right; left|by right; right].
Qed.

(** A registered pointer is not [nil]. *)
Lemma Inv_registered c containerID p :
  Inv c → proxies (dw c) !! containerID = Some p → ∃ h, p = Some h.
Proof.
  intros [[_ _ _ Hmade Hreg] _ _ _] Hp.
  destruct (Hreg _ _ Hp) as [_ Hin].
  apply Forall_app in Hmade as [_ Hmade].
  eapply Forall_forall in Hmade as (h & -> & _); [by exists h|].
  apply list_elem_of_fmap. by exists (p, None).
Qed.

Lemma step_Change l c c' : Inv c → step l c = Next c' → Change c c'.
Proof.
  intros HInv Hstep. destruct l; cbn in Hstep.
  - destruct (main c); simplify_eq. by apply Quiet.
  - destruct (main c); simplify_eq. destruct r; simplify_eq; apply Quiet; cbn; try done;
      by rewrite ?starts_app, ?stops_app, ?app_nil_r.
  - destruct (main c) as [| |[|containerID ids]| | | | |]; simplify_eq.
    destruct (handleContainer _ _ _) as [h|] eqn:Hh; [|done]. cbn in Hstep.
    destruct (logHandled _ _ _) as [w'|] eqn:Hlog; [|done]. cbn in Hstep. simplify_eq.
    destruct (handled_quiet _ _ _ _ _ _ Hh Hlog) as (? & ? & ?). by apply Quiet.
  - destruct (main c) as [| |[|containerID ids]| | | | |]; simplify_eq. by apply Quiet.
  - destruct (main c); simplify_eq; apply Quiet; cbn; try done;
      by rewrite ?starts_app, ?stops_app, ?app_nil_r.
  - destruct (main c) eqn:Hm; simplify_eq. by apply Drained.
  - destruct (main c); simplify_eq. destruct (stoppers c) eqn:Hs; simplify_eq.
    apply Quiet; unfold Stop_close; destruct (client (dw c)); cbn; try done;
      by rewrite ?starts_app, ?stops_app, ?app_nil_r.
  - destruct (main c); simplify_eq. destruct (wg (dw c)); simplify_eq. by apply Quiet.
  - destruct (loop c) as [[| |event]|]; simplify_eq.
    apply Quiet; cbn; try done; by rewrite ?starts_app, ?stops_app, ?app_nil_r.
  - destruct (loop c) as [[| |event]|]; simplify_eq.
    destruct sel as [|err|event].
    + destruct (ctxDone (dw c)); simplify_eq.
      destruct (wgDone _) as [w'|] eqn:Hdone; [|done]. cbn in Hstep. simplify_eq.
      apply wgDone_inv in Hdone as (n & _ & ->).
      apply Quiet; cbn; try done; by rewrite ?starts_app, ?stops_app, ?app_nil_r.
    + destruct (wgDone _) as [w'|] eqn:Hdone; [|done]. cbn in Hstep. simplify_eq.
      apply wgDone_inv in Hdone as (n & _ & ->).
      destruct err as [e|]; [destruct (ctxDone (dw c))|];
        apply Quiet; cbn; try done; by rewrite ?starts_app, ?stops_app, ?app_nil_r.
    + destruct (handleEvent event); simplify_eq; by apply Quiet.
  - destruct (loop c) as [[| |event]|]; simplify_eq.
    destruct (handleContainer _ _ _) as [h|] eqn:Hh; [|done]. cbn in Hstep.
    destruct (logHandled _ _ _) as [w'|] eqn:Hlog; [|done]. cbn in Hstep. simplify_eq.
    destruct (handled_quiet _ _ _ _ _ _ Hh Hlog) as (? & ? & ?). by apply Quiet.
  - destruct (tasks c !! i) as [t|] eqn:Hi; simplify_eq.
    destruct (t_pc t) eqn:Hpc; simplify_eq.
    pose proof (pending_elem (tasks c) i t Hi Hpc) as Hpend.
    unfold proxyStarted in Hstep.
    destruct (slice_to 12 (t_containerID t)) as [id12|]; [|by destruct err].
    destruct err as [e|]; cbn in Hstep.
    + destruct (wgDone _) as [w'|] eqn:Hdone; [|done]. cbn in Hstep. simplify_eq.
      apply wgDone_inv in Hdone as (n & _ & ->).
      eapply StartFailed; [done|..]; cbn; try done;
        by rewrite ?starts_app, ?stops_app, ?app_nil_r.
    + simplify_eq. eapply Registered; [done|..]; cbn; try done;
        by rewrite ?starts_app, ?stops_app, ?app_nil_r.
  - destruct (tasks c !! i) as [t|] eqn:Hi; simplify_eq.
    destruct (t_pc t) eqn:Hpc; simplify_eq.
    destruct (watchContainerStop _ _ _ _) as [[w' ot]| |] eqn:Hwatch; simplify_eq.
    apply watchContainerStop_change in Hwatch
      as (Hst & [[Hreg Hsl]|[(Hp & Hreg & Hsl)|(h & Hp & Hreg & Hsl)]]).
    + by apply Quiet.
    + by destruct (Inv_registered c _ _ HInv Hp).
    + by eapply TornDown.
  - destruct (stoppers c !! i) as [p|] eqn:Hi; simplify_eq.
    eapply StopperDone; [done|..]; unfold Stop_goroutine; destruct err; cbn; try done;
      by rewrite ?starts_app, ?stops_app, ?app_nil_r.
Qed.

End change.

(** ** No proxy is stopped twice *)

Section once.

Implicit Types (reg : gmap string (option nat)) (sp : list (option nat))
  (st sl : list (option nat * option string)).

Lemma NoDup_submseteq_inv {A} (l k : list A) : l ⊆+ k → NoDup k → NoDup l.
Proof.
  intros Hsub Hnd. apply submseteq_Permutation in Hsub as [k' Hk].
  rewrite Hk in Hnd. by apply NoDup_app in Hnd as [? _].
Qed.

Lemma Forall_submseteq_inv {A} (P : A → Prop) (l k : list A) :
  l ⊆+ k → Forall P k → Forall P l.
Proof.
  intros Hsub HP. apply submseteq_Permutation in Hsub as [k' Hk].
  rewrite Hk in HP. by apply Forall_app in HP as [? _].
Qed.

Lemma values_delete reg containerID p :
  reg !! containerID = Some p →
  (map_to_list reg).*2 ≡ₚ p :: (map_to_list (delete containerID reg)).*2.
Proof. intros Hp. by rewrite <-(map_to_list_delete reg containerID p Hp). Qed.

Lemma values_delete_submseteq reg containerID :
  (map_to_list (delete containerID reg)).*2 ⊆+ (map_to_list reg).*2.
Proof.
  destruct (reg !! containerID) as [p|] eqn:Hp.
  - rewrite (values_delete reg containerID p Hp). by apply submseteq_cons.
  - by rewrite delete_id.
Qed.

Lemma values_insert reg containerID p :
  (map_to_list (<[containerID := p]> reg)).*2
  ≡ₚ p :: (map_to_list (delete containerID reg)).*2.
Proof.
  rewrite <-insert_delete_eq.
  by rewrite map_to_list_insert by apply lookup_delete_eq.
Qed.

Lemma Once_init : Once ∅ [] [] [].
Proof. split; unfold owed; rewrite map_to_list_empty; cbn; constructor. Qed.

(** Fewer proxies owed, more starts. *)
Lemma Once_weaken reg st sp sl reg' st' sp' sl' :
  owed reg' sp' sl' ⊆+ owed reg sp sl →
  (∀ x, x ∈ st → x ∈ st') →
  Once reg st sp sl → Once reg' st' sp' sl'.
Proof.
  intros Hsub Hst [Hstarted Hnd]. split.
  - eapply Forall_impl; [by eapply Forall_submseteq_inv|]. intros p. apply Hst.
  - by eapply NoDup_submseteq_inv.
Qed.

Lemma Once_registered reg st sp sl containerID p :
  p ∉ st.*1 →
  Once reg st sp sl →
  Once (<[containerID := p]> reg) (st ++ [(p, None)]) sp sl.
Proof.
  intros Hnew [Hstarted Hnd].
  assert (owed (delete containerID reg) sp sl ⊆+ owed reg sp sl) as Hsub.
  { unfold owed. apply submseteq_skips_r, values_delete_submseteq. }
  assert (owed (<[containerID := p]> reg) sp sl
          ≡ₚ p :: owed (delete containerID reg) sp sl) as Hperm.
  { unfold owed. by rewrite values_insert. }
  assert (p ∉ owed (delete containerID reg) sp sl) as Hfresh.
  { intros Hin. apply Hnew. apply list_elem_of_fmap. exists (p, None). split; [done|].
    eapply Forall_forall in Hstarted; [done|]. by eapply elem_of_submseteq. }
  split; rewrite Hperm.
  - constructor; [apply elem_of_app; right; left|].
    eapply Forall_impl; [by eapply Forall_submseteq_inv|].
    intros q Hq. apply elem_of_app. by left.
  - apply NoDup_cons. split; [done|]. by eapply NoDup_submseteq_inv.
Qed.

Lemma Once_torn_down reg st sp sl containerID p e :
  reg !! containerID = Some p →
  Once reg st sp sl → Once (delete containerID reg) st sp (sl ++ [(p, e)]).
Proof.
  intros Hp HO. eapply Once_weaken; [| |exact HO]; [|done]. unfold owed.
  rewrite (values_delete reg containerID p Hp), fmap_app. cbn.
  rewrite !(assoc_L (++)). by rewrite <-Permutation_cons_append.
Qed.

Lemma Once_drained reg st sp sl :
  Once reg st sp sl → Once ∅ st (map_to_list reg).*2 sl.
Proof.
  intros HO. eapply Once_weaken; [| |exact HO]; [|done].
  unfold owed. rewrite map_to_list_empty. cbn.
  apply submseteq_skips_l, submseteq_inserts_l. done.
Qed.

Lemma Once_stopper reg st sp sl i p e :
  sp !! i = Some p →
  Once reg st sp sl → Once reg st (delete i sp) (sl ++ [(p, e)]).
Proof.
  intros Hi HO. eapply Once_weaken; [| |exact HO]; [|done]. unfold owed.
  rewrite (delete_Permutation sp i p Hi) at 2. rewrite fmap_app. cbn.
  apply Permutation_submseteq, Permutation_app_head.
  rewrite (assoc_L (++)). by rewrite <-Permutation_cons_append.
Qed.

(** What a step does to the places of [Stop] and to its goroutines. *)
Lemma step_frame l c c' :
  step l c = Next c' →
  match l with
  | StopDrain => main c = StopCancelled ∧ main c' = StopDrained
  | StopClose => main c = StopDrained ∧ stoppers c = [] ∧
                 main c' = StopClosed ∧ stoppers c' = []
  | StopWaited => main c = StopClosed ∧ main c' = Stopped ∧ stoppers c' = stoppers c
  | StopperRuns i _ => main c' = main c ∧ is_Some (stoppers c !! i)
  | StartCalled | StartListed _ | StartInspected _ | StartSubscribed | StopCancel =>
      ¬ after_drain (main c) ∧ ¬ after_drain (main c') ∧ stoppers c' = stoppers c
  | _ => main c' = main c ∧ stoppers c' = stoppers c
  end.
Proof.
  intros Hstep. destruct l; cbn in Hstep.
  - destruct (main c) eqn:Hm; simplify_eq. cbn. tauto.
  - destruct (main c) eqn:Hm; simplify_eq. destruct r; simplify_eq; cbn; tauto.
  - destruct (main c) as [| |[|containerID ids]| | | | |] eqn:Hm; simplify_eq.
    destruct (handleContainer _ _ _) as [h|]; [|done]. cbn in Hstep.
    destruct (logHandled _ _ _) as [w'|]; [|done]. cbn in Hstep. simplify_eq. cbn. tauto.
  - destruct (main c) as [| |[|containerID ids]| | | | |] eqn:Hm; simplify_eq. cbn. tauto.
  - destruct (main c) eqn:Hm; simplify_eq; cbn; tauto.
  - destruct (main c) eqn:Hm; simplify_eq. done.
  - destruct (main c) eqn:Hm; simplify_eq. destruct (stoppers c) eqn:Hs; simplify_eq. done.
  - destruct (main c) eqn:Hm; simplify_eq. destruct (wg (dw c)); simplify_eq. done.
  - destruct (loop c) as [[| |event]|]; simplify_eq. done.
  - destruct (loop c) as [[| |event]|]; simplify_eq. destruct sel as [|err|event].
    + destruct (ctxDone (dw c)); simplify_eq.
      destruct (wgDone _); [|done]. cbn in Hstep. by simplify_eq.
    + destruct (wgDone _); [|done]. cbn in Hstep. by simplify_eq.
    + destruct (handleEvent event); by simplify_eq.
  - destruct (loop c) as [[| |event]|]; simplify_eq.
    destruct (handleContainer _ _ _) as [h|]; [|done]. cbn in Hstep.
    destruct (logHandled _ _ _) as [w'|]; [|done]. cbn in Hstep. by simplify_eq.
  - destruct (tasks c !! i) as [t|]; simplify_eq. destruct (t_pc t); simplify_eq.
    destruct (proxyStarted _ _ _); [|done]. cbn in Hstep. by simplify_eq.
  - destruct (tasks c !! i) as [t|]; simplify_eq. destruct (t_pc t); simplify_eq.
    destruct (watchContainerStop _ _ _ _); by simplify_eq.
  - destruct (stoppers c !! i) as [p|] eqn:Hi; simplify_eq. split; [done|by eexists].
Qed.

Lemma Teardown_init network : Teardown (init network).
Proof. split; [apply Once_init|done]. Qed.

Lemma step_Teardown l c c' :
  Inv c → Teardown c → step l c = Next c' → Teardown c'.
Proof.
  intros HInv [Honce Hclosed] Hstep. split.
  - destruct (step_Change l c c' HInv Hstep)
      as [Hreg Hst Hsp Hsl|p e Hp Hreg Hst Hsp Hsl|containerID p Hp Hreg Hst Hsp Hsl
         |containerID p e Hp Hreg Hst Hsp Hsl|Hm Hreg Hst Hsp Hsl|i p e Hi Hreg Hst Hsp Hsl];
      rewrite Hreg, Hst, Hsp, Hsl.
    + done.
    + eapply Once_weaken; [done| |done]. intros x Hx. apply elem_of_app. by left.
    + apply Once_registered; [|done].
      destruct HInv as [[_ _ Hdist _ _] _ _ _].
      apply NoDup_app in Hdist as (_ & Hdisj & _). by apply Hdisj.
    + by apply Once_torn_down.
    + by eapply Once_drained.
    + by apply Once_stopper.
  - pose proof (step_frame l c c' Hstep) as Hframe.
    intros Hm. destruct l; cbn in Hframe;
      try (destruct Hframe as (Hpre & Hpost & Hsp); exfalso; apply Hpost;
           destruct Hm as [-> | ->]; done);
      try (destruct Hframe as [Hmain Hsp]; rewrite Hsp; apply Hclosed; by rewrite <-Hmain).
    + destruct Hframe as [_ Hmain]. rewrite Hmain in Hm. by destruct Hm.
    + by destruct Hframe as (_ & _ & _ & ?).
    + destruct Hframe as (Hmain & _ & Hsp). rewrite Hsp. apply Hclosed. by left.
    + destruct Hframe as [Hmain [p Hi]]. rewrite Hmain in Hm.
      rewrite (Hclosed Hm) in Hi. done.
Qed.

Lemma run_Teardown ls c c' : Inv c → Teardown c → run ls c = Next c' → Teardown c'.
Proof.
  revert c. induction ls as [|l ls IH]; intros c HInv HT; cbn.
  - by intros [= <-].
  - destruct (step l c) as [c1| |] eqn:Hstep; [|done|done].
    apply IH; [by eapply step_Inv|by eapply step_Teardown].
Qed.

Lemma reachable_Teardown c : reachable c → Teardown c.
Proof.
  intros (network & ls & Hrun).
  eapply run_Teardown; [apply Inv_init|apply Teardown_init|done].
Qed.



(** The calls of [Stop] are never taken back. *)
Lemma step_stops l c c' :
  Inv c → step l c = Next c' →
  stops (trace (dw c)) `prefix_of` stops (trace (dw c')).
Proof.
  intros HInv Hstep.
  destruct (step_Change l c c' HInv Hstep)
    as [_ _ _ Hsl|p e _ _ _ _ Hsl|containerID p _ _ _ _ Hsl
       |containerID p e _ _ _ _ Hsl|_ _ _ _ Hsl|i p e _ _ _ _ Hsl];
    rewrite Hsl; try done; by apply prefix_app_r.
Qed.

Lemma run_stops ls c c' :
  Inv c → run ls c = Next c' →
  stops (trace (dw c)) `prefix_of` stops (trace (dw c')).
Proof.
  revert c. induction ls as [|l ls IH]; intros c HInv; cbn.
  - by intros [= <-].
  - destruct (step l c) as [c1| |] eqn:Hstep; [|done|done]. intros Hrun.
    etrans; [by eapply step_stops|]. apply IH; [by eapply step_Inv|done].
Qed.

(** A registered proxy has not been stopped. *)
Lemma registered_not_stopped c containerID p :
  reachable c → proxies (dw c) !! containerID = Some p →
  p ∉ (stops (trace (dw c))).*1.
Proof.
  intros Hc Hp Hin. destruct (reachable_Teardown c Hc) as [[_ Hnd] _].
  unfold owed in Hnd. apply NoDup_app in Hnd as (_ & Hdisj & _).
  apply (Hdisj p).
  - apply list_elem_of_fmap. exists (containerID, p). split; [done|].
    by apply elem_of_map_to_list.
  - apply elem_of_app. by right.
Qed.

(** No proxy is stopped twice, and a stopped proxy had been started. *)
Lemma stopped_once c :
  reachable c →
  NoDup (stops (trace (dw c))).*1 ∧
  ∀ p, p ∈ (stops (trace (dw c))).*1 → (p, None) ∈ starts (trace (dw c)).
Proof.
  intros Hc. destruct (reachable_Teardown c Hc) as [[Hst Hnd] _].
  unfold owed in *. split.
  - apply NoDup_app in Hnd as (_ & _ & Hnd). by apply NoDup_app in Hnd as (_ & _ & ?).
  - intros p Hp. eapply Forall_forall in Hst; [done|].
    apply elem_of_app. right. apply elem_of_app. by right.
Qed.

End once.

(** ** The stop watcher *)

Section watcher.

Variables (c : Config) (i : nat) (t : Task).
Hypothesis Hc : reachable c.
Hypothesis Hi : tasks c !! i = Some t.
Hypothesis Hpc : t_pc t = TaskWatch.

(** A stop, die or kill event: the identity leaves the registry, the
    proxy found there is stopped, the goroutine returns. *)
Lemma watch_terminal_event event stopErr p :
  Action event ∈ ["stop"; "die"; "kill"] →
  proxies (dw c) !! t_containerID t = Some p →
  ∃ c' h,
    step (TaskSelects i (EventRecv event) stopErr) c = Next c' ∧
    p = Some h ∧
    proxies (dw c') = delete (t_containerID t) (proxies (dw c)) ∧
    stops (trace (dw c')) = stops (trace (dw c)) ++ [(Some h, stopErr)] ∧
    starts (trace (dw c')) = starts (trace (dw c)) ∧
    tasks c' = delete i (tasks c) ∧
    S (wg (dw c')) = wg (dw c) ∧ main c' = main c ∧ loop c' = loop c.
Proof.
  intros Hev Hp.
  destruct (reachable_task c i t Hc Hi) as (Hlen & n & Hn).
  destruct (reachable_registered c _ p Hc Hp) as (_ & (h & -> & _) & _).
  assert (String.eqb (Action event) "stop" || String.eqb (Action event) "die"
          || String.eqb (Action event) "kill" = true) as Hterm.
  { repeat (apply elem_of_cons in Hev as [->|Hev]; [done|]). by apply elem_of_nil in Hev. }
  cbn. rewrite Hi, Hpc. unfold watchContainerStop.
  rewrite Hterm, (slice_to_Some 12 _ Hlen). cbn.
  unfold stopProxy. cbn. rewrite Hp.
  destruct stopErr as [e|]; [rewrite (slice_to_Some 12 _ Hlen)|]; cbn;
    unfold wgDone; cbn; rewrite Hn; cbn; eexists _, h;
    (split; [done|]); cbn; rewrite !stops_app, !starts_app; cbn;
    rewrite ?app_nil_r; done.
Qed.

(** The same event when the identity is no longer registered: nothing
    is removed and no proxy is stopped. *)
Lemma watch_terminal_event_absent event stopErr :
  Action event ∈ ["stop"; "die"; "kill"] →
  proxies (dw c) !! t_containerID t = None →
  ∃ c',
    step (TaskSelects i (EventRecv event) stopErr) c = Next c' ∧
    proxies (dw c') = proxies (dw c) ∧
    stops (trace (dw c')) = stops (trace (dw c)) ∧
    starts (trace (dw c')) = starts (trace (dw c)) ∧
    tasks c' = delete i (tasks c).
Proof.
  intros Hev Hp.
  destruct (reachable_task c i t Hc Hi) as (Hlen & n & Hn).
  assert (String.eqb (Action event) "stop" || String.eqb (Action event) "die"
          || String.eqb (Action event) "kill" = true) as Hterm.
  { repeat (apply elem_of_cons in Hev as [->|Hev]; [done|]). by apply elem_of_nil in Hev. }
  cbn. rewrite Hi, Hpc. unfold watchContainerStop.
  rewrite Hterm, (slice_to_Some 12 _ Hlen). cbn.
  unfold stopProxy. cbn. rewrite Hp. cbn.
  unfold wgDone; cbn; rewrite Hn; cbn; eexists; (split; [done|]); cbn.
  by rewrite !stops_app, !starts_app, !app_nil_r.
Qed.

(** The error channel yields, or is closed: the goroutine returns and
    neither the registry nor any proxy is touched. *)
Lemma watch_stream_end err stopErr :
  ∃ c',
    step (TaskSelects i (ErrRecv err) stopErr) c = Next c' ∧
    proxies (dw c') = proxies (dw c) ∧
    stops (trace (dw c')) = stops (trace (dw c)) ∧
    starts (trace (dw c')) = starts (trace (dw c)) ∧
    tasks c' = delete i (tasks c) ∧
    S (wg (dw c')) = wg (dw c) ∧
    trace (dw c') =
      trace (dw c) ++
      match err with
      | Some e => if ctxDone (dw c) then []
                  else [Log (LogWatchError (substring 0 12 (t_containerID t)) e)]
      | None => []
      end.
Proof.
  destruct (reachable_task c i t Hc Hi) as (Hlen & n & Hn).
  cbn. rewrite Hi, Hpc. unfold watchContainerStop.
  rewrite (slice_to_Some 12 _ Hlen).
  destruct err as [e|]; [destruct (ctxDone (dw c))|]; cbn;
    unfold wgDone; cbn; rewrite Hn; cbn; eexists; (split; [done|]); cbn;
    rewrite ?stops_app, ?starts_app, ?app_nil_r; done.
Qed.

(** Cancellation: the goroutine returns and leaves the teardown to
    [Stop]. *)
Lemma watch_cancelled stopErr :
  ctxDone (dw c) = true →
  ∃ c',
    step (TaskSelects i CtxDone stopErr) c = Next c' ∧
    proxies (dw c') = proxies (dw c) ∧ trace (dw c') = trace (dw c) ∧
    tasks c' = delete i (tasks c) ∧ S (wg (dw c')) = wg (dw c).
Proof.
  intros Hdone. destruct (reachable_task c i t Hc Hi) as (Hlen & n & Hn).
  cbn. rewrite Hi, Hpc. unfold watchContainerStop. rewrite Hdone.
  unfold wgDone. rewrite Hn. cbn. by eexists.
Qed.

(** Any other event: the goroutine stays in the select. *)
Lemma watch_other_event event stopErr :
  Action event ∉ ["stop"; "die"; "kill"] →
  step (TaskSelects i (EventRecv event) stopErr) c = Next c.
Proof.
  intros Hev. cbn. rewrite Hi, Hpc. unfold watchContainerStop.
  assert (String.eqb (Action event) "stop" || String.eqb (Action event) "die"
          || String.eqb (Action event) "kill" = false) as ->.
  { destruct (String.eqb_spec (Action event) "stop") as [Heq|];
      [destruct Hev; rewrite Heq; left|].
    destruct (String.eqb_spec (Action event) "die") as [Heq|];
      [destruct Hev; rewrite Heq; right; left|].
    destruct (String.eqb_spec (Action event) "kill") as [Heq|];
      [destruct Hev; rewrite Heq; right; right; left|]. done. }
  cbn. rewrite list_insert_id by done. by destruct c.
Qed.

End watcher.

Lemma stopProxy_absent w containerID stopErr :
  proxies w !! containerID = None → stopProxy w containerID stopErr = Some w.
Proof. intros Hp. unfold stopProxy. cbv zeta. by rewrite Hp. Qed.

(** ** The claims on the stop watcher *)

(** C2. In a reachable configuration, when the stop watcher of a
    registered identity receives a stop, die or kill event: the identity
    is absent from the registry afterwards, [Stop] has been called on its
    proxy, which had not been stopped before, and the watcher has
    returned.  Whatever happens next, that proxy is never stopped again.
    After the teardown [stopProxy] for this identity changes nothing, and
    another watcher of the same identity that receives such an event
    removes nothing and stops nothing: the identity is absent, so the stop
    call is skipped. *)
Theorem C2_teardown_idempotent c i t p event stopErr :
  reachable c →
  tasks c !! i = Some t → t_pc t = TaskWatch →
  proxies (dw c) !! t_containerID t = Some p →
  Action event ∈ ["stop"; "die"; "kill"] →
  ∃ c' h,
    step (TaskSelects i (EventRecv event) stopErr) c = Next c' ∧
    p = Some h ∧
    proxies (dw c') !! t_containerID t = None ∧
    proxies (dw c') = delete (t_containerID t) (proxies (dw c)) ∧
    (Some h ∉ (stops (trace (dw c))).*1) ∧
    stops (trace (dw c')) = stops (trace (dw c)) ++ [(Some h, stopErr)] ∧
    tasks c' = delete i (tasks c) ∧
    (∀ ls c'', run ls c' = Next c'' →
       (Some h, stopErr) ∈ stops (trace (dw c'')) ∧
       NoDup (stops (trace (dw c''))).*1) ∧
    (∀ stopErr', stopProxy (dw c') (t_containerID t) stopErr' = Some (dw c')) ∧
    (∀ j t' event' stopErr',
       tasks c' !! j = Some t' → t_pc t' = TaskWatch →
       t_containerID t' = t_containerID t →
       Action event' ∈ ["stop"; "die"; "kill"] →
       ∃ c'', step (TaskSelects j (EventRecv event') stopErr') c' = Next c'' ∧
              proxies (dw c'') = proxies (dw c') ∧
              stops (trace (dw c'')) = stops (trace (dw c'))).
Proof.
  intros Hc Hi Hpc Hp Hev.
  destruct (watch_terminal_event c i t Hc Hi Hpc event stopErr p Hev Hp)
    as (c' & h & Hstep & -> & Hreg & Hstops & _ & Htasks & _).
  assert (proxies (dw c') !! t_containerID t = None) as Hgone
    by (rewrite Hreg; apply lookup_delete_eq).
  assert (reachable c') as Hc' by (by eapply reachable_step).
  exists c', h. split; [done|]. split; [done|]. split; [done|]. split; [done|].
  split; [by eapply registered_not_stopped|]. split; [done|]. split; [done|].
  split; [|split].
  - intros ls c'' Hrun. split.
    + eapply elem_of_prefix; [|eapply run_stops; [by apply reachable_Inv|done]].
      rewrite Hstops. apply elem_of_app. right. left.
    + by apply stopped_once, (reachable_run ls c').
  - intros stopErr'. by apply stopProxy_absent.
  - intros j t' event' stopErr' Hj Hpc' Hid Hev'.
    rewrite <-Hid in Hgone.
    destruct (watch_terminal_event_absent c' j t' Hc' Hj Hpc' event' stopErr' Hev' Hgone)
      as (c'' & Hstep' & Hreg' & Hstops' & _).
    by exists c''.
Qed.

Lemma C2_teardown_idempotent_witness :
  ∃ c',
    step (TaskSelects 0 (EventRecv (sample_event "stop")) None) (after sample_watching)
    = Next c' ∧
    proxies (dw c') !! sample_id = None ∧
    stops (trace (dw c')) = [(Some 0, None)] ∧
    stopProxy (dw c') sample_id None = Some (dw c').
Proof.
  destruct (C2_teardown_idempotent (after sample_watching) 0
              {| t_containerID := sample_id; t_nodeName := "app";
                 t_proxy := Some 0; t_pc := TaskWatch |}
              (Some 0) (sample_event "stop") None)
    as (c' & h & Hstep & Hh & Hgone & _ & _ & Hstops & _ & _ & Hagain & _).
  - apply reachable_after.
  - vm_compute. reflexivity.
  - reflexivity.
  - vm_compute. reflexivity.
  - left.
  - exists c'. injection Hh as <-. split; [exact Hstep|]. split; [exact Hgone|].
    split; [exact Hstops|]. apply Hagain.
Defined.

(** C7, as the code has it.  The stop watcher of a container tears down
    (removes the identity from the registry and stops the proxy) and
    returns on a stop, die or kill event.  When its event stream ends (the
    error channel yields an error or is closed) it returns without
    teardown: the registry and the proxies are as before, and the error is
    logged when there is one and the watcher is not cancelled.  On
    cancellation it returns without teardown too.  Any other event leaves
    it waiting. *)
Theorem C7_watcher_exits c i t :
  reachable c → tasks c !! i = Some t → t_pc t = TaskWatch →
  (∀ event stopErr p,
     Action event ∈ ["stop"; "die"; "kill"] →
     proxies (dw c) !! t_containerID t = Some p →
     ∃ c', step (TaskSelects i (EventRecv event) stopErr) c = Next c' ∧
           proxies (dw c') = delete (t_containerID t) (proxies (dw c)) ∧
           stops (trace (dw c')) = stops (trace (dw c)) ++ [(p, stopErr)] ∧
           tasks c' = delete i (tasks c)) ∧
  (∀ err stopErr,
     ∃ c', step (TaskSelects i (ErrRecv err) stopErr) c = Next c' ∧
           proxies (dw c') = proxies (dw c) ∧
           stops (trace (dw c')) = stops (trace (dw c)) ∧
           tasks c' = delete i (tasks c) ∧
           trace (dw c') =
             trace (dw c) ++
             match err with
             | Some e => if ctxDone (dw c) then []
                         else [Log (LogWatchError (substring 0 12 (t_containerID t)) e)]
             | None => []
             end) ∧
  (∀ stopErr,
     ctxDone (dw c) = true →
     ∃ c', step (TaskSelects i CtxDone stopErr) c = Next c' ∧
           proxies (dw c') = proxies (dw c) ∧ trace (dw c') = trace (dw c) ∧
           tasks c' = delete i (tasks c)) ∧
  (∀ event stopErr,
     Action event ∉ ["stop"; "die"; "kill"] →
     step (TaskSelects i (EventRecv event) stopErr) c = Next c).
Proof.
  intros Hc Hi Hpc. split; [|split; [|split]];
    [| | |intros event stopErr; by apply (watch_other_event c i t)].
  - intros event stopErr p Hev Hp.
    destruct (watch_terminal_event c i t Hc Hi Hpc event stopErr p Hev Hp)
      as (c' & h & Hstep & -> & Hreg & Hstops & _ & Htasks & _).
    by exists c'.
  - intros err stopErr.
    destruct (watch_stream_end c i t Hc Hi Hpc err stopErr)
      as (c' & Hstep & Hreg & Hstops & _ & Htasks & _ & Htrace).
    by exists c'.
  - intros stopErr Hdone.
    destruct (watch_cancelled c i t Hc Hi Hpc stopErr Hdone)
      as (c' & Hstep & Hreg & Htrace & Htasks & _).
    by exists c'.
Qed.

Lemma C7_watcher_exits_witness :
  ∃ c',
    step (TaskSelects 0 (ErrRecv (Some "unexpected EOF")) None) (after sample_watching)
    = Next c' ∧
    proxies (dw c') = proxies (dw (after sample_watching)) ∧
    stops (trace (dw c')) = stops (trace (dw (after sample_watching))).
Proof.
  destruct (C7_watcher_exits (after sample_watching) 0
              {| t_containerID := sample_id; t_nodeName := "app";
                 t_proxy := Some 0; t_pc := TaskWatch |}) as (_ & Hend & _).
  { apply reachable_after. }
  { vm_compute. reflexivity. }
  { reflexivity. }
  destruct (Hend (Some "unexpected EOF") None) as (c' & Hstep & Hreg & Hstops & _).
  exists c'. split; [exact Hstep|]. split; [exact Hreg|exact Hstops].
Defined.

(** C7, as the claim has it, fails: a watcher that is not cancelled and
    whose stream ends returns, and the identity is still registered, its
    proxy was not stopped, and no watcher is left for it. *)
Lemma C7_stream_end_counterexample :
  let t := {| t_containerID := sample_id; t_nodeName := "app";
              t_proxy := Some 0; t_pc := TaskWatch |} in
  let ended := TaskSelects 0 (ErrRecv (Some "unexpected EOF")) None in
  let c' := after (sample_watching ++ [ended]) in
  tasks (after sample_watching) !! 0 = Some t ∧
  ctxDone (dw (after sample_watching)) = false ∧
  proxies (dw (after sample_watching)) !! sample_id = Some (Some 0) ∧
  step ended (after sample_watching) = Next c' ∧
  proxies (dw c') !! sample_id = Some (Some 0) ∧
  stops (trace (dw c')) = [] ∧
  tasks c' = [].
Proof. intros t ended c'. split_and!; vm_compute; reflexivity. Qed.

(** ** The event loop and the registry *)

Section loop.


(** With at least twelve bytes of identity the resolution does not
    panic. *)
Lemma resolveLabels_total network containerID inspect :
  (12 ≤ String.length containerID)%nat →
  is_Some (resolveLabels network containerID inspect).
Proof.
  intros Hlen. unfold resolveLabels. rewrite (slice_to_Some 12 _ Hlen).
  destruct (Labels inspect !! labelEnabled) as [v|]; [|done].
  destruct (negb _); [done|].
  destruct (String.eqb (index (Labels inspect) labelPort) "");
    [destruct (String.eqb (getLowestExposedPort _) "")|]; cbn; try done;
    destruct (String.eqb (index (Labels inspect) labelNodeName) ""); by cbn.
Qed.



(** A successful [proxy.Start()]: the proxy is registered, the
    goroutine goes on to watch. *)
Lemma start_ok c i t :
  tasks c !! i = Some t → t_pc t = TaskStart →
  (12 ≤ String.length (t_containerID t))%nat →
  step (TaskStarted i None) c
  = Next {| dw := emit [Log (LogStarted (substring 0 12 (t_containerID t)) (t_nodeName t))]
                    (set_proxies (<[t_containerID t := t_proxy t]> (proxies (dw c)))
                       (emit [ProxyStart (t_proxy t) None] (dw c)));
            main := main c; loop := loop c;
            tasks := <[i := {| t_containerID := t_containerID t;
                               t_nodeName := t_nodeName t;
                               t_proxy := t_proxy t; t_pc := TaskWatch |}]> (tasks c);
            stoppers := stoppers c |}.
Proof.
  intros Hi Hpc Hlen. cbn. rewrite Hi, Hpc. unfold proxyStarted.
  by rewrite (slice_to_Some 12 _ Hlen).
Qed.



End loop.

(** ** The claim on the registry *)




(** ** The claim on the event loop *)

(** C9, as the code has it.  The loop handles a start event itself:
    while [handleContainer] is in [ContainerInspect] the loop takes no
    case of its select, so it receives no further event, and only the
    return of the inspection moves it.  When the inspection has returned
    the loop is back in its select; what it has dispatched to a new
    goroutine is the proxy start (with the registration and the stop
    watcher after it), whose [Start] has not returned yet, and the next
    event is received without waiting for it. *)
Theorem C9_loop_dispatch c event :
  loop c = Some (LoopInspect event) →
  (∀ sel, step (LoopSelects sel) c = Disabled) ∧
  (∀ inspected c',
     step (LoopInspected inspected) c = Next c' →
     loop c' = Some LoopSelect ∧
     starts (trace (dw c')) = starts (trace (dw c)) ∧
     (tasks c' = tasks c ∨
      ∃ t, tasks c' = tasks c ++ [t] ∧ t_pc t = TaskStart ∧
           t_containerID t = ActorID event) ∧
     ∀ next, ∃ c'', step (LoopSelects (EventRecv next)) c' = Next c'').
Proof.
  intros Hloop. split.
  - intros sel. cbn. by rewrite Hloop.
  - intros inspected c'. cbn. rewrite Hloop.
    destruct (handleContainer _ _ _) as [h|] eqn:Hh; [|done]. cbn.
    destruct (logHandled _ _ _) as [w'|] eqn:Hlog; [|done]. cbn. intros [= <-].
    apply logHandled_cases in Hlog as [logs2 ->].
    split; [done|]. cbn [dw tasks]. split; [|split].
    + apply handleContainer_cases in Hh
        as [[_ [logs ->]]|(_ & _ & _ & cfg & nodeName & logs & _ & ->)]; cbn;
        by rewrite !starts_app, !starts_logs, !app_nil_r.
    + apply handleContainer_cases in Hh
        as [[Hgo _]|(_ & _ & _ & cfg & nodeName & logs & Hgo & _)];
        unfold spawned; rewrite Hgo.
      * left. by rewrite app_nil_r.
      * right. by eexists.
    + intros next. cbn.
      destruct (handleEvent next); by eexists.
Qed.

Lemma C9_loop_dispatch_witness :
  step (LoopSelects (EventRecv (sample_event "start")))
       (after (sample_listening ++ [LoopSelects (EventRecv (sample_event "start"))]))
  = Disabled.
Proof.
  refine (proj1 (C9_loop_dispatch
                   (after (sample_listening ++ [LoopSelects (EventRecv (sample_event "start"))]))
                   (sample_event "start") _) _).
  vm_compute. reflexivity.
Defined.

(** C9, as the claim has it, fails: the loop has received a start event
    and the inspection of its container has not returned; the next start
    event, for another container, cannot be received. *)
Lemma C9_inspection_stalls_loop_counterexample :
  let c := after (sample_listening ++ [LoopSelects (EventRecv (sample_event "start"))]) in
  let next := {| Type_ := "container"; Action := "start";
                 ActorID := "fedcba9876543210" |} in
  reachable c ∧
  loop c = Some (LoopInspect (sample_event "start")) ∧
  step (LoopSelects (EventRecv next)) c = Disabled ∧
  ¬ (∀ c event next, reachable c → loop c = Some (LoopInspect event) →
       ∃ c', step (LoopSelects (EventRecv next)) c = Next c').
Proof.
  intros c next.
  assert (step (LoopSelects (EventRecv next)) c = Disabled) as Hstall
    by (vm_compute; reflexivity).
  assert (loop c = Some (LoopInspect (sample_event "start"))) as Hloop
    by (vm_compute; reflexivity).
  split_and!; [apply reachable_after|done|done|].
  intros Hall.
  destruct (Hall c (sample_event "start") next (reachable_after _) Hloop) as [c' Hstep].
  rewrite Hstall in Hstep. discriminate Hstep.
Qed.

(** ** Shutdown *)

Section shutdown.

(** [Stop] up to the drain of the registry. *)
Lemma stop_drains c :
  main c = Running ∨ main c = Created →
  run [StopCancel; StopDrain] c
  = Next {| dw := set_proxies ∅ (emit [Cancel] (set_ctxDone (dw c)));
            main := StopDrained; loop := loop c; tasks := tasks c;
            stoppers := (map_to_list (proxies (dw c))).*2 |}.
Proof. intros [Hm|Hm]; cbn; by rewrite Hm. Qed.

(** The stop goroutines run, one after the other. *)
Lemma run_stoppers errs c :
  length errs = length (stoppers c) →
  ∃ c', run (StopperRuns 0 <$> errs) c = Next c' ∧
        stoppers c' = [] ∧ main c' = main c ∧ loop c' = loop c ∧ tasks c' = tasks c ∧
        proxies (dw c') = proxies (dw c) ∧ wg (dw c') = wg (dw c) ∧
        client (dw c') = client (dw c) ∧
        stops (trace (dw c')) = stops (trace (dw c)) ++ zip (stoppers c) errs.
Proof.
  revert c. induction errs as [|e errs IH]; intros c Hlen.
  - destruct (stoppers c) eqn:Hs; [|done]. exists c. cbn. by rewrite Hs, app_nil_r.
  - destruct (stoppers c) as [|p ps] eqn:Hs; [done|].
    cbn [fmap list_fmap]. rewrite run_cons. cbn [step]. rewrite Hs. cbn [lookup list_lookup].
    set (c1 := {| main := main c |}).
    destruct (IH c1) as (c' & Hrun & Hnil & Hmain & Hloop & Htasks & Hreg & Hwg & Hcl & Hst).
    { unfold c1. cbn in *. lia. }
    exists c'. split; [done|].
    rewrite Hnil, Hmain, Hloop, Htasks, Hreg, Hwg, Hcl, Hst. unfold c1. cbn.
    split_and!; try done; destruct e; cbn; try done;
      rewrite !stops_app; cbn; by rewrite ?app_nil_r, <-(assoc_L (++)).
Qed.

(** [Stop] from the drain to [dw.wg.Wait()]. *)
Lemma stop_closes c errs :
  main c = StopDrained → client (dw c) = true →
  length errs = length (stoppers c) →
  ∃ c', run ((StopperRuns 0 <$> errs) ++ [StopClose]) c = Next c' ∧
        main c' = StopClosed ∧ loop c' = loop c ∧ tasks c' = tasks c ∧
        proxies (dw c') = proxies (dw c) ∧ wg (dw c') = wg (dw c) ∧
        stops (trace (dw c')) = stops (trace (dw c)) ++ zip (stoppers c) errs ∧
        last (trace (dw c')) = Some ClientClose.
Proof.
  intros Hm Hcl Hlen.
  destruct (run_stoppers errs c Hlen)
    as (c1 & Hrun & Hnil & Hmain & Hloop & Htasks & Hreg & Hwg & Hcl1 & Hst).
  rewrite run_app, Hrun. cbn. unfold Stop_close. rewrite Hmain, Hm, Hnil, Hcl1, Hcl.
  eexists. split; [done|]. cbn.
  rewrite stops_app, app_nil_r, last_snoc. done.
Qed.





End shutdown.

(** ** The claim on shutdown *)




Example shutdown_nothing_registered :
  let c := after [StopCancel; StopDrain; StopClose; StopWaited] in
  main c = Stopped ∧ trace (dw c) = [Cancel; ClientClose] ∧ stoppers c = [].
Proof. intros c. split_and!; vm_compute; reflexivity. Qed.

Example shutdown_complete :
  let c := after (sample_watching ++
                  [StopCancel; StopDrain; StopperRuns 0 None; StopClose;
                   TaskSelects 0 CtxDone None; LoopSelects CtxDone; StopWaited]) in
  main c = Stopped ∧ proxies (dw c) = ∅ ∧ tasks c = [] ∧ loop c = None ∧
  stops (trace (dw c)) = [(Some 0, None)].
Proof. intros c. split_and!; vm_compute; reflexivity. Qed.

(** A proxy still starting when [Stop] drains is registered after the
    drain: it is not among the drained ones and [Stop] does not stop it. *)
Example start_during_shutdown :
  let c := after (sample_listening ++
                  [LoopSelects (EventRecv (sample_event "start"));
                   LoopInspected (inl sample_inspect);
                   StopCancel; StopDrain; StopClose;
                   TaskStarted 0 None; TaskSelects 0 CtxDone None;
                   LoopSelects CtxDone; StopWaited]) in
  main c = Stopped ∧ proxies (dw c) !! sample_id = Some (Some 0) ∧
  stops (trace (dw c)) = [].
Proof. intros c. split_and!; vm_compute; reflexivity. Qed.

(** * Further properties *)

(** ** Decimal port numbers *)

Section decimal.

Lemma digit_pretty_N_char d : (d < 10)%N → digit (pretty_N_char d) = Some d.
Proof.
  intros Hd.
  assert (d = 0 ∨ d = 1 ∨ d = 2 ∨ d = 3 ∨ d = 4 ∨ d = 5 ∨ d = 6 ∨ d = 7 ∨ d = 8 ∨ d = 9)%N
    as Hcases by lia.
  repeat (destruct Hcases as [->|Hcases]; [done|]). by subst d.
Qed.

Lemma pretty_N_char_no_slash d : Ascii.eqb (pretty_N_char d) "/" = false.
Proof. unfold pretty_N_char. by repeat case_match. Qed.

(** Reading back the digits that [pretty] puts in front of [s]. *)
Lemma digits_pretty_N_go x s :
  ∃ k : N, ∀ acc, digits acc (pretty_N_go x s) = digits (acc * 10 ^ k + x) s.
Proof.
  revert s. induction (N.lt_wf_0 x) as [x _ IH]; intros s.
  destruct (decide (x = 0)%N) as [->|Hx].
  - exists 0%N. intros acc. rewrite pretty_N_go_0. f_equal. lia.
  - rewrite pretty_N_go_step by lia.
    destruct (IH (x `div` 10)%N) with (s := String (pretty_N_char (x `mod` 10)) s)
      as [k Hk]; [apply N.div_lt; lia|].
    exists (k + 1)%N. intros acc. rewrite Hk. cbn [digits].
    rewrite digit_pretty_N_char by (apply N.mod_lt; lia). f_equal.
    rewrite N.pow_add_r. pose proof (N.div_mod x 10 ltac:(lia)). lia.
Qed.

Lemma before_pretty_N_go x s :
  before "/" (pretty_N_go x s) = pretty_N_go x (before "/" s).
Proof.
  revert s. induction (N.lt_wf_0 x) as [x _ IH]; intros s.
  destruct (decide (x = 0)%N) as [->|Hx]; [by rewrite !pretty_N_go_0|].
  rewrite !(pretty_N_go_step x) by lia. rewrite (IH (x `div` 10)%N); [|apply N.div_lt; lia].
  cbn [before]. by rewrite pretty_N_char_no_slash.
Qed.

(** [strconv.ParseUint] reads back what [strconv.Itoa] prints. *)
Lemma ParseUint16_Itoa (n : N) :
  (n ≤ 65535)%N → ParseUint16 (Itoa (Z.of_N n)) = Some n.
Proof.
  intros Hn. unfold Itoa, pretty, pretty_Z. destruct n as [|p]; [done|]. cbn [Z.of_N].
  unfold pretty, pretty_positive, pretty, pretty_N. rewrite decide_False by done.
  unfold ParseUint16.
  destruct (pretty_N_go (N.pos p) "") eqn:Hs.
  { destruct (pretty_N_nonempty (N.pos p)). unfold pretty, pretty_N.
    by rewrite decide_False. }
  rewrite <-Hs. destruct (digits_pretty_N_go (N.pos p) "") as [k Hk].
  rewrite Hk. cbn [digits]. replace (0 * 10 ^ k + N.pos p)%N with (N.pos p) by lia.
  by rewrite (proj2 (N.leb_le _ _) Hn).
Qed.

Lemma before_Itoa (n : N) : before "/" (Itoa (Z.of_N n)) = Itoa (Z.of_N n).
Proof.
  unfold Itoa, pretty, pretty_Z. destruct n as [|p]; [done|]. cbn [Z.of_N].
  unfold pretty, pretty_positive, pretty, pretty_N. rewrite decide_False by done.
  by rewrite before_pretty_N_go.
Qed.

(** A port number is a 16-bit unsigned number. *)
Lemma Port_Int_range p : (0 ≤ Port_Int p ≤ 65535)%Z.
Proof.
  unfold Port_Int, ParseUint16. destruct (before "/" p); [lia|].
  destruct (digits _ _) as [n|]; [|lia].
  destruct (N.leb_spec n 65535); lia.
Qed.

Lemma Port_Int_Itoa m : (0 ≤ m ≤ 65535)%Z → Port_Int (Itoa m) = m.
Proof.
  intros Hm. rewrite <-(Z2N.id m) by lia. unfold Port_Int.
  rewrite before_Itoa, ParseUint16_Itoa by lia. done.
Qed.

End decimal.

(** ** [parseBoolLabel] and [getLowestExposedPort] *)

(** X1. [parseBoolLabel], whatever the default: each of the six spellings
    that [strconv.ParseBool] reads as true gives [true], each of the six it
    reads as false gives [false], and every other value, the empty one
    included, gives the default. *)
Theorem X1_parseBoolLabel_spellings value defaultVal :
  (value ∈ ["1"; "t"; "T"; "true"; "TRUE"; "True"] →
   parseBoolLabel value defaultVal = true) ∧
  (value ∈ ["0"; "f"; "F"; "false"; "FALSE"; "False"] →
   parseBoolLabel value defaultVal = false) ∧
  (value ∉ ["1"; "t"; "T"; "true"; "TRUE"; "True";
            "0"; "f"; "F"; "false"; "FALSE"; "False"] →
   parseBoolLabel value defaultVal = defaultVal).
Proof.
  split_and!.
  - intros Hv. repeat (apply elem_of_cons in Hv as [->|Hv]; [done|]).
    by apply elem_of_nil in Hv.
  - intros Hv. repeat (apply elem_of_cons in Hv as [->|Hv]; [done|]).
    by apply elem_of_nil in Hv.
  - intros Hv. unfold parseBoolLabel, ParseBool.
    destruct (String.eqb value ""); [done|].
    case_bool_decide as Ht.
    { destruct Hv. apply (proj2 (elem_of_app [_; _; _; _; _; _] _ _)). by left. }
    case_bool_decide as Hf; [|done].
    destruct Hv. apply (proj2 (elem_of_app [_; _; _; _; _; _] _ _)). by right.
Qed.

(** X2. The flag labels are read with the case of their letters, the
    enablement label without: of the spellings of "true" that the
    enablement test of [handleContainer] accepts, only "true", "TRUE" and
    "True" set a flag; any other one ("tRUE", "trUe", ...) leaves the
    default. *)
Theorem X2_flag_case_sensitive value defaultVal :
  String.eqb (ToLower value) "true" = true →
  (value ∈ ["true"; "TRUE"; "True"] → parseBoolLabel value defaultVal = true) ∧
  (value ∉ ["true"; "TRUE"; "True"] → parseBoolLabel value defaultVal = defaultVal).
Proof.
  intros Hlow. split.
  - intros Hv. repeat (apply elem_of_cons in Hv as [->|Hv]; [done|]).
    by apply elem_of_nil in Hv.
  - intros Hv. unfold parseBoolLabel, ParseBool.
    destruct (String.eqb_spec value "") as [->|_]; [done|].
    case_bool_decide as Ht.
    { destruct Hv.
      repeat (apply elem_of_cons in Ht as [->|Ht]; [done || by repeat constructor|]).
      by apply elem_of_nil in Ht. }
    case_bool_decide as Hf; [|done].
    repeat (apply elem_of_cons in Hf as [->|Hf]; [done|]).
    by apply elem_of_nil in Hf.
Qed.

Lemma X2_flag_case_sensitive_witness :
  String.eqb (ToLower "tRUE") "true" = true ∧ parseBoolLabel "tRUE" true = true ∧
  parseBoolLabel "tRUE" false = false.
Proof.
  split; [reflexivity|]. split.
  - apply (X2_flag_case_sensitive "tRUE" true); [reflexivity|].
    intros Hv. repeat (apply elem_of_cons in Hv as [Hv|Hv]; [discriminate Hv|]).
    by apply elem_of_nil in Hv.
  - apply (X2_flag_case_sensitive "tRUE" false); [reflexivity|].
    intros Hv. repeat (apply elem_of_cons in Hv as [Hv|Hv]; [discriminate Hv|]).
    by apply elem_of_nil in Hv.
Defined.

(** X3. A port that [getLowestExposedPort] detects is the decimal, as
    [strconv.Itoa] prints it, of the lowest positive port number among the
    exposed ports; that number is between 1 and 65535, and the detected
    string read as a port ([nat.Port.Int]) is that number again. *)
Theorem X3_detected_port_round_trip exposedPorts :
  getLowestExposedPort exposedPorts ≠ "" →
  ∃ m, lowest_port m exposedPorts ∧ (1 ≤ m ≤ 65535)%Z ∧
       getLowestExposedPort exposedPorts = Itoa m ∧
       Port_Int (getLowestExposedPort exposedPorts) = m ∧
       getLowestExposedPort [getLowestExposedPort exposedPorts]
       = getLowestExposedPort exposedPorts.
Proof.
  intros Hne.
  assert (∃ m, lowest_port m exposedPorts) as [m Hm].
  { unfold getLowestExposedPort in Hne.
    destruct (length exposedPorts =? 0)%nat; [done|].
    destruct (length _ =? 0)%nat; [done|].
    destruct (sortInts _) as [|lowest rest] eqn:Hs; [done|].
    apply sortInts_head in Hs as [Hin Hle]. exists lowest.
    apply list_elem_of_filter in Hin as [Hpos Hin]. split; [done|]. split; [done|].
    intros n Hn Hn0. apply Hle. by apply list_elem_of_filter. }
  assert (1 ≤ m ≤ 65535)%Z as Hrange.
  { destruct Hm as (Hpos & Hin & _). apply list_elem_of_fmap in Hin as (p & -> & _).
    pose proof (Port_Int_range p). lia. }
  exists m. rewrite (getLowestExposedPort_lowest m exposedPorts Hm).
  assert (Port_Int (Itoa m) = m) as Hback by (apply Port_Int_Itoa; lia).
  split; [done|]. split; [done|]. split; [done|]. split; [done|].
  apply getLowestExposedPort_lowest. unfold lowest_port. cbn. rewrite Hback.
  split; [lia|]. split; [left|].
  intros n Hn _. apply list_elem_of_singleton in Hn as ->. lia.
Qed.

Lemma X3_detected_port_round_trip_witness :
  ∃ m, lowest_port m ["8080/tcp"; "80/tcp"] ∧ (1 ≤ m ≤ 65535)%Z ∧
       getLowestExposedPort ["8080/tcp"; "80/tcp"] = Itoa m ∧
       Port_Int (getLowestExposedPort ["8080/tcp"; "80/tcp"]) = m ∧
       getLowestExposedPort [getLowestExposedPort ["8080/tcp"; "80/tcp"]]
       = getLowestExposedPort ["8080/tcp"; "80/tcp"].
Proof. apply (X3_detected_port_round_trip ["8080/tcp"; "80/tcp"]). vm_compute. discriminate. Defined.

(** Nothing is detected exactly when no exposed port has a number above
    zero. *)
Lemma getLowestExposedPort_empty exposedPorts :
  getLowestExposedPort exposedPorts = "" ↔
  Forall (λ p, Port_Int p = 0%Z) exposedPorts.
Proof.
  split.
  - intros Hnone. apply Forall_forall. intros p Hp.
    pose proof (Port_Int_range p) as Hrange.
    destruct (decide (Port_Int p = 0%Z)) as [|Hpos]; [done|]. exfalso.
    unfold getLowestExposedPort in Hnone.
    destruct exposedPorts as [|q qs]; [by apply elem_of_nil in Hp|].
    cbn [length Nat.eqb] in Hnone.
    assert (Port_Int p ∈ filter (λ portNum, 0 < portNum)%Z (Port_Int <$> q :: qs)) as Hin.
    { apply list_elem_of_filter. split; [lia|]. apply list_elem_of_fmap. by exists p. }
    destruct (filter _ _) as [|n ns] eqn:Hf; [by apply elem_of_nil in Hin|].
    cbn [length Nat.eqb] in Hnone.
    destruct (sortInts (n :: ns)) as [|lowest rest] eqn:Hs.
    + by apply sortInts_nil in Hs.
    + by apply Itoa_nonempty in Hnone.
  - intros Hall. apply getLowestExposedPort_none. intros n Hn.
    apply list_elem_of_fmap in Hn as (p & -> & Hp).
    eapply Forall_forall in Hall; [|done]. lia.
Qed.


(** X4. [getLowestExposedPort] returns the empty string exactly when no
    exposed port has a number above zero: for an empty port set, and as
    well for a set that holds only ports whose number does not parse as a
    16-bit decimal (a port range, a number above 65535) or is 0. *)
Theorem X4_no_port_detected exposedPorts :
  getLowestExposedPort exposedPorts = "" ↔
  Forall (λ p, Port_Int p = 0%Z) exposedPorts.
Proof. apply getLowestExposedPort_empty. Qed.

(** X5. With an identity of at least twelve bytes, [handleContainer]
    takes its no-port exit (one log line, [nil] returned, no proxy made,
    no goroutine) exactly for a container that is enabled, has no
    [webtail.port] label or an empty one, and exposes no port with a
    number above zero. *)
Theorem X5_no_port_outcome network containerID inspect :
  (12 ≤ String.length containerID)%nat →
  (∃ logs, resolveLabels network containerID inspect = Some (NoPort logs)) ↔
  enabled inspect ∧ index (Labels inspect) labelPort = "" ∧
  Forall (λ p, Port_Int p = 0%Z) (ExposedPorts inspect).
Proof.
  intros Hlen. rewrite <-getLowestExposedPort_empty. split.
  - intros [logs Hres]. unfold resolveLabels in Hres.
    destruct (Labels inspect !! labelEnabled) as [v|] eqn:Hv; [|done].
    rewrite ToLower_true in Hres.
    destruct (EqualFold v "true") eqn:Hf; [|done]. cbn [negb] in Hres.
    split; [by exists v|].
    rewrite (slice_to_Some 12 _ Hlen) in Hres.
    destruct (String.eqb_spec (index (Labels inspect) labelPort) "") as [Hp|Hp].
    + split; [done|].
      destruct (String.eqb_spec (getLowestExposedPort (ExposedPorts inspect)) "");
        [done|]. cbn in Hres.
      by destruct (String.eqb (index (Labels inspect) labelNodeName) "").
    + cbn in Hres. by destruct (String.eqb (index (Labels inspect) labelNodeName) "").
  - intros (Hen & Hp & Hnone). eexists.
    by apply resolveLabels_no_port.
Qed.

Lemma X5_no_port_outcome_witness :
  let inspect := {| Name := "/web"; Labels := {[ labelEnabled := "true" ]};
                    ExposedPorts := ["8000-8010/tcp"; "0/tcp"] |} in
  ∃ logs, resolveLabels "net" sample_id inspect = Some (NoPort logs).
Proof.
  intros inspect. apply (X5_no_port_outcome "net" sample_id inspect).
  - vm_compute. lia.
  - split; [exists "true"; split; reflexivity|]. split; [reflexivity|].
    repeat constructor.
Defined.

(** ** [handleContainer] and its callers *)

Section handling.

Lemma slice_to_None (n : nat) (s : string) : (String.length s < n)%nat → slice_to n s = None.
Proof.
  unfold slice_to. intros H. by rewrite (proj2 (Nat.leb_gt _ _) H).
Qed.

Lemma enabled_dec inspect : enabled inspect ∨ ¬ enabled inspect.
Proof.
  unfold enabled. destruct (Labels inspect !! labelEnabled) as [v|] eqn:Hv.
  - destruct (EqualFold v "true") eqn:Hf; [left; by exists v|].
    right. intros (v' & Hv' & Hf'). congruence.
  - right. by intros (v' & Hv' & _).
Qed.

(** With at least twelve bytes of identity neither [handleContainer] nor
    the log line of its caller panics. *)
Lemma handleContainer_total w containerID r :
  (12 ≤ String.length containerID)%nat → is_Some (handleContainer w containerID r).
Proof.
  intros Hlen. unfold handleContainer. destruct r as [inspect|err]; [|done].
  destruct (resolveLabels_total (dockerNetwork w) containerID inspect Hlen)
    as [[|logs|r logs] ->]; cbn; [done|done|].
  rewrite (slice_to_Some 12 _ Hlen). by destruct (proxies w !! containerID).
Qed.

Lemma logHandled_total mk containerID h :
  (12 ≤ String.length containerID)%nat → is_Some (logHandled mk containerID h).
Proof.
  intros Hlen. unfold logHandled. rewrite (slice_to_Some 12 _ Hlen).
  by destruct (h_err h).
Qed.

(** With a shorter identity [handleContainer] panics for the enabled
    containers, at the first log line that slices the identity, and for
    no other. *)
Lemma handleContainer_short w containerID inspect :
  (String.length containerID < 12)%nat →
  handleContainer w containerID (inl inspect) = None ↔ enabled inspect.
Proof.
  intros Hlen. split.
  - intros Hnone. destruct (enabled_dec inspect) as [|Hne]; [done|].
    by rewrite (handleContainer_not_enabled w containerID inspect Hne) in Hnone.
  - intros (v & Hv & Hf). unfold handleContainer, resolveLabels.
    rewrite Hv, ToLower_true, Hf, (slice_to_None 12 _ Hlen). cbn [negb].
    destruct (String.eqb (index (Labels inspect) labelPort) "");
      [by destruct (String.eqb (getLowestExposedPort _) "")|]. cbn.
    destruct (String.eqb (index (Labels inspect) labelNodeName) ""); cbn; [done|].
    by destruct (proxies w !! containerID).
Qed.

(** The call and the log line of the caller, together. *)
Lemma handled_panics w containerID r mk :
  (h ← handleContainer w containerID r; logHandled mk containerID h) = None ↔
  (String.length containerID < 12)%nat ∧
  match r with inl inspect => enabled inspect | inr _ => True end.
Proof.
  destruct (Nat.le_gt_cases 12 (String.length containerID)) as [Hlen|Hlen].
  - destruct (handleContainer_total w containerID r Hlen) as [h ->]. cbn.
    destruct (logHandled_total mk containerID h Hlen) as [w' ->].
    split; [done|]. intros [? _]. lia.
  - destruct r as [inspect|err].
    + destruct (enabled_dec inspect) as [Hen|Hne].
      * rewrite (proj2 (handleContainer_short w containerID inspect Hlen) Hen). done.
      * rewrite (handleContainer_not_enabled w containerID inspect Hne). cbn.
        split; [done|]. by intros [_ ?].
    + cbn. unfold logHandled. cbn. rewrite (slice_to_None 12 _ Hlen). done.
Qed.

(** What one call of [handleContainer] does, whatever the inspection
    returned. *)
Lemma handleContainer_summary w containerID r :
  (12 ≤ String.length containerID)%nat →
  ∃ h logs,
    handleContainer w containerID r = Some h ∧
    (is_Some (h_err h) ↔ ∃ err, r = inr err) ∧
    (is_Some (h_go h) ↔
     eligible (dockerNetwork w) containerID r = true ∧ proxies w !! containerID = None) ∧
    proxies (h_dw h) = proxies w ∧
    trace (h_dw h) = trace w ++ (Log <$> logs) ∧
    wg (h_dw h) = wg w + length (spawned h) ∧
    length (made (h_dw h)) = length (made w) + length (spawned h) ∧
    ctxDone (h_dw h) = ctxDone w ∧ client (h_dw h) = client w ∧
    dockerNetwork (h_dw h) = dockerNetwork w ∧
    ∀ t, h_go h = Some t →
         t_containerID t = containerID ∧ t_pc t = TaskStart ∧
         t_proxy t = Some (length (made w)).
Proof.
  intros Hlen. unfold handleContainer, eligible, spawned. destruct r as [inspect|err].
  - destruct (resolveLabels_total (dockerNetwork w) containerID inspect Hlen)
      as [[|logs|r logs] ->]; cbn.
    + eexists _, []. split; [done|]. cbn. rewrite app_nil_r.
      split_and!; try done; try lia.
      * split; [by intros [? ?]|by intros [? [=]]].
      * split; [by intros [? ?]|by intros [? ?]].
    + eexists _, logs. split; [done|]. cbn.
      split_and!; try done; try lia.
      * split; [by intros [? ?]|by intros [? [=]]].
      * split; [by intros [? ?]|by intros [? ?]].
    + rewrite (slice_to_Some 12 _ Hlen).
      destruct (proxies w !! containerID) as [p|] eqn:Hp; cbn.
      * eexists _, (logs ++ [_]). split; [done|]. cbn. rewrite fmap_app, (assoc_L (++)).
        split_and!; try done; try lia.
        -- split; [by intros [? ?]|by intros [? [=]]].
        -- split; [by intros [? ?]|by intros [_ ?]].
      * eexists _, (logs ++ [_]). split; [done|]. cbn.
        rewrite fmap_app, (assoc_L (++)), length_app. cbn.
        split_and!; try done; try lia.
        -- split; [by intros [? ?]|by intros [? [=]]].
        -- by intros t [= <-].
  - eexists _, []. split; [done|]. cbn. rewrite app_nil_r.
    split_and!; try done; try lia.
    + split; [by eexists|by eexists].
    + split; [by intros [? ?]|by intros [? ?]].
Qed.

End handling.

(** ** Panics *)

(** X6. The panics of the watcher.  In a reachable configuration a step
    panics in one case only: [handleContainer] is called, by the scan or
    by the loop, for an identity shorter than twelve bytes, and either the
    inspection failed (the caller's log line slices [ID[:12]]) or the
    container is enabled (the first log line of [handleContainer] slices
    [containerID[:12]]).  A container that is not enabled is skipped
    without a panic whatever its identity; no goroutine of
    [handleContainer], no stop goroutine and no [dw.wg.Done()] ever
    panics. *)
Theorem X6_panics c l :
  reachable c →
  step l c = Crash ↔
  ∃ containerID r,
    handles l c = Some (containerID, r) ∧
    (String.length containerID < 12)%nat ∧
    match r with inl inspect => enabled inspect | inr _ => True end.
Proof.
  intros Hc. pose proof (reachable_Inv c Hc) as [[Hwg _ _ _ _] _ _ _].
  destruct l; cbn [handles step].
  - split; [by destruct (main c)|by intros (? & ? & [=] & _)].
  - split; [destruct (main c); try done; by destruct r|by intros (? & ? & [=] & _)].
  - destruct (main c) as [| |[|containerID ids]| | | | |];
      try (split; [done|by intros (? & ? & [=] & _)]).
    pose proof (handled_panics (dw c) containerID r LogExistingError) as Hp.
    destruct (handleContainer _ _ _) as [h|]; cbn in *;
      [destruct (logHandled _ _ _) as [w'|]; cbn in *|].
    + split; [done|]. intros (? & ? & [= <- <-] & Hlen & Hen).
      discriminate (proj2 Hp (conj Hlen Hen)).
    + split; [|done]. intros _. exists containerID, r. split; [done|]. by apply Hp.
    + split; [|done]. intros _. exists containerID, r. split; [done|]. by apply Hp.
  - split; [|by intros (? & ? & [=] & _)].
    by destruct (main c) as [| |[|containerID ids]| | | | |].
  - split; [by destruct (main c)|by intros (? & ? & [=] & _)].
  - split; [by destruct (main c)|by intros (? & ? & [=] & _)].
  - split; [|by intros (? & ? & [=] & _)].
    destruct (main c); try done. by destruct (stoppers c).
  - split; [|by intros (? & ? & [=] & _)].
    destruct (main c); try done. by destruct (wg (dw c)).
  - split; [|by intros (? & ? & [=] & _)]. by destruct (loop c) as [[| |event]|].
  - split; [|by intros (? & ? & [=] & _)].
    destruct (loop c) as [[| |event]|] eqn:Hloop; try done.
    unfold loop_live in Hwg. rewrite Hloop in Hwg.
    destruct sel as [|err|event].
    + destruct (ctxDone (dw c)); [|done]. unfold wgDone. cbn. by rewrite Hwg.
    + unfold wgDone. destruct err as [e|]; [destruct (ctxDone (dw c))|]; cbn;
        by rewrite Hwg.
    + by destruct (handleEvent event).
  - destruct (loop c) as [[| |event]|];
      try (split; [done|by intros (? & ? & [=] & _)]).
    pose proof (handled_panics (dw c) (ActorID event) r LogHandleError) as Hp.
    destruct (handleContainer _ _ _) as [h|]; cbn in *;
      [destruct (logHandled _ _ _) as [w'|]; cbn in *|].
    + split; [done|]. intros (? & ? & [= <- <-] & Hlen & Hen).
      discriminate (proj2 Hp (conj Hlen Hen)).
    + split; [|done]. intros _. exists (ActorID event), r. split; [done|]. by apply Hp.
    + split; [|done]. intros _. exists (ActorID event), r. split; [done|]. by apply Hp.
  - split; [|by intros (? & ? & [=] & _)].
    destruct (tasks c !! i) as [t|] eqn:Hi; [|done].
    destruct (reachable_task c i t Hc Hi) as (Hlen & n & Hn).
    destruct (t_pc t); [|done]. unfold proxyStarted.
    rewrite (slice_to_Some 12 _ Hlen). destruct err as [e|]; cbn; [|done].
    unfold wgDone. cbn. by rewrite Hn.
  - split; [|by intros (? & ? & [=] & _)].
    destruct (tasks c !! i) as [t|] eqn:Hi; [|done].
    destruct (reachable_task c i t Hc Hi) as (Hlen & n & Hn).
    destruct (t_pc t); [done|]. unfold watchContainerStop.
    rewrite (slice_to_Some 12 _ Hlen).
    destruct sel as [|err|event].
    + destruct (ctxDone (dw c)); [|done]. unfold wgDone. by rewrite Hn.
    + unfold wgDone.
      destruct err as [e|]; [destruct (ctxDone (dw c))|]; cbn; by rewrite Hn.
    + destruct (_ || _); [|done]. cbn. unfold stopProxy. cbn.
      destruct (proxies (dw c) !! t_containerID t) as [[h|]|];
        [destruct stopErr as [e|]; [rewrite (slice_to_Some 12 _ Hlen)|]| |];
        cbn; unfold wgDone; cbn; by rewrite Hn.
  - split; [|by intros (? & ? & [=] & _)]. by destruct (stoppers c !! i).
Qed.

Lemma X6_panics_witness :
  step (StartInspected (inr "No such container"))
       (after [StartCalled; StartListed (inl ["3f2a"])]) = Crash.
Proof.
  apply (proj2 (X6_panics (after [StartCalled; StartListed (inl ["3f2a"])])
                  (StartInspected (inr "No such container")) (reachable_after _))).
  exists "3f2a", (inr "No such container").
  split; [vm_compute; reflexivity|]. split; [vm_compute; lia|exact I].
Defined.

(** ** One call of [handleContainer] *)

(** X7. One call of [handleContainer] for an identity of at least twelve
    bytes returns, whatever the inspection gave.  It returns an error
    exactly when the inspection failed.  It makes a proxy and starts a
    goroutine exactly when the container is eligible and its identity is
    not in the registry; the wait-group counter and the number of proxies
    made grow by one then, and not otherwise.  It never writes the
    registry, never cancels, and its only effects are log lines: the
    proxy is started, and registered, by the goroutine. *)
Theorem X7_handleContainer_outcomes w containerID r :
  (12 ≤ String.length containerID)%nat →
  ∃ h logs,
    handleContainer w containerID r = Some h ∧
    (is_Some (h_err h) ↔ ∃ err, r = inr err) ∧
    (is_Some (h_go h) ↔
     eligible (dockerNetwork w) containerID r = true ∧ proxies w !! containerID = None) ∧
    proxies (h_dw h) = proxies w ∧
    trace (h_dw h) = trace w ++ (Log <$> logs) ∧
    wg (h_dw h) = wg w + length (spawned h) ∧
    length (made (h_dw h)) = length (made w) + length (spawned h) ∧
    ctxDone (h_dw h) = ctxDone w ∧
    ∀ t, h_go h = Some t →
         t_containerID t = containerID ∧ t_pc t = TaskStart ∧
         t_proxy t = Some (length (made w)).
Proof.
  intros Hlen.
  destruct (handleContainer_summary w containerID r Hlen)
    as (h & logs & Hh & Herr & Hgo & Hreg & Htr & Hwg & Hmade & Hctx & _ & _ & Ht).
  by exists h, logs.
Qed.

Lemma X7_handleContainer_outcomes_witness :
  ∃ h, handleContainer (dw (init "net")) sample_id (inl sample_inspect) = Some h ∧
       is_Some (h_go h) ∧ h_err h = None ∧ wg (h_dw h) = 1 ∧ proxies (h_dw h) = ∅.
Proof.
  destruct (X7_handleContainer_outcomes (dw (init "net")) sample_id (inl sample_inspect))
    as (h & logs & Hh & Herr & Hgo & Hreg & _ & Hwg & _).
  { vm_compute. lia. }
  exists h. split; [exact Hh|].
  assert (is_Some (h_go h)) as Hsp.
  { apply Hgo. split; vm_compute; reflexivity. }
  split; [exact Hsp|]. split.
  - destruct (h_err h) as [e|] eqn:He; [|reflexivity].
    destruct (proj1 Herr (ex_intro _ e eq_refl)) as [err Habs]. discriminate Habs.
  - split; [|exact Hreg]. rewrite Hwg. unfold spawned.
    destruct Hsp as [t ->]. reflexivity.
Defined.

(** ** [Start] and the scan of the running containers *)

Section scanning.

Variable network : string.

Lemma scanning ids : ∀ rs c,
  main c = Scanning ids → dockerNetwork (dw c) = network → proxies (dw c) = ∅ →
  Forall (λ containerID, (12 ≤ String.length containerID)%nat) ids →
  length rs = length ids →
  ∃ c' new,
    run (StartInspected <$> rs) c = Next c' ∧
    main c' = Scanning [] ∧ loop c' = loop c ∧ stoppers c' = stoppers c ∧
    proxies (dw c') = ∅ ∧
    starts (trace (dw c')) = starts (trace (dw c)) ∧
    stops (trace (dw c')) = stops (trace (dw c)) ∧
    wg (dw c') = wg (dw c) + length new ∧
    tasks c' = tasks c ++ new ∧
    t_containerID <$> new = (filter (λ x, eligible network x.1 x.2) (zip ids rs)).*1 ∧
    Forall (λ t, t_pc t = TaskStart) new.
Proof.
  induction ids as [|containerID ids IH]; intros rs c Hm Hnet Hreg Hids Hlen.
  - destruct rs; [|done]. exists c, []. cbn. rewrite app_nil_r.
    split_and!; done.
  - destruct rs as [|r rs]; [done|]. apply Forall_cons in Hids as [Hid Hids].
    destruct (handleContainer_summary (dw c) containerID r Hid)
      as (h & logs & Hh & Herr & Hgo & Hreg1 & Htr & Hwg & _ & _ & _ & Hnet1 & Ht).
    destruct (logHandled_total LogExistingError containerID h Hid) as [w' Hlog].
    cbn [fmap list_fmap]. rewrite run_cons. cbn [step]. rewrite Hm, Hh. cbn. rewrite Hlog.
    cbn.
    apply logHandled_cases in Hlog as [logs2 ->].
    set (c1 := {| main := Scanning ids |}).
    destruct (IH rs c1) as (c' & new & Hrun & Hm' & Hl' & Hsp' & Hreg' & Hst' & Hsl' & Hwg'
                            & Hts' & Hnew & Hpc); [done|cbn; congruence|cbn; congruence|done
                                                  |cbn in Hlen; lia|].
    exists c', (spawned h ++ new). split; [done|].
    rewrite Hst', Hsl', Hwg', Hts'. unfold c1. cbn. rewrite Htr, !starts_app, !stops_app,
      !starts_logs, !stops_logs, !app_nil_r, Hwg, length_app, (assoc_L (++)).
    split_and!; try done; [lia|..].
    + rewrite fmap_app, Hnew. rewrite Hnet, Hreg in Hgo.
      unfold spawned. destruct (h_go h) as [t|] eqn:Hsp.
      * destruct (proj1 Hgo (mk_is_Some _ _ eq_refl)) as [He _].
        rewrite decide_True by (by rewrite He). cbn. by destruct (Ht t eq_refl) as [-> _].
      * rewrite decide_False; [done|]. intros He. apply Is_true_true in He.
        by destruct (proj2 Hgo (conj He (lookup_empty _))).
    + apply Forall_app. split; [|done]. unfold spawned.
      destruct (h_go h) as [t|]; [|done]. constructor; [|done]. by destruct (Ht t eq_refl) as (_ & ? & _).
Qed.

End scanning.

(** X8. [Start], run on a new watcher while no proxy start completes:
    whatever the inspections of the listed containers return (their
    identities have at least twelve bytes), [Start] handles every one of
    them and returns; an inspection that fails does not end the scan.  It
    leaves one goroutine, still in [proxy.Start()], for each listed
    container that is eligible, in the order of the list: [Start] waits
    for no proxy to start, and nothing is registered when it returns.  A
    failure of [ContainerList] is logged as a warning and [Start] goes on
    to subscribe and to start the loop. *)
Theorem X8_start_scans network ids rs :
  Forall (λ containerID, (12 ≤ String.length containerID)%nat) ids →
  length rs = length ids →
  (∃ c',
     run (scan ids rs) (init network) = Next c' ∧
     main c' = Running ∧ loop c' = Some LoopStart ∧
     proxies (dw c') = ∅ ∧ starts (trace (dw c')) = [] ∧
     t_containerID <$> tasks c'
     = (filter (λ x, eligible network x.1 x.2) (zip ids rs)).*1 ∧
     Forall (λ t, t_pc t = TaskStart) (tasks c') ∧
     wg (dw c') = S (length (tasks c'))) ∧
  ∀ err,
    run [StartCalled; StartListed (inr err); StartSubscribed] (init network)
    = Next {| dw := {| client := true; dockerNetwork := network; proxies := ∅;
                       ctxDone := false; wg := 1; made := [];
                       trace := [Log (LogScanFailed ("failed to list containers: " +:+ err))] |};
              main := Running; loop := Some LoopStart; tasks := []; stoppers := [] |}.
Proof.
  intros Hids Hlen. split; [|done].
  set (c0 := {| dw := dw (init network); main := Scanning ids; loop := None;
                tasks := []; stoppers := [] |}).
  destruct (scanning network ids rs c0) as (c' & new & Hrun & Hm & Hl & Hsp & Hreg & Hst & _
                                             & Hwg & Hts & Hnew & Hpc); try done.
  unfold scan. rewrite run_app.
  change (run [StartCalled; StartListed (inl ids)] (init network)) with (Next c0).
  cbn beta iota. rewrite run_app, Hrun. cbn. rewrite Hm.
  eexists. split; [done|]. cbn. rewrite Hts, Hwg. cbn.
  split_and!; try done.
Qed.

Lemma X8_start_scans_witness :
  ∃ c',
    run (scan [sample_id; "fedcba9876543210"] [inl sample_inspect; inr "No such container"])
        (init "net") = Next c' ∧
    main c' = Running ∧ t_containerID <$> tasks c' = [sample_id] ∧
    wg (dw c') = 2.
Proof.
  destruct (X8_start_scans "net" [sample_id; "fedcba9876543210"]
              [inl sample_inspect; inr "No such container"]) as [(c' & Hrun & Hm & _ & _ & _ & Hts & _ & Hwg) _].
  { repeat constructor; vm_compute; lia. }
  { reflexivity. }
  exists c'. split; [exact Hrun|]. split; [exact Hm|].
  assert (t_containerID <$> tasks c' = [sample_id]) as Hids.
  { rewrite Hts. vm_compute. reflexivity. }
  split; [exact Hids|]. rewrite Hwg.
  apply (f_equal length) in Hids. rewrite length_fmap in Hids. rewrite Hids. reflexivity.
Defined.

(** ** What the steps leave alone *)

Section frames.

Lemma handled_frame w containerID r h mk w' :
  handleContainer w containerID r = Some h →
  logHandled mk containerID h = Some w' →
  ctxDone w' = ctxDone w ∧ (h_go h = None → made w' = made w).
Proof.
  intros Hh Hlog. apply logHandled_cases in Hlog as [logs2 ->].
  apply handleContainer_cases in Hh
    as [[Hgo [logs ->]]|(_ & _ & _ & cfg & nodeName & logs & Hgo & ->)]; cbn; [done|].
  split; [done|]. by rewrite Hgo.
Qed.

Lemma proxyStarted_frame w t err w' ot :
  proxyStarted w t err = Some (w', ot) → ctxDone w' = ctxDone w ∧ made w' = made w.
Proof.
  unfold proxyStarted. destruct (slice_to 12 (t_containerID t)); [|by destruct err].
  destruct err as [e|]; cbn.
  - destruct (wgDone _) as [w1|] eqn:Hdone; [|done]. cbn. intros [= <- <-].
    by apply wgDone_inv in Hdone as (n & _ & ->).
  - by intros [= <- <-].
Qed.

Lemma watchContainerStop_frame w t sel stopErr w' ot :
  watchContainerStop w t sel stopErr = Next (w', ot) →
  ctxDone w' = ctxDone w ∧ made w' = made w.
Proof.
  unfold watchContainerStop. destruct sel as [|err|event].
  - destruct (ctxDone w) eqn:Hctx; [|done].
    destruct (wgDone w) as [w1|] eqn:Hdone; [|done]. cbn. intros [= <- <-].
    by apply wgDone_inv in Hdone as (n & _ & ->).
  - destruct (match err with Some _ => _ | None => _ end) as [w1|] eqn:Hlog; [|done].
    cbn. destruct (wgDone w1) as [w2|] eqn:Hdone; [|done]. cbn. intros [= <- <-].
    apply wgDone_inv in Hdone as (n & _ & ->). cbn.
    destruct err as [e|]; [|by simplify_eq].
    destruct (negb (ctxDone w)); [|by simplify_eq].
    destruct (slice_to 12 (t_containerID t)); [|done]. cbn in Hlog. by simplify_eq.
  - destruct (_ || _); [|by intros [= <- <-]].
    destruct (slice_to 12 (t_containerID t)) as [id12|]; [|done]. cbn.
    destruct (stopProxy _ _ _) as [w1|] eqn:Hstop; [|done]. cbn.
    destruct (wgDone w1) as [w2|] eqn:Hdone; [|done]. cbn. intros [= <- <-].
    apply wgDone_inv in Hdone as (n & _ & ->).
    by apply stopProxy_cases in Hstop as (_ & _ & ? & _ & ? & _).
Qed.

(** The context is cancelled by [Stop], and by nothing else. *)
Lemma step_cancel l c c' :
  step l c = Next c' →
  (ctxDone (dw c) = true ↔ stop_called (main c)) →
  (ctxDone (dw c') = true ↔ stop_called (main c')) ∧
  (stop_called (main c) → stop_called (main c')).
Proof.
  intros Hstep Hc. destruct l; cbn in Hstep.
  - destruct (main c) eqn:Hm; by simplify_eq.
  - destruct (main c) eqn:Hm; simplify_eq. by destruct r; simplify_eq.
  - destruct (main c) as [| |[|containerID ids]| | | | |] eqn:Hm; simplify_eq.
    destruct (handleContainer _ _ _) as [h|] eqn:Hh; [|done]. cbn in Hstep.
    destruct (logHandled _ _ _) as [w'|] eqn:Hlog; [|done]. cbn in Hstep. simplify_eq.
    destruct (handled_frame _ _ _ _ _ _ Hh Hlog) as [Hctx _]. cbn. by rewrite Hctx.
  - destruct (main c) as [| |[|containerID ids]| | | | |] eqn:Hm; by simplify_eq.
  - destruct (main c) eqn:Hm; by simplify_eq.
  - destruct (main c) eqn:Hm; by simplify_eq.
  - destruct (main c) eqn:Hm; simplify_eq. destruct (stoppers c); simplify_eq.
    unfold Stop_close. by destruct (client (dw c)).
  - destruct (main c) eqn:Hm; simplify_eq. destruct (wg (dw c)); by simplify_eq.
  - destruct (loop c) as [[| |event]|]; by simplify_eq.
  - destruct (loop c) as [[| |event]|]; simplify_eq. destruct sel as [|err|event].
    + destruct (ctxDone (dw c)) eqn:Hctx; simplify_eq.
      destruct (wgDone _) as [w'|] eqn:Hdone; [|done]. cbn in Hstep. simplify_eq.
      apply wgDone_inv in Hdone as (n & _ & ->). cbn. by rewrite Hctx.
    + destruct (wgDone _) as [w'|] eqn:Hdone; [|done]. cbn in Hstep. simplify_eq.
      apply wgDone_inv in Hdone as (n & _ & ->). cbn.
      destruct err as [e|]; [destruct (ctxDone (dw c)) eqn:Hctx|]; cbn;
        rewrite ?Hctx; done.
    + destruct (handleEvent event); by simplify_eq.
  - destruct (loop c) as [[| |event]|]; simplify_eq.
    destruct (handleContainer _ _ _) as [h|] eqn:Hh; [|done]. cbn in Hstep.
    destruct (logHandled _ _ _) as [w'|] eqn:Hlog; [|done]. cbn in Hstep. simplify_eq.
    destruct (handled_frame _ _ _ _ _ _ Hh Hlog) as [Hctx _]. cbn. by rewrite Hctx.
  - destruct (tasks c !! i) as [t|]; simplify_eq. destruct (t_pc t); simplify_eq.
    destruct (proxyStarted _ _ _) as [[w' ot]|] eqn:Hps; [|done]. cbn in Hstep.
    simplify_eq. apply proxyStarted_frame in Hps as [Hctx _]. cbn. by rewrite Hctx.
  - destruct (tasks c !! i) as [t|]; simplify_eq. destruct (t_pc t); simplify_eq.
    destruct (watchContainerStop _ _ _ _) as [[w' ot]| |] eqn:Hw; simplify_eq.
    apply watchContainerStop_frame in Hw as [Hctx _]. cbn. by rewrite Hctx.
  - destruct (stoppers c !! i) as [p|]; simplify_eq. cbn.
    unfold Stop_goroutine. by destruct err.
Qed.

Lemma run_cancel ls c c' :
  run ls c = Next c' →
  (ctxDone (dw c) = true ↔ stop_called (main c)) →
  (ctxDone (dw c') = true ↔ stop_called (main c')) ∧
  (stop_called (main c) → stop_called (main c')).
Proof.
  revert c. induction ls as [|l ls IH]; intros c; cbn.
  - by intros [= <-].
  - destruct (step l c) as [c1| |] eqn:Hstep; [|done|done]. intros Hrun Hc.
    destruct (step_cancel l c c1 Hstep Hc) as [Hc1 Hmono].
    destruct (IH c1 Hrun Hc1) as [Hc' Hmono']. split; [done|]. auto.
Qed.

Lemma reachable_cancel c :
  reachable c → ctxDone (dw c) = true ↔ stop_called (main c).
Proof.
  intros (network & ls & Hrun). by apply (run_cancel ls (init network) c Hrun).
Qed.

(** Without the loop, after [Start], no proxy is made any more. *)
Lemma step_no_loop l c c' :
  ¬ pre_start (main c) → loop c = None → step l c = Next c' →
  ¬ pre_start (main c') ∧ loop c' = None ∧ made (dw c') = made (dw c).
Proof.
  intros Hm Hloop Hstep. destruct l; cbn in Hstep; rewrite ?Hloop in Hstep; try done.
  - destruct (main c) eqn:Hmain; by simplify_eq.
  - destruct (main c) eqn:Hmain; by simplify_eq.
  - by destruct (main c) as [| |[|containerID ids]| | | | |] eqn:Hmain.
  - by destruct (main c) as [| |[|containerID ids]| | | | |] eqn:Hmain.
  - destruct (main c) eqn:Hmain; by simplify_eq.
  - destruct (main c) eqn:Hmain; by simplify_eq.
  - destruct (main c) eqn:Hmain; simplify_eq. destruct (stoppers c); simplify_eq.
    unfold Stop_close. by destruct (client (dw c)).
  - destruct (main c) eqn:Hmain; simplify_eq. destruct (wg (dw c)); by simplify_eq.
  - destruct (tasks c !! i) as [t|]; simplify_eq. destruct (t_pc t); simplify_eq.
    destruct (proxyStarted _ _ _) as [[w' ot]|] eqn:Hps; [|done]. cbn in Hstep.
    simplify_eq. by apply proxyStarted_frame in Hps as [_ ?].
  - destruct (tasks c !! i) as [t|]; simplify_eq. destruct (t_pc t); simplify_eq.
    destruct (watchContainerStop _ _ _ _) as [[w' ot]| |] eqn:Hw; simplify_eq.
    by apply watchContainerStop_frame in Hw as [_ ?].
  - destruct (stoppers c !! i) as [p|]; simplify_eq. cbn.
    unfold Stop_goroutine. by destruct err.
Qed.

Lemma run_no_loop ls c c' :
  ¬ pre_start (main c) → loop c = None → run ls c = Next c' →
  ¬ pre_start (main c') ∧ loop c' = None ∧ made (dw c') = made (dw c).
Proof.
  revert c. induction ls as [|l ls IH]; intros c Hm Hloop; cbn.
  - by intros [= <-].
  - destruct (step l c) as [c1| |] eqn:Hstep; [|done|done]. intros Hrun.
    destruct (step_no_loop l c c1 Hm Hloop Hstep) as (Hm1 & Hloop1 & Hmade1).
    destruct (IH c1 Hm1 Hloop1 Hrun) as (? & ? & ?). split; [done|]. split; [done|].
    congruence.
Qed.

(** A goroutine of [handleContainer] moves: [Start], [Stop], the loop and
    the stop goroutines stay where they are. *)
Lemma task_step_frame l c c' :
  step l c = Next c' →
  match l with TaskStarted _ _ | TaskSelects _ _ _ => True | _ => False end →
  main c' = main c ∧ loop c' = loop c ∧ stoppers c' = stoppers c.
Proof.
  intros Hstep Hl. destruct l; try done; cbn in Hstep.
  - destruct (tasks c !! i) as [t|]; simplify_eq. destruct (t_pc t); simplify_eq.
    destruct (proxyStarted _ _ _); [|done]. cbn in Hstep. by simplify_eq.
  - destruct (tasks c !! i) as [t|]; simplify_eq. destruct (t_pc t); simplify_eq.
    destruct (watchContainerStop _ _ _ _); by simplify_eq.
Qed.

End frames.

(** ** The registry, as [GetProxies] shows it *)

(** X9. [GetProxies], in every reachable configuration: it returns one
    pointer for every entry of the registry, none of them [nil] and no
    proxy twice (no proxy is registered under two identities); each was
    made by [NewProxy], its [Start] has returned [nil], and [Stop] has not
    been called on it, nor is a stop goroutine of [Stop] about to. *)
Theorem X9_GetProxies_live c :
  reachable c →
  length (GetProxies (dw c)) = size (proxies (dw c)) ∧
  (∀ p, p ∈ GetProxies (dw c) ↔ ∃ containerID, proxies (dw c) !! containerID = Some p) ∧
  NoDup (GetProxies (dw c)) ∧
  (∀ id1 id2 p, proxies (dw c) !! id1 = Some p → proxies (dw c) !! id2 = Some p →
                id1 = id2) ∧
  Forall (λ p, (∃ h cfg, p = Some h ∧ made (dw c) !! h = Some cfg) ∧
               (p, None) ∈ starts (trace (dw c)) ∧
               (p ∉ (stops (trace (dw c))).*1) ∧ (p ∉ stoppers c))
         (GetProxies (dw c)).
Proof.
  intros Hc. destruct (reachable_Teardown c Hc) as [[_ Hnd] _].
  unfold owed in Hnd. apply NoDup_app in Hnd as (Hnd & Hdisj & _).
  assert (∀ p, p ∈ GetProxies (dw c) ↔ ∃ containerID, proxies (dw c) !! containerID = Some p)
    as Hin.
  { intros p. unfold GetProxies. rewrite list_elem_of_fmap. split.
    - intros ([containerID q] & -> & Hq). exists containerID.
      by apply elem_of_map_to_list in Hq.
    - intros [containerID Hp]. exists (containerID, p). split; [done|].
      by apply elem_of_map_to_list. }
  split; [|split; [done|split; [done|split]]].
  - unfold GetProxies. by rewrite length_fmap, length_map_to_list.
  - intros id1 id2 p H1 H2.
    destruct (decide (id1 = id2)) as [|Hne]; [done|]. exfalso.
    rewrite (values_delete _ id1 p H1) in Hnd. apply NoDup_cons in Hnd as [Hp _].
    apply Hp. apply list_elem_of_fmap. exists (id2, p). split; [done|].
    apply elem_of_map_to_list. by rewrite lookup_delete_ne.
  - apply Forall_forall. intros p Hp. pose proof Hp as Hp'.
    apply Hin in Hp' as [containerID Hreg].
    destruct (reachable_registered c containerID p Hc Hreg)
      as (_ & (h & -> & Hh) & Hst & _).
    split; [|split; [done|split]].
    + destruct (lookup_lt_is_Some_2 (made (dw c)) h Hh) as [cfg Hcfg]. by exists h, cfg.
    + intros Hs. apply (Hdisj _ Hp). apply elem_of_app. by right.
    + intros Hs. apply (Hdisj _ Hp). apply elem_of_app. by left.
Qed.

Lemma X9_GetProxies_live_witness :
  length (GetProxies (dw (after sample_watching))) = 1 ∧
  NoDup (GetProxies (dw (after sample_watching))).
Proof.
  destruct (X9_GetProxies_live (after sample_watching) (reachable_after _))
    as (Hlen & _ & Hnd & _).
  split; [|exact Hnd]. rewrite Hlen. vm_compute. reflexivity.
Defined.

(** ** Calls of [Start] and of [Stop] *)

(** X10. In every reachable configuration: [Start] has been called at
    most once on any proxy; [Stop] has been called only on proxies whose
    [Start] returned [nil]; a proxy whose [Start] returned an error is not
    in the registry, is not about to be stopped by [Stop], and [Stop] has
    not been called on it: the watcher drops it without a call of
    [Stop]. *)
Theorem X10_start_stop_discipline c :
  reachable c →
  NoDup (starts (trace (dw c))).*1 ∧
  (∀ p err, (p, err) ∈ stops (trace (dw c)) → (p, None) ∈ starts (trace (dw c))) ∧
  (∀ p e, (p, Some e) ∈ starts (trace (dw c)) →
          (p ∉ GetProxies (dw c)) ∧ (p ∉ stoppers c) ∧ (p ∉ (stops (trace (dw c))).*1)).
Proof.
  intros Hc. destruct (reachable_Teardown c Hc) as [[Hst _] _].
  pose proof (reachable_Inv c Hc) as [[_ _ Hdist _ _] _ _ _].
  apply NoDup_app in Hdist as (_ & _ & Hdist).
  split; [done|]. split.
  - intros p err Hp. apply (proj2 (stopped_once c Hc)).
    apply list_elem_of_fmap. by exists (p, err).
  - intros p e Hp.
    assert (p ∉ owed (proxies (dw c)) (stoppers c) (stops (trace (dw c)))) as Hno.
    { intros Hin. eapply Forall_forall in Hst; [|done].
      by pose proof (NoDup_fst_functional _ _ _ _ Hdist Hp Hst). }
    unfold owed, GetProxies in *. rewrite !elem_of_app in Hno. tauto.
Qed.

Lemma X10_start_stop_discipline_witness :
  let failed := after (sample_listening ++
                       [LoopSelects (EventRecv (sample_event "start"));
                        LoopInspected (inl sample_inspect);
                        TaskStarted 0 (Some "tsnet: not logged in")]) in
  (Some 0 : option nat, Some "tsnet: not logged in") ∈ starts (trace (dw failed)) ∧
  (Some 0 ∉ GetProxies (dw failed)) ∧ (Some 0 ∉ (stops (trace (dw failed))).*1).
Proof.
  intros failed.
  assert ((Some 0 : option nat, Some "tsnet: not logged in") ∈ starts (trace (dw failed)))
    as Hin by (vm_compute; left).
  split; [exact Hin|].
  destruct (X10_start_stop_discipline failed (reachable_after _)) as (_ & _ & Hfailed).
  destruct (Hfailed (Some 0) "tsnet: not logged in" Hin) as (Hreg & _ & Hstop).
  split; [exact Hreg|exact Hstop].
Defined.

(** ** Cancellation *)

(** X11. The context of the watcher is cancelled exactly from the first
    statement of [Stop] on: in every reachable configuration [dw.ctx] is
    done if and only if [Stop] has been called, and it stays done.  So
    before [Stop] is called neither the loop nor a stop watcher can take
    the [ctx.Done()] case of its select. *)
Theorem X11_cancelled_by_Stop c :
  reachable c →
  (ctxDone (dw c) = true ↔ stop_called (main c)) ∧
  (∀ ls c', run ls c = Next c' → ctxDone (dw c) = true → ctxDone (dw c') = true) ∧
  (¬ stop_called (main c) →
   step (LoopSelects CtxDone) c = Disabled ∧
   ∀ i stopErr, step (TaskSelects i CtxDone stopErr) c = Disabled).
Proof.
  intros Hc. pose proof (reachable_cancel c Hc) as Hctx. split; [done|]. split.
  - intros ls c' Hrun Hdone.
    destruct (run_cancel ls c c' Hrun Hctx) as [Hctx' Hmono].
    apply Hctx', Hmono, Hctx, Hdone.
  - intros Hm. assert (ctxDone (dw c) = false) as Hlive.
    { destruct (ctxDone (dw c)) eqn:Hd; [|done]. destruct Hm. by apply Hctx. }
    split.
    + cbn. rewrite Hlive. by destruct (loop c) as [[| |event]|].
    + intros i stopErr. cbn. unfold watchContainerStop. rewrite Hlive.
      destruct (tasks c !! i) as [t|]; [|done]. by destruct (t_pc t).
Qed.

Lemma X11_cancelled_by_Stop_witness :
  ctxDone (dw (after sample_watching)) = false ∧
  step (TaskSelects 0 CtxDone None) (after sample_watching) = Disabled.
Proof.
  destruct (X11_cancelled_by_Stop (after sample_watching) (reachable_after _))
    as (Hctx & _ & Hlive).
  assert (¬ stop_called (main (after sample_watching))) as Hm by (vm_compute; tauto).
  split; [|apply (proj2 (Hlive Hm))].
  destruct (ctxDone (dw (after sample_watching))); [|reflexivity].
  destruct (Hm (proj1 Hctx eq_refl)).
Defined.

(** ** The end of the event stream of the loop *)

(** X12. When the error channel of the loop yields, or is closed, the
    loop goroutine returns: it logs the error if there is one and the
    watcher is not cancelled, calls [dw.wg.Done()], and leaves the
    registry, the proxies and their goroutines as they are.  [Start] has
    returned [nil] long before and nothing restarts the loop: in every
    continuation there is no loop, no start event is handled, and no
    proxy is made any more. *)
Theorem X12_loop_stream_end c err :
  reachable c → loop c = Some LoopSelect →
  ∃ c',
    step (LoopSelects (ErrRecv err)) c = Next c' ∧
    loop c' = None ∧ main c' = main c ∧ tasks c' = tasks c ∧
    proxies (dw c') = proxies (dw c) ∧ S (wg (dw c')) = wg (dw c) ∧
    trace (dw c') =
      trace (dw c) ++
      match err with
      | Some e => if ctxDone (dw c) then [] else [Log (LogEventsError e)]
      | None => []
      end ∧
    ∀ ls c'', run ls c' = Next c'' →
      loop c'' = None ∧ made (dw c'') = made (dw c) ∧
      ∀ sel r, step (LoopSelects sel) c'' = Disabled ∧
               step (LoopInspected r) c'' = Disabled.
Proof.
  intros Hc Hloop. pose proof (reachable_Inv c Hc) as [[Hwg _ _ _ _] _ Hpre _].
  assert (¬ pre_start (main c)) as Hm.
  { intros Hp. specialize (Hpre Hp). congruence. }
  unfold loop_live in Hwg. rewrite Hloop in Hwg.
  assert (∃ c', step (LoopSelects (ErrRecv err)) c = Next c' ∧
                loop c' = None ∧ main c' = main c ∧ tasks c' = tasks c ∧
                proxies (dw c') = proxies (dw c) ∧ S (wg (dw c')) = wg (dw c) ∧
                made (dw c') = made (dw c) ∧
                trace (dw c') =
                  trace (dw c) ++
                  match err with
                  | Some e => if ctxDone (dw c) then [] else [Log (LogEventsError e)]
                  | None => []
                  end) as (c' & Hstep & Hl & Hmain & Hts & Hreg & Hwg' & Hmade & Htr).
  { cbn. rewrite Hloop. unfold wgDone.
    destruct err as [e|]; [destruct (ctxDone (dw c))|]; cbn; rewrite Hwg; cbn;
      eexists; (split; [done|]); cbn; by rewrite ?app_nil_r. }
  exists c'. split_and!; try done.
  intros ls c'' Hrun.
  destruct (run_no_loop ls c' c'') as (_ & Hl'' & Hmade''); [by rewrite Hmain|done|done|].
  split; [done|]. split; [congruence|]. intros sel r. cbn. by rewrite Hl''.
Qed.

Lemma X12_loop_stream_end_witness :
  ∃ c',
    step (LoopSelects (ErrRecv (Some "unexpected EOF"))) (after sample_watching) = Next c' ∧
    loop c' = None ∧ proxies (dw c') = proxies (dw (after sample_watching)) ∧
    step (LoopSelects (EventRecv (sample_event "start"))) c' = Disabled.
Proof.
  destruct (X12_loop_stream_end (after sample_watching) (Some "unexpected EOF"))
    as (c' & Hstep & Hloop & _ & _ & Hreg & _ & _ & Hover).
  { apply reachable_after. }
  { vm_compute. reflexivity. }
  exists c'. split; [exact Hstep|]. split; [exact Hloop|]. split; [exact Hreg|].
  destruct (Hover [] c' eq_refl) as (_ & _ & Hdis).
  apply (proj1 (Hdis (EventRecv (sample_event "start")) (inr ""))).
Defined.

(** ** After [Stop] *)

(** X13. Once [Stop] has returned the watcher is at rest: no goroutine
    of it is left, so no step can be taken, and every continuation leaves
    the configuration as it is.  A proxy that is in the registry then
    (one whose [Start] returned after the drain of [Stop]) has not been
    stopped, and the watcher never stops it. *)
Theorem X13_stopped_is_final c :
  reachable c → main c = Stopped →
  (∀ l, step l c = Disabled) ∧
  (∀ ls c', run ls c = Next c' → c' = c) ∧
  (∀ containerID p, proxies (dw c) !! containerID = Some p →
                    (p, None) ∈ starts (trace (dw c)) ∧
                    (p ∉ (stops (trace (dw c))).*1)).
Proof.
  intros Hc Hm.
  destruct (Inv_stopped_quiet c (reachable_Inv c Hc) Hm) as [Hloop Hts].
  pose proof (td_closed c (reachable_Teardown c Hc) (or_intror Hm)) as Hsp.
  assert (∀ l, step l c = Disabled) as Hdis.
  { intros l. destruct l; cbn; rewrite ?Hm, ?Hloop, ?Hts, ?Hsp; done. }
  split; [done|]. split.
  - intros [|l ls] c'; cbn; [by intros [= <-]|]. by rewrite Hdis.
  - intros containerID p Hp. split.
    + by destruct (reachable_registered c containerID p Hc Hp) as (_ & _ & ? & _).
    + by eapply registered_not_stopped.
Qed.

Lemma X13_stopped_is_final_witness :
  let c := after (sample_listening ++
                  [LoopSelects (EventRecv (sample_event "start"));
                   LoopInspected (inl sample_inspect);
                   StopCancel; StopDrain; StopClose;
                   TaskStarted 0 None; TaskSelects 0 CtxDone None;
                   LoopSelects CtxDone; StopWaited]) in
  proxies (dw c) !! sample_id = Some (Some 0) ∧
  (Some 0 ∉ (stops (trace (dw c))).*1) ∧
  step (TaskSelects 0 (EventRecv (sample_event "stop")) None) c = Disabled.
Proof.
  intros c.
  assert (proxies (dw c) !! sample_id = Some (Some 0)) as Hp by (vm_compute; reflexivity).
  destruct (X13_stopped_is_final c (reachable_after _)) as (Hdis & _ & Hreg).
  { vm_compute. reflexivity. }
  split; [exact Hp|]. split; [exact (proj2 (Hreg sample_id (Some 0) Hp))|apply Hdis].
Defined.

(** ** Proxies the watcher loses *)

Section lost.

(** A proxy comes to be owed (registered, about to be stopped by [Stop],
    or stopped) only through the registration by its own goroutine. *)
Lemma step_owed_from l c c' q :
  Inv c → step l c = Next c' →
  q ∈ owed (proxies (dw c')) (stoppers c') (stops (trace (dw c'))) →
  q ∈ owed (proxies (dw c)) (stoppers c) (stops (trace (dw c))) ∨ q ∈ pending (tasks c).
Proof.
  intros HInv Hstep.
  destruct (step_Change l c c' HInv Hstep)
    as [Hreg Hst Hsp Hsl|p e Hp Hreg Hst Hsp Hsl|containerID p Hp Hreg Hst Hsp Hsl
       |containerID p e Hp Hreg Hst Hsp Hsl|Hm Hreg Hst Hsp Hsl|i p e Hi Hreg Hst Hsp Hsl];
    unfold owed; rewrite Hreg, Hsp, Hsl; try (by left).
  - rewrite values_insert. intros Hq.
    apply elem_of_app in Hq as [Hq|Hq]; [|left; apply elem_of_app; by right].
    apply elem_of_cons in Hq as [->|Hq]; [by right|].
    left. apply elem_of_app. left.
    eapply elem_of_submseteq; [done|apply values_delete_submseteq].
  - rewrite (values_delete _ _ _ Hp), fmap_app. cbn. intros Hq. left.
    rewrite !elem_of_app, list_elem_of_singleton in Hq.
    rewrite elem_of_cons, !elem_of_app. tauto.
  - rewrite map_to_list_empty. cbn. intros Hq. left.
    rewrite !elem_of_app in *. tauto.
  - rewrite fmap_app. cbn. intros Hq. left.
    rewrite !elem_of_app, list_elem_of_singleton in Hq. rewrite !elem_of_app.
    destruct Hq as [?|[Hq|[?| ->]]]; [tauto| |tauto|].
    + right. left. eapply elem_of_submseteq; [done|apply submseteq_delete].
    + right. left. by eapply list_elem_of_lookup_2.
Qed.

(** The calls of [Start] are never taken back. *)
Lemma step_starts l c c' :
  Inv c → step l c = Next c' →
  starts (trace (dw c)) `prefix_of` starts (trace (dw c')).
Proof.
  intros HInv Hstep.
  destruct (step_Change l c c' HInv Hstep)
    as [_ Hst _ _|p e _ _ Hst _ _|containerID p _ _ Hst _ _
       |containerID p e _ _ Hst _ _|_ _ Hst _ _|i p e _ _ Hst _ _];
    rewrite Hst; try done; by apply prefix_app_r.
Qed.

(** A proxy whose [Start] has returned and that is not owed is never
    owed again. *)
Lemma step_lost l c c' q :
  Inv c → step l c = Next c' →
  q ∈ (starts (trace (dw c))).*1 →
  q ∉ owed (proxies (dw c)) (stoppers c) (stops (trace (dw c))) →
  q ∈ (starts (trace (dw c'))).*1 ∧
  q ∉ owed (proxies (dw c')) (stoppers c') (stops (trace (dw c'))).
Proof.
  intros HInv Hstep Hst Hno. split.
  - destruct (step_starts l c c' HInv Hstep) as [k ->]. rewrite fmap_app.
    apply elem_of_app. by left.
  - intros Hin. destruct (step_owed_from l c c' q HInv Hstep Hin) as [|Hpend]; [done|].
    destruct HInv as [[_ _ Hdist _ _] _ _ _].
    apply NoDup_app in Hdist as (_ & Hdisj & _). by apply (Hdisj q).
Qed.

Lemma run_lost ls c c' q :
  Inv c → run ls c = Next c' →
  q ∈ (starts (trace (dw c))).*1 →
  q ∉ owed (proxies (dw c)) (stoppers c) (stops (trace (dw c))) →
  q ∉ owed (proxies (dw c')) (stoppers c') (stops (trace (dw c'))).
Proof.
  revert c. induction ls as [|l ls IH]; intros c HInv; cbn.
  - by intros [= <-].
  - destruct (step l c) as [c1| |] eqn:Hstep; [|done|done]. intros Hrun Hst Hno.
    destruct (step_lost l c c1 q HInv Hstep Hst Hno) as [Hst1 Hno1].
    by apply (IH c1 (step_Inv l c c1 HInv Hstep) Hrun).
Qed.

End lost.

(** X14. A registration replaces, it does not check: when [proxy.Start()]
    returns [nil] for an identity that is in the registry already (a second
    start notification was handled before the first proxy was registered),
    the goroutine overwrites the entry.  The registry keeps its size, the
    proxy that was registered is another one than the new one, its [Start]
    had returned [nil], and from then on it is out of reach: in every
    continuation it is not in the registry, not among the proxies [Stop]
    has drained, and [Stop] is never called on it. *)
Theorem X14_overwritten_proxy_is_lost c i t p0 :
  reachable c →
  tasks c !! i = Some t → t_pc t = TaskStart →
  proxies (dw c) !! t_containerID t = Some p0 →
  ∃ c',
    step (TaskStarted i None) c = Next c' ∧
    proxies (dw c') = <[t_containerID t := t_proxy t]> (proxies (dw c)) ∧
    size (proxies (dw c')) = size (proxies (dw c)) ∧
    t_proxy t ≠ p0 ∧
    (p0, None) ∈ starts (trace (dw c)) ∧
    ∀ ls c'', run ls c' = Next c'' →
      (p0 ∉ GetProxies (dw c'')) ∧ (p0 ∉ stoppers c'') ∧
      (p0 ∉ (stops (trace (dw c''))).*1).
Proof.
  intros Hc Hi Hpc Hp0.
  destruct (reachable_task c i t Hc Hi) as (Hlen & _).
  pose proof (start_ok c i t Hi Hpc Hlen) as Hstep.
  set (c' := {| main := main c |}) in Hstep.
  assert (reachable c') as Hc' by (by eapply reachable_step).
  destruct (reachable_registered c _ p0 Hc Hp0) as (_ & _ & Hst0 & _).
  pose proof (reachable_Inv c Hc) as [[_ _ Hdist _ _] _ _ _].
  assert (t_proxy t ≠ p0) as Hne.
  { intros Heq. apply NoDup_app in Hdist as (_ & Hdisj & _).
    apply (Hdisj (t_proxy t)); [by eapply pending_elem|].
    rewrite Heq. apply list_elem_of_fmap. by exists (p0, None). }
  assert (p0 ∉ owed (proxies (dw c')) (stoppers c') (stops (trace (dw c')))) as Hlost.
  { destruct (reachable_Teardown c Hc) as [[_ Hnd] _]. unfold owed in *.
    rewrite (values_delete _ _ _ Hp0) in Hnd. cbn in Hnd.
    apply NoDup_cons in Hnd as [Hfresh _].
    unfold c'. cbn [dw proxies stoppers trace emit set_proxies].
    rewrite values_insert, !stops_app. cbn. rewrite !app_nil_r.
    intros Hin. apply elem_of_cons in Hin as [Heq|Hin]; [by apply Hne|done]. }
  exists c'. split; [done|]. split; [done|]. split.
  { unfold c'. cbn [dw proxies emit set_proxies].
    apply map_size_insert_Some. by eexists. }
  split; [done|]. split; [done|].
  intros ls c'' Hrun.
  assert (p0 ∉ owed (proxies (dw c'')) (stoppers c'') (stops (trace (dw c'')))) as Hno.
  { apply (run_lost ls c' c'' p0 (reachable_Inv c' Hc') Hrun); [|done].
    unfold c'. cbn. rewrite !starts_app, !fmap_app. cbn.
    rewrite !elem_of_app. left. left. apply list_elem_of_fmap. by exists (p0, None). }
  unfold owed, GetProxies in *. rewrite !elem_of_app in Hno. tauto.
Qed.

Lemma X14_overwritten_proxy_is_lost_witness :
  let c := after (sample_listening ++
                  [LoopSelects (EventRecv (sample_event "start"));
                   LoopInspected (inl sample_inspect);
                   LoopSelects (EventRecv (sample_event "start"));
                   LoopInspected (inl sample_inspect);
                   TaskStarted 0 None]) in
  ∃ c', step (TaskStarted 1 None) c = Next c' ∧
        proxies (dw c') !! sample_id = Some (Some 1) ∧
        ∀ ls c'', run ls c' = Next c'' → Some 0 ∉ (stops (trace (dw c''))).*1.
Proof.
  intros c.
  destruct (X14_overwritten_proxy_is_lost c 1
              {| t_containerID := sample_id; t_nodeName := "app";
                 t_proxy := Some 1; t_pc := TaskStart |} (Some 0))
    as (c' & Hstep & Hreg & _ & _ & _ & Hlost).
  { apply reachable_after. }
  { vm_compute. reflexivity. }
  { reflexivity. }
  { vm_compute. reflexivity. }
  exists c'. split; [exact Hstep|]. split.
  - rewrite Hreg. apply lookup_insert_eq.
  - intros ls c'' Hrun. exact (proj2 (proj2 (Hlost ls c'' Hrun))).
Defined.

(** ** [Stop] returns *)

Section stop_returns.

Lemma no_labels_not_enabled : ¬ enabled no_labels.
Proof. intros (v & Hv & _). unfold no_labels in Hv. cbn in Hv. by rewrite lookup_empty in Hv. Qed.

(** The loop returns once the context is cancelled. *)
Lemma loop_returns c :
  reachable c → stop_called (main c) →
  ∃ c', run (finish_loop (loop c)) c = Next c' ∧
        loop c' = None ∧ main c' = main c ∧ tasks c' = tasks c ∧
        stoppers c' = stoppers c ∧ proxies (dw c') = proxies (dw c) ∧
        stops (trace (dw c')) = stops (trace (dw c)).
Proof.
  intros Hc Hm. pose proof (proj2 (reachable_cancel c Hc) Hm) as Hctx.
  pose proof (reachable_Inv c Hc) as [[Hwg _ _ _ _] _ _ _].
  unfold loop_live in Hwg.
  assert (∀ c1, loop c1 = Some LoopSelect → ctxDone (dw c1) = true →
                wg (dw c1) = 1 + length (tasks c1) →
                ∃ c', run [LoopSelects CtxDone] c1 = Next c' ∧
                      loop c' = None ∧ main c' = main c1 ∧ tasks c' = tasks c1 ∧
                      stoppers c' = stoppers c1 ∧ proxies (dw c') = proxies (dw c1) ∧
                      stops (trace (dw c')) = stops (trace (dw c1))) as Hsel.
  { intros c1 Hloop1 Hctx1 Hwg1. cbn. rewrite Hloop1, Hctx1. unfold wgDone. cbn.
    rewrite Hwg1. cbn. eexists. split; [done|]. cbn.
    by rewrite stops_app, app_nil_r. }
  destruct (loop c) as [[| |event]|] eqn:Hloop; cbn [finish_loop].
  - rewrite run_cons. cbn [step]. rewrite Hloop.
    destruct (Hsel {| dw := emit [Log LogWatcherStarted] (dw c); main := main c;
                      loop := Some LoopSelect; tasks := tasks c;
                      stoppers := stoppers c |})
      as (c' & Hrun & ? & ? & ? & ? & ? & Hsl); [done|done|done|].
    exists c'. split; [done|]. split_and!; try done.
    rewrite Hsl. cbn. by rewrite stops_app, app_nil_r.
  - destruct (Hsel c) as (c' & Hrun & ?); [done|done|done|]. by exists c'.
  - rewrite run_cons. cbn [step]. rewrite Hloop.
    rewrite (handleContainer_not_enabled _ _ _ no_labels_not_enabled). cbn.
    destruct (Hsel {| dw := dw c; main := main c; loop := Some LoopSelect;
                      tasks := tasks c ++ []; stoppers := stoppers c |})
      as (c' & Hrun & ? & ? & Hts & ? & ? & ?); [done|done|cbn; by rewrite app_nil_r|].
    exists c'. split; [done|]. cbn in Hts. rewrite app_nil_r in Hts. by split_and!.
  - exists c. by rewrite Hloop.
Qed.

(** Goroutines of [handleContainer] move: [Start], [Stop], the loop and
    the stop goroutines stay where they are. *)
Lemma run_task_frame ls c c' :
  Forall (λ l, match l with TaskStarted _ _ | TaskSelects _ _ _ => True | _ => False end) ls →
  run ls c = Next c' →
  main c' = main c ∧ loop c' = loop c ∧ stoppers c' = stoppers c.
Proof.
  revert c. induction ls as [|l ls IH]; intros c Hls; cbn.
  - by intros [= <-].
  - apply Forall_cons in Hls as [Hl Hls].
    destruct (step l c) as [c1| |] eqn:Hstep; [|done|done]. intros Hrun.
    destruct (task_step_frame l c c1 Hstep Hl) as (? & ? & ?).
    destruct (IH c1 Hls Hrun) as (? & ? & ?). split_and!; congruence.
Qed.

(** The goroutines of [handleContainer] return, one after the other,
    once the context is cancelled. *)
Lemma tasks_return startErr ts : ∀ c,
  tasks c = ts → reachable c → stop_called (main c) →
  ∃ c', run (ts ≫= finish_task startErr) c = Next c' ∧
        tasks c' = [] ∧ main c' = main c ∧ loop c' = loop c ∧
        stoppers c' = stoppers c ∧
        stops (trace (dw c')) = stops (trace (dw c)) ∧
        (is_Some startErr → proxies (dw c') = proxies (dw c)).
Proof.
  induction ts as [|t ts IH]; intros c Hts Hc Hm.
  - exists c. by rewrite Hts.
  - assert (tasks c !! 0 = Some t) as Hi by (by rewrite Hts).
    assert (∃ c1, run (finish_task startErr t) c = Next c1 ∧ tasks c1 = ts ∧
                  stops (trace (dw c1)) = stops (trace (dw c)) ∧
                  (is_Some startErr → proxies (dw c1) = proxies (dw c)))
      as (c1 & Hrun1 & Hts1 & Hsl1 & Hreg1).
    { unfold finish_task. destruct (t_pc t) eqn:Hpc; cbv beta match.
      - destruct startErr as [e|].
        + destruct (reachable_task c 0 t Hc Hi) as (Hlen & n & Hn).
          rewrite run_cons. cbn [step]. rewrite Hi, Hpc. unfold proxyStarted.
          rewrite (slice_to_Some 12 _ Hlen). cbn. unfold wgDone. cbn. rewrite Hn. cbn.
          eexists. split; [done|]. cbn. rewrite Hts.
          split; [done|]. split; [|done]. by rewrite !stops_app, !app_nil_r.
        + destruct (reachable_task c 0 t Hc Hi) as (Hlen & _).
          pose proof (start_ok c 0 t Hi Hpc Hlen) as Hstep.
          set (c1 := {| main := main c |}) in Hstep.
          assert (reachable c1) as Hc1 by (by eapply reachable_step).
          destruct (watch_cancelled c1 0 {| t_containerID := t_containerID t;
                                            t_nodeName := t_nodeName t;
                                            t_proxy := t_proxy t; t_pc := TaskWatch |}
                      Hc1) with (stopErr := @None string)
            as (c2 & Hstep2 & Hreg2 & Htr2 & Hts2 & _).
          { unfold c1. cbn. by rewrite Hts. }
          { done. }
          { apply (reachable_cancel c1 Hc1). by unfold c1. }
          exists c2. rewrite run_cons, Hstep, run_cons, Hstep2. split; [done|].
          split; [rewrite Hts2; unfold c1; cbn; by rewrite Hts|].
          split; [|by intros [? [=]]].
          rewrite Htr2. unfold c1. cbn. by rewrite !stops_app, !app_nil_r.
      - assert (∃ c1, step (TaskSelects 0 CtxDone None) c = Next c1 ∧
                      proxies (dw c1) = proxies (dw c) ∧ trace (dw c1) = trace (dw c) ∧
                      tasks c1 = delete 0 (tasks c)) as (c1 & Hstep & Hreg & Htr & Htasks).
        { destruct (watch_cancelled c 0 t Hc Hi Hpc None) as (c1 & ? & ? & ? & ? & _);
            [by apply (reachable_cancel c Hc)|]. by exists c1. }
        exists c1. split; [by destruct startErr; rewrite run_cons, Hstep|].
        split; [by rewrite Htasks, Hts|]. by rewrite Htr. }
    assert (main c1 = main c ∧ loop c1 = loop c ∧ stoppers c1 = stoppers c)
      as (Hm1 & Hl1 & Hsp1).
    { apply (run_task_frame (finish_task startErr t)); [|done].
      unfold finish_task. destruct (t_pc t), startErr; by repeat constructor. }
    destruct (IH c1 Hts1 (reachable_run _ _ _ Hc Hrun1)) as (c' & Hrun & ? & ? & ? & ? & ? & Hreg');
      [by rewrite Hm1|].
    exists c'. cbn [mbind list_bind]. rewrite run_app, Hrun1. split; [done|].
    split_and!; try congruence. intros Hs. rewrite (Hreg' Hs). by apply Hreg1.
Qed.

End stop_returns.

(** X15. [Stop] returns.  Called in any reachable configuration in which
    [Start] has returned (or was never called), [Stop] runs to its end
    when the calls it waits for return: the stop goroutines call
    [proxy.Stop()] on the proxies that were registered, the client is
    closed, the loop and every goroutine of [handleContainer] take the way
    out that the cancelled context opens (a watcher the [ctx.Done()] case,
    a goroutine in [proxy.Start()] its return on error or, on success, the
    registration and then the [ctx.Done()] case), the counter of [dw.wg]
    reaches zero and [dw.wg.Wait()] lets [Stop] return, whether the calls
    of [proxy.Start()] and of [proxy.Stop()] fail or not.  No goroutine is
    left, [Stop] has been called on the proxies that were registered and
    on no other; the registry is empty if the pending starts failed. *)
Theorem X15_stop_returns c startErr stopErr :
  reachable c → main c = Running ∨ main c = Created →
  ∃ c',
    run (shutdown c startErr stopErr) c = Next c' ∧
    main c' = Stopped ∧ loop c' = None ∧ tasks c' = [] ∧ stoppers c' = [] ∧
    wg (dw c') = 0 ∧
    stops (trace (dw c'))
    = stops (trace (dw c)) ++
      zip (GetProxies (dw c)) (replicate (size (proxies (dw c))) stopErr) ∧
    (is_Some startErr → proxies (dw c') = ∅).
Proof.
  intros Hc Hm. unfold shutdown.
  rewrite run_app, (stop_drains c Hm).
  set (c1 := {| main := StopDrained |}).
  assert (reachable c1) as Hc1.
  { apply (reachable_run [StopCancel; StopDrain] c c1 Hc). by rewrite (stop_drains c Hm). }
  destruct (stop_closes c1 (replicate (size (proxies (dw c))) stopErr))
    as (c2 & Hrun2 & Hm2 & Hl2 & Hts2 & Hreg2 & _ & Hsl2 & _).
  { done. }
  { by apply (inv_client c (reachable_Inv c Hc)). }
  { unfold c1. cbn. by rewrite length_replicate, length_fmap, length_map_to_list. }
  rewrite run_app, Hrun2.
  assert (reachable c2) as Hc2 by (by eapply reachable_run).
  destruct (loop_returns c2 Hc2) as (c3 & Hrun3 & Hl3 & Hm3 & Hts3 & Hsp3 & Hreg3 & Hsl3);
    [by rewrite Hm2|].
  rewrite Hl2 in Hrun3. change (loop c1) with (loop c) in Hrun3.
  rewrite run_app, Hrun3.
  assert (reachable c3) as Hc3 by (by eapply reachable_run).
  destruct (tasks_return startErr (tasks c) c3)
    as (c4 & Hrun4 & Hts4 & Hm4 & Hl4 & Hsp4 & Hsl4 & Hreg4);
    [by rewrite Hts3, Hts2|done|by rewrite Hm3, Hm2|].
  rewrite run_app, Hrun4.
  assert (reachable c4) as Hc4 by (by eapply reachable_run).
  pose proof (reachable_Inv c4 Hc4) as [[Hwg4 _ _ _ _] _ _ _].
  unfold loop_live in Hwg4. rewrite Hl4, Hl3, Hts4 in Hwg4. cbn in Hwg4.
  pose proof (td_closed c3 (reachable_Teardown c3 Hc3)) as Hnil.
  rewrite Hm3, Hm2 in Hnil. specialize (Hnil (or_introl eq_refl)).
  cbn. rewrite Hm4, Hm3, Hm2, Hwg4. eexists. split; [done|]. cbn.
  split_and!; try done; try congruence.
  - rewrite Hsl4, Hsl3, Hsl2. unfold c1. cbn. by rewrite stops_app, app_nil_r.
  - intros Hs. rewrite (Hreg4 Hs), Hreg3, Hreg2. done.
Qed.

Lemma X15_stop_returns_witness :
  ∃ c',
    run (shutdown (after sample_watching) None (Some "close failed")) (after sample_watching)
    = Next c' ∧
    main c' = Stopped ∧ tasks c' = [] ∧
    stops (trace (dw c')) = [(Some 0, Some "close failed")].
Proof.
  destruct (X15_stop_returns (after sample_watching) None (Some "close failed"))
    as (c' & Hrun & Hm & _ & Hts & _ & _ & Hsl & _).
  { apply reachable_after. }
  { left. vm_compute. reflexivity. }
  exists c'. split; [exact Hrun|]. split; [exact Hm|]. split; [exact Hts|].
  rewrite Hsl. vm_compute. reflexivity.
Defined.

(** ** The wait group *)

(** X16. The counter of [dw.wg] leaves zero only while [Start] runs: in
    a reachable configuration a step that raises the counter finds it
    above zero, unless [Start] has not returned yet.  [Stop] is called
    after [Start] has returned, so no [dw.wg.Add(1)] on a zero counter
    runs at the same time as the [dw.wg.Wait()] of [Stop]: when
    [handleContainer] adds a goroutine from the loop, the loop itself is
    still counted. *)
Theorem X16_wg_add_before_wait c l c' :
  reachable c → step l c = Next c' →
  wg (dw c) < wg (dw c') →
  wg (dw c') = S (wg (dw c)) ∧ (wg (dw c) = 0 → pre_start (main c)).
Proof.
  intros Hc Hstep Hup. pose proof (reachable_Inv c Hc) as [[Hwg _ _ _ _] _ _ _].
  destruct l; cbn in Hstep.
  - destruct (main c); simplify_eq. cbn in Hup. lia.
  - destruct (main c); simplify_eq. destruct r; simplify_eq; cbn in Hup; lia.
  - destruct (main c) as [| |[|containerID ids]| | | | |] eqn:Hm; simplify_eq.
    destruct (handleContainer _ _ _) as [h|] eqn:Hh; [|done]. cbn in Hstep.
    destruct (logHandled _ _ _) as [w'|] eqn:Hlog; [|done]. cbn in Hstep. simplify_eq.
    apply logHandled_cases in Hlog as [logs2 ->].
    apply handleContainer_cases in Hh
      as [[_ [logs Hdw]]|(_ & _ & _ & cfg & nodeName & logs & _ & Hdw)];
      rewrite Hdw in *; cbn in *; [lia|done].
  - destruct (main c) as [| |[|containerID ids]| | | | |] eqn:Hm; simplify_eq. done.
  - destruct (main c); simplify_eq; cbn in Hup; lia.
  - destruct (main c); simplify_eq. cbn in Hup. lia.
  - destruct (main c); simplify_eq. destruct (stoppers c); simplify_eq.
    cbn in Hup. unfold Stop_close in Hup. destruct (client (dw c)); cbn in Hup; lia.
  - destruct (main c); simplify_eq. destruct (wg (dw c)) eqn:Hz; simplify_eq.
    cbn in Hup. lia.
  - destruct (loop c) as [[| |event]|]; simplify_eq. cbn in Hup. lia.
  - destruct (loop c) as [[| |event]|]; simplify_eq. destruct sel as [|err|event].
    + destruct (ctxDone (dw c)); simplify_eq.
      destruct (wgDone _) as [w'|] eqn:Hdone; [|done]. cbn in Hstep. simplify_eq.
      apply wgDone_inv in Hdone as (n & Hn & ->). cbn in *. lia.
    + destruct (wgDone _) as [w'|] eqn:Hdone; [|done]. cbn in Hstep. simplify_eq.
      apply wgDone_inv in Hdone as (n & Hn & ->).
      destruct err as [e|]; [destruct (ctxDone (dw c))|]; cbn in *; lia.
    + destruct (handleEvent event); simplify_eq; cbn in Hup; lia.
  - destruct (loop c) as [[| |event]|] eqn:Hloop; simplify_eq.
    unfold loop_live in Hwg. rewrite Hloop in Hwg.
    destruct (handleContainer _ _ _) as [h|] eqn:Hh; [|done]. cbn in Hstep.
    destruct (logHandled _ _ _) as [w'|] eqn:Hlog; [|done]. cbn in Hstep. simplify_eq.
    apply logHandled_cases in Hlog as [logs2 ->].
    apply handleContainer_cases in Hh
      as [[_ [logs Hdw]]|(_ & _ & _ & cfg & nodeName & logs & _ & Hdw)];
      rewrite Hdw in *; cbn in *; lia.
  - destruct (tasks c !! i) as [t|]; simplify_eq. destruct (t_pc t); simplify_eq.
    unfold proxyStarted in Hstep.
    destruct (slice_to 12 (t_containerID t)); [|by destruct err].
    destruct err as [e|]; cbn in Hstep.
    + destruct (wgDone _) as [w'|] eqn:Hdone; [|done]. cbn in Hstep. simplify_eq.
      apply wgDone_inv in Hdone as (n & Hn & ->). cbn in *. lia.
    + simplify_eq. cbn in Hup. lia.
  - destruct (tasks c !! i) as [t|]; simplify_eq. destruct (t_pc t); simplify_eq.
    destruct (watchContainerStop _ _ _ _) as [[w' ot]| |] eqn:Hw; simplify_eq.
    apply watchContainerStop_cases in Hw as [[-> ->]|(-> & Hw & _)]; cbn in Hup; lia.
  - destruct (stoppers c !! i) as [p|]; simplify_eq.
    cbn in Hup. unfold Stop_goroutine in Hup. destruct err; cbn in Hup; lia.
Qed.

Lemma X16_wg_add_before_wait_witness :
  let c := after (sample_listening ++ [LoopSelects (EventRecv (sample_event "start"))]) in
  ∃ c', step (LoopInspected (inl sample_inspect)) c = Next c' ∧
        wg (dw c) = 1 ∧ wg (dw c') = 2.
Proof.
  intros c. eexists. split; [vm_compute; reflexivity|].
  assert (wg (dw c) = 1) as Hwg by (vm_compute; reflexivity).
  split; [exact Hwg|]. rewrite <-Hwg.
  refine (proj1 (X16_wg_add_before_wait c (LoopInspected (inl sample_inspect)) _
                   (reachable_after _) _ _)).
  - vm_compute. reflexivity.
  - vm_compute. lia.
Defined.

(** ** [NewDockerWatcher] *)

(** X17. The client options of [NewDockerWatcher].  The options taken
    from the environment, [client.FromEnv] and then
    [client.WithAPIVersionNegotiation], are always passed, and last: every
    option from the configuration file comes before them.  A TLS option
    is passed only when a certificate path is configured and [tls_verify]
    reads as true; its three files are [ca.pem], [cert.pem] and [key.pem]
    under that path.  A certificate path without [tls_verify] is dropped:
    the options are those of a configuration without certificate path.
    When the client cannot be created the error is wrapped and no watcher
    is returned; otherwise the new watcher has an empty registry, is not
    cancelled and is on the configured network. *)
Theorem X17_client_options boolValue dockerConfig :
  (∃ fromConfig,
     clientOpts boolValue dockerConfig = fromConfig ++ [FromEnv; WithAPIVersionNegotiation] ∧
     (FromEnv ∉ fromConfig) ∧ (WithAPIVersionNegotiation ∉ fromConfig) ∧
     length fromConfig ≤ 3 ∧
     (∀ host, WithHost host ∈ fromConfig ↔
              host = Host dockerConfig ∧ host ≠ "") ∧
     (∀ version, WithVersion version ∈ fromConfig ↔
                 version = APIVersion dockerConfig ∧ version ≠ "") ∧
     (∀ ca cert key, WithTLSClientConfig ca cert key ∈ fromConfig ↔
                     CertPath dockerConfig ≠ "" ∧
                     boolValue (TLSVerify dockerConfig) false = true ∧
                     ca = CertPath dockerConfig +:+ "/ca.pem" ∧
                     cert = CertPath dockerConfig +:+ "/cert.pem" ∧
                     key = CertPath dockerConfig +:+ "/key.pem")) ∧
  (boolValue (TLSVerify dockerConfig) false = false →
   clientOpts boolValue dockerConfig
   = clientOpts boolValue (with_CertPath "" dockerConfig)) ∧
  (∀ err, NewDockerWatcher dockerConfig (Some err)
          = inr ("failed to create Docker client: " +:+ err)) ∧
  ∃ c, NewDockerWatcher dockerConfig None = inl c ∧
       proxies (dw c) = ∅ ∧ ctxDone (dw c) = false ∧ wg (dw c) = 0 ∧
       dockerNetwork (dw c) = Network dockerConfig ∧ main c = Created.
Proof.
  split; [|split; [|split; [done|by eexists]]].
  - exists ((if negb (String.eqb (Host dockerConfig) "")
             then [WithHost (Host dockerConfig)] else []) ++
            (if negb (String.eqb (APIVersion dockerConfig) "")
             then [WithVersion (APIVersion dockerConfig)] else []) ++
            (if negb (String.eqb (CertPath dockerConfig) "")
                && boolValue (TLSVerify dockerConfig) false
             then [WithTLSClientConfig (CertPath dockerConfig +:+ "/ca.pem")
                                       (CertPath dockerConfig +:+ "/cert.pem")
                                       (CertPath dockerConfig +:+ "/key.pem")]
             else [])).
    unfold clientOpts.
    destruct (String.eqb_spec (Host dockerConfig) "") as [Hh|Hh];
      destruct (String.eqb_spec (APIVersion dockerConfig) "") as [Hv|Hv];
      destruct (String.eqb_spec (CertPath dockerConfig) "") as [Hp|Hp];
      destruct (boolValue (TLSVerify dockerConfig) false) eqn:Ht;
      cbn; (split; [reflexivity|]);
      (split_and!; [| |cbn; lia|..]); intros;
      rewrite ?elem_of_cons, ?elem_of_nil; intuition congruence.
  - intros Ht. unfold clientOpts, with_CertPath. cbn. rewrite Ht.
    by destruct (String.eqb (CertPath dockerConfig) "").
Qed.
